(** * SentimentAnalysis: weighted index, aggregation and source adapters

    A shallow embedding of the decision logic of the repository:

    - [sentiment_analysis/sentiment_analysis.py]:
      [SentimentAnalyzer.calculate_weighted_sentiment];
    - [main.py]: the combination step of [fetch_all_sentiment_data];
    - [backup_20250305/data_fetching/fetch_wsb_sentiment.py]:
      [WSBSentimentFetcher.fetch_wsb_posts] and [_fetch_from_listings];
    - [data_fetching/fetch_institutional_sentiment.py]:
      [fetch_alpha_vantage_news], [fetch_news_api],
      [get_institutional_sentiment].

    Conventions of the embedding.
    - The analyzer computes with Python floats.  It is written once over an
      arithmetic interface and read in two arithmetics: exact rationals
      ([Q], equality [==]) for its algebra, and IEEE binary64 (primitive
      floats) for what rounding changes.  What is proved of binary64 rests
      on the specification of the primitive operations in [SpecFloat] and
      [FloatAxioms]: each is the exact result rounded to nearest, ties to
      even.
    - A DataFrame built from a list of dicts is the list of its rows; the
      rows of one frame are records of one Rocq type.  Where the code works
      on column names (the combination step) a frame carries its column
      list and each row is a finite map from column name to cell.
    - Python exceptions are values of [exn]; a call that may raise returns
      an [outcome].  [try: b except Exception: h] is [catch b h].
    - The outside world (the clock, the Reddit client, the HTTP services) is
      passed in as arguments.
    - Strings are ASCII; [str.upper] maps a-z to A-Z. *)

From Stdlib Require Import QArith Qabs Qround Qpower Lqa ZArith Lia Ascii String.
From Stdlib Require Import Floats Uint63.
From stdpp Require Import base decidable option list gmap strings.

Open Scope string_scope.
Open Scope list_scope.

Set Warnings "-clear-no-such-hyp".

(** ** Arithmetic *)

Module Arithmetic.

(** The operations the analyzer performs on numbers.  The analyzer is
    written once over this interface and read in two arithmetics: exact
    rationals, and IEEE binary64 (what Python and pandas compute with). *)
Class Arith (F : Type) := {
  zero : F;                 (* 0 and 0.0 *)
  add : F → F → F;
  sub : F → F → F;
  mul : F → F → F;
  div : F → F → F;
  of_nat : nat → F;         (* a count, as a number *)
  lit : Q → F;              (* the value of a decimal literal *)
  gt_zero : F → bool        (* x > 0 *)
}.

#[global] Instance exact : Arith Q := {|
  zero := 0%Q;
  add := Qplus;
  sub := Qminus;
  mul := Qmult;
  div := Qdiv;
  of_nat n := inject_Z (Z.of_nat n);
  lit q := q;
  gt_zero x := if Qlt_le_dec 0 x then true else false
|}.

(** An integer as a binary64 number (exact below 2^53). *)
Definition float_of_Z (z : Z) : float :=
  if (z <? 0)%Z then PrimFloat.opp (PrimFloat.of_uint63 (Uint63.of_Z (- z)))
  else PrimFloat.of_uint63 (Uint63.of_Z z).

(** A decimal literal n/d denotes the binary64 number nearest to it, which
    is the correctly rounded quotient of n by d. *)
#[global] Instance binary64 : Arith float := {|
  zero := PrimFloat.zero;
  add := PrimFloat.add;
  sub := PrimFloat.sub;
  mul := PrimFloat.mul;
  div := PrimFloat.div;
  of_nat n := float_of_Z (Z.of_nat n);
  lit q := PrimFloat.div (float_of_Z (Qnum q)) (float_of_Z (Z.pos (Qden q)));
  gt_zero x := PrimFloat.ltb PrimFloat.zero x
|}.

(** An arithmetic with rounding.  [val] is the rational a value denotes and
    [number] tells the numbers from the infinities and NaN.  On numbers,
    each operation returns the exact result rounded by [rnd], a monotone,
    odd function that leaves the numbers (and 1/4) unchanged, as long as
    the exact result is [small]; a count that is small is a number, and so
    is the rounding of a decimal literal of at most fifteen digits.  The
    exact arithmetic is of this kind, with the identity as rounding and
    every rational small; so is binary64 with round-to-nearest-even, the
    magnitudes up to 2^53 being small ([Binary64Facts.binary64_rounded]). *)
Class Rounded (F : Type) `{Arith F} := {
  val : F → Q;
  number : F → Prop;
  small : Q → Prop;
  rnd : Q → Q;
  small_le x y : (Qabs x <= Qabs y)%Q → small y → small x;
  small_one : small 1;
  rnd_mono x y : (x <= y)%Q → (rnd x <= rnd y)%Q;
  rnd_opp x : (rnd (- x) == - rnd x)%Q;
  rnd_val a : number a → (rnd (val a) == val a)%Q;
  rnd_quarter : (rnd (1 # 4) == 1 # 4)%Q;
  val_zero : number zero ∧ (val zero == 0)%Q;
  val_of_nat n :
    small (inject_Z (Z.of_nat n)) →
    number (of_nat n) ∧ (val (of_nat n) == inject_Z (Z.of_nat n))%Q;
  val_lit q :
    (0 <= Qnum q <= 10 ^ 15)%Z → (Z.pos (Qden q) <= 10 ^ 15)%Z →
    number (lit q) ∧ (val (lit q) == rnd q)%Q;
  val_add a b :
    number a → number b → small (val a + val b) →
    number (add a b) ∧ (val (add a b) == rnd (val a + val b))%Q;
  val_sub a b :
    number a → number b → small (val a - val b) →
    number (sub a b) ∧ (val (sub a b) == rnd (val a - val b))%Q;
  val_mul a b :
    number a → number b → small (val a * val b) →
    number (mul a b) ∧ (val (mul a b) == rnd (val a * val b))%Q;
  val_div a b :
    number a → number b → ¬ (val b == 0)%Q → small (val a / val b) →
    number (div a b) ∧ (val (div a b) == rnd (val a / val b))%Q;
  gt_zero_val a : number a → (gt_zero a = true ↔ (0 < val a)%Q)
}.

(** The exact arithmetic rounds with the identity; every rational is a
    number and is small. *)
#[global] Instance exact_rounded : Rounded Q.
Proof.
  refine {| val := λ x : Q, x; number := λ _ : Q, True; small := λ _ : Q, True;
            rnd := λ x : Q, x |}; try done.
  intros a _. cbn [gt_zero exact]. destruct (Qlt_le_dec 0 a); split; try done.
  intros Ha. lra.
Defined.

End Arithmetic.

(** ** Binary64: the numbers of Python's float, as rationals *)

Module Binary64.

(** 2^e *)
Definition pow2 (e : Z) : Q := (2 ^ e)%Q.

(** For x > 0: the integer m with 2^(m-1) <= x < 2^m. *)
Definition mag (x : Q) : Z :=
  let k := (Z.log2 (Qnum x) - Z.log2 (Z.pos (Qden x)))%Z in
  if Qle_bool (pow2 k) x then (k + 1)%Z else k.

(** Rounding to the nearest integer, ties to the even one. *)
Definition RNE (y : Q) : Z :=
  let f := Qfloor y in
  match (y - inject_Z f ?= 1 # 2)%Q with
  | Lt => f
  | Gt => (f + 1)%Z
  | Eq => if Z.even f then f else (f + 1)%Z
  end.

(** The exponent of the last place of a number of magnitude m. *)
Definition fexp (m : Z) : Z := Z.max (m - 53) (-1074).

(** Rounding of a positive rational to binary64, overflow apart. *)
Definition round_pos (x : Q) : Q :=
  let e := fexp (mag x) in (inject_Z (RNE (x / pow2 e)) * pow2 e)%Q.

Definition round (x : Q) : Q :=
  match (x ?= 0)%Q with
  | Eq => 0%Q
  | Gt => round_pos x
  | Lt => (- round_pos (- x))%Q
  end.

Definition SF2Q (f : spec_float) : Q :=
  match f with
  | S754_finite s m e =>
      if s then (- (inject_Z (Z.pos m) * pow2 e))%Q else (inject_Z (Z.pos m) * pow2 e)%Q
  | _ => 0%Q
  end.

Definition is_finite (f : spec_float) : bool :=
  match f with
  | S754_zero _ | S754_finite _ _ _ => true
  | _ => false
  end.

(** Where a number lies with respect to the mantissa of a shift record:
    at m, between m and m + 1/2, at m + 1/2, or between m + 1/2 and
    m + 1. *)
Definition located (mrs : shr_record) (y : Q) : Prop :=
  let m := inject_Z (shr_m mrs) in
  match shr_r mrs, shr_s mrs with
  | false, false => (y == m)%Q
  | false, true => (m < y)%Q ∧ (y < m + (1 # 2))%Q
  | true, false => (y == m + (1 # 2))%Q
  | true, true => (m + (1 # 2) < y)%Q ∧ (y < m + 1)%Q
  end.

Definition value (x : float) : Q := SF2Q (Prim2SF x).
Definition finite (x : float) : Prop := is_finite (Prim2SF x) = true.

End Binary64.

(** ** Weighted sentiment: sentiment_analysis.py *)

Module Analyzer.
Import Arithmetic.

Section Calculator.

Context {F : Type} `{Arith F}.

(** One row of a scored DataFrame, with the columns the analyzer adds
    ([negative], [neutral], [positive]) and the [source] tag. *)
Record ScoredRow := {
  text : string;
  source : string;
  negative : F;
  neutral : F;
  positive : F
}.

(** [Series.sum()], accumulating from the left. *)
Definition sum (l : list F) : F := fold_left add l zero.

(** [Series.mean()] of a float column without missing values. *)
Definition mean (l : list F) : F := div (sum l) (of_nat (length l)).

(** [Series.unique()]: the distinct values in order of first appearance
    (a scan that remembers the values already seen). *)
Fixpoint unique_from (seen : list string) (l : list string) : list string :=
  match l with
  | [] => []
  | x :: l' =>
      if bool_decide (x ∈ seen) then unique_from seen l'
      else x :: unique_from (x :: seen) l'
  end.

Definition unique (l : list string) : list string := unique_from [] l.

(** [df[df['source'] == source]] *)
Definition rows_of_source (s : string) (df : list ScoredRow) : list ScoredRow :=
  filter (λ r, source r = s) df.

(** [source_df['positive'].mean() - source_df['negative'].mean()] *)
Definition net_sentiment (source_df : list ScoredRow) : F :=
  sub (mean (positive <$> source_df)) (mean (negative <$> source_df)).

(** Lines 63-68: the dict [source_sentiments], in insertion order.  Its keys
    are the values of [unique], so no key is inserted twice. *)
Definition source_sentiments (df : list ScoredRow) : list (string * F) :=
  (λ s, (s, net_sentiment (rows_of_source s df))) <$> unique (source <$> df).

(** Lines 71-74: the dict [weights]. *)
Definition weights : gmap string F :=
  <["Financial News" := lit 0.7%Q]> (<["WallStreetBets" := lit 0.3%Q]> ∅).

(** [weights.get(source, 0.5)] *)
Definition weight_of (s : string) : F := default (lit 0.5%Q) (weights !! s).

(** Lines 77-83: the loop over [source_sentiments.items()], returning
    [(weighted_sum, total_weight)]. *)
Definition weighted_totals (items : list (string * F)) : F * F :=
  fold_left
    (λ acc item,
       let weight := weight_of item.1 in
       (add acc.1 (mul item.2 weight), add acc.2 weight))
    items (zero, zero).

(** Line 86, on the dict of lines 63-68. *)
Definition weighted_average (items : list (string * F)) : F :=
  let '(weighted_sum, total_weight) := weighted_totals items in
  if gt_zero total_weight then div weighted_sum total_weight else zero.

Definition calculate_weighted_sentiment (df : list ScoredRow) : F :=
  if bool_decide (df = []) then zero
  else weighted_average (source_sentiments df).

(** [groups] lists the source groups present in [df], each once, in any
    order. *)
Definition enumerates (groups : list string) (df : list ScoredRow) : Prop :=
  NoDup groups ∧ ∀ s, s ∈ groups ↔ ∃ r, r ∈ df ∧ source r = s.

Definition news (p n : F) : ScoredRow :=
  {| text := "headline"; source := "Financial News";
     negative := n; neutral := sub (sub (of_nat 1) p) n; positive := p |}.

Definition social (p n : F) : ScoredRow :=
  {| text := "post"; source := "WallStreetBets";
     negative := n; neutral := sub (sub (of_nat 1) p) n; positive := p |}.

(** pandas leaves the order in which [Series.sum()] adds a column to NumPy,
    which adds a long column in blocks and pairwise rather than from the
    left.  [adds_up l x]: [x] is the terms of [l] added, each once, in some
    order and bracketing.  In a rounding arithmetic different orders give
    different sums. *)
Inductive adds_up : list F → F → Prop :=
  | adds_up_nil : adds_up [] zero
  | adds_up_one x : adds_up [x] x
  | adds_up_app l1 l2 a b :
      adds_up l1 a → adds_up l2 b → adds_up (l1 ++ l2) (add a b)
  | adds_up_perm l l' a : l ≡ₚ l' → adds_up l a → adds_up l' a.

(** A way of summing a column. *)
Definition summation (total : list F → F) : Prop := ∀ l, adds_up l (total l).

(** Lines 59-86 with the columns summed by [total]; with [sum] for [total]
    this is [calculate_weighted_sentiment]. *)
Definition mean_with (total : list F → F) (l : list F) : F :=
  div (total l) (of_nat (length l)).

Definition net_sentiment_with (total : list F → F) (source_df : list ScoredRow) : F :=
  sub (mean_with total (positive <$> source_df)) (mean_with total (negative <$> source_df)).

Definition source_sentiments_with (total : list F → F) (df : list ScoredRow)
    : list (string * F) :=
  (λ s, (s, net_sentiment_with total (rows_of_source s df))) <$> unique (source <$> df).

Definition calculate_weighted_sentiment_with (total : list F → F) (df : list ScoredRow)
    : F :=
  if bool_decide (df = []) then zero
  else weighted_average (source_sentiments_with total df).

(** Every record has for positive and for negative value a number in
    [0,1]. *)
Definition scored `{!Rounded F} (df : list ScoredRow) : Prop :=
  ∀ r, r ∈ df →
    (number (positive r) ∧ (0 <= val (positive r))%Q ∧ (val (positive r) <= 1)%Q)
    ∧ (number (negative r) ∧ (0 <= val (negative r))%Q ∧ (val (negative r) <= 1)%Q).

End Calculator.
Arguments ScoredRow F : clear implicits.

(** *** The index as the specification words it, in exact arithmetic *)

(** The sum of a family of rationals. *)
Definition Qsum (l : list Q) : Q := foldr Qplus 0%Q l.

(** NEWS -> 0.7, SOCIAL -> 0.3, any other source 0.5. *)
Definition spec_weight (s : string) : Q :=
  if bool_decide (s = "Financial News") then (7 # 10)%Q
  else if bool_decide (s = "WallStreetBets") then (3 # 10)%Q
  else (1 # 2)%Q.

(** Overall index = Σ(net_s * weight_s) / Σ(weight_s) over the groups
    present; 0 when no group is present. *)
Definition spec_weighted_index (groups : list string) (df : list (ScoredRow Q)) : Q :=
  match groups with
  | [] => 0%Q
  | _ =>
      (Qsum ((λ s, net_sentiment (rows_of_source s df) * spec_weight s) <$> groups)
       / Qsum (spec_weight <$> groups))%Q
  end.

(** Sample collections. *)
Definition two_groups : list (ScoredRow Q) :=
  [news 0.7 0.1; social 0.1 0.3; news 0.8 0.2; social 0.2 0.4]%Q.

Definition news_only : list (ScoredRow Q) := [news 0.6 0.1; news 0.5 0.2]%Q.

(** The same in binary64: one news record with net 0.4. *)
Definition news_only_binary64 : list (ScoredRow float) :=
  [news (lit 0.4%Q) (lit 0%Q)].

(** A news record with net 0.4 and a social record with net 0.1, in exact
    arithmetic and in binary64. *)
Definition two_sources : list (ScoredRow Q) := [news 0.4 0; social 0.1 0]%Q.

Definition two_sources_binary64 : list (ScoredRow float) :=
  [news (lit 0.4%Q) (lit 0%Q); social (lit 0.1%Q) (lit 0%Q)].

End Analyzer.

(** ** The Python runtime the adapters rely on *)

Module Py.

(** The exceptions the adapters can meet. *)
Inductive exn :=
  | OverflowError      (* date arithmetic out of range *)
  | UnboundLocalError  (* a local read before its assignment *)
  | AttributeError     (* attribute of None *)
  | KeyError           (* missing dict key or column *)
  | ValueError         (* unparseable text *)
  | OSError            (* platform time conversion *)
  | RequestException   (* network failure *)
  | JSONDecodeError.   (* response body is not JSON *)

Inductive outcome (A : Type) :=
  | Returns (a : A)
  | Raises (e : exn).
Arguments Returns {A} a.
Arguments Raises {A} e.

#[global] Instance outcome_ret : MRet outcome := λ A a, Returns a.

(** Sequencing: the first exception ends the computation. *)
#[global] Instance outcome_bind : MBind outcome := λ A B k m,
  match m with
  | Returns a => k a
  | Raises e => Raises e
  end.

(** [try: body except Exception as e: handler] *)
Definition catch {A} (body : outcome A) (handler : exn → outcome A) : outcome A :=
  match body with
  | Returns a => Returns a
  | Raises e => handler e
  end.

(** *** datetime and timedelta

    A naive [datetime] is its number of microseconds since
    0001-01-01T00:00:00; [datetime.min] is 0 and [datetime.max] is
    9999-12-31T23:59:59.999999.  A [timedelta] is a number of
    microseconds. *)
Definition datetime := Z.
Definition timedelta := Z.

Definition us_per_day : Z := 86400000000.
Definition datetime_max : Z := 3652059 * us_per_day - 1.
Definition timedelta_max_days : Z := 999999999.

(** [timedelta(days=days)]: raises when |days| > 999999999. *)
Definition timedelta_days (days : Z) : outcome timedelta :=
  if bool_decide (Z.abs days ≤ timedelta_max_days)%Z
  then Returns (days * us_per_day)%Z
  else Raises OverflowError.

(** [d - delta]: raises "date value out of range" outside years 1..9999. *)
Definition datetime_sub (d : datetime) (delta : timedelta) : outcome datetime :=
  let r := (d - delta)%Z in
  if bool_decide (0 ≤ r ≤ datetime_max)%Z then Returns r else Raises OverflowError.

(** The date range [now - timedelta(days=days)] can be computed. *)
Definition representable (now : datetime) (days : Z) : Prop :=
  (Z.abs days ≤ timedelta_max_days)%Z ∧ (0 ≤ now - days * us_per_day ≤ datetime_max)%Z.

(** 1970-01-01T00:00:00 on that axis. *)
Definition epoch : Z := 719162 * us_per_day.

(** [datetime.fromtimestamp(ts)] for a whole number of seconds, the local
    zone being UTC; raises when the result is not a representable date. *)
Definition fromtimestamp (ts : Z) : outcome datetime :=
  let r := (epoch + ts * 1000000)%Z in
  if bool_decide (0 ≤ r ≤ datetime_max)%Z then Returns r else Raises OSError.

(** [d.strftime('%Y-%m-%d')], as the index of the day. *)
Definition date_of (d : datetime) : Z := (d / us_per_day)%Z.

(** A timestamp as text in a provider's response: either it denotes an
    instant in the format the code parses, or parsing it raises. *)
Inductive time_text :=
  | Instant (t : datetime)
  | Unparseable (s : string).

Definition parse_time (t : time_text) : outcome datetime :=
  match t with
  | Instant d => Returns d
  | Unparseable _ => Raises ValueError
  end.

(** *** Strings *)

(** [c.upper()] on an ASCII character. *)
Definition upper_ascii (c : ascii) : ascii :=
  let n := N_of_ascii c in
  if ((97 <=? n) && (n <=? 122))%N then ascii_of_N (n - 32) else c.

(** [s.upper()] *)
Fixpoint upper (s : string) : string :=
  match s with
  | EmptyString => EmptyString
  | String c s' => String (upper_ascii c) (upper s')
  end.

(** [hay.startswith(needle)] *)
Fixpoint startswith (needle hay : string) : bool :=
  match needle, hay with
  | EmptyString, _ => true
  | String a n', String b h' => bool_decide (a = b) && startswith n' h'
  | String _ _, EmptyString => false
  end.

(** [needle in hay] *)
Fixpoint contains (needle hay : string) : bool :=
  startswith needle hay ||
  match hay with
  | EmptyString => false
  | String _ hay' => contains needle hay'
  end.

(** [needle] occurs in [hay] as a contiguous substring. *)
Definition occurs (needle hay : string) : Prop :=
  ∃ pre post : string, hay = (pre ++ needle ++ post)%string.

(** [needle] occurs in [hay] when letter case is ignored. *)
Definition occurs_ci (needle hay : string) : Prop :=
  occurs (upper needle) (upper hay).

(** [str(x)] of an optional string inside an f-string: [None] prints as
    the text None. *)
Definition fmt (x : option string) : string := default "None" x.

End Py.

(** ** The social adapter: fetch_wsb_sentiment.py *)

Module WSB.
Import Py.

(** A submission as the Reddit client yields it.  [title] and [selftext]
    may be [None]. *)
Module Submission.
Record t := {
  created_utc : Z;
  title : option string;
  selftext : option string;
  score : Z;
  num_comments : Z;
  permalink : string
}.
End Submission.

(** A lazily fetched listing: the submissions it yields, then either the
    end of the iteration or an exception. *)
Record Listing := {
  yields : list Submission.t;
  fault : option exn
}.

(** [subreddit.search(query, time_filter=..., limit=...)], [.hot(limit=...)],
    [.new(limit=...)], [.top(time_filter, limit=...)]. *)
Record Subreddit := {
  search : string → string → Z → Listing;
  hot : Z → Listing;
  new : Z → Listing;
  top : string → Z → Listing
}.

Record Reddit := {
  subreddit : string → outcome Subreddit
}.

(** [self.reddit] is [None] when the client could not be initialised. *)
Record WSBSentimentFetcher := {
  reddit : option Reddit
}.

(** The dict appended to [posts]. *)
Module Row.
Record t := {
  text : string;
  timestamp : datetime;
  score : Z;
  num_comments : Z;
  url : string;
  source : string;
  ticker : string
}.
End Row.

(** Lines 70-87 (and 127-144): the body of the inner [try].  [Returns None]
    when the post is not appended. *)
Definition process_post (ticker : string) (start_date end_date : datetime)
    (post : Submission.t) : outcome (option Row.t) :=
  post_date ← fromtimestamp (Submission.created_utc post);
  if bool_decide (start_date ≤ post_date ≤ end_date)%Z then
    title ← match Submission.title post with
             | Some t => Returns (upper t)
             | None => Raises AttributeError
             end;
    let selftext :=
      match Submission.selftext post with
      | Some s => if bool_decide (s = "") then "" else upper s
      | None => ""
      end in
    if contains (upper ticker) title || contains (upper ticker) selftext then
      Returns (Some {|
        Row.text := fmt (Submission.title post) ++ " " ++ fmt (Submission.selftext post);
        Row.timestamp := post_date;
        Row.score := Submission.score post;
        Row.num_comments := Submission.num_comments post;
        Row.url := "https://www.reddit.com" ++ Submission.permalink post;
        Row.source := "WallStreetBets";
        Row.ticker := ticker |})
    else Returns None
  else Returns None.

(** [for post in listing: try: ... except Exception: continue], appending
    to [posts]. *)
Definition scan (ticker : string) (start_date end_date : datetime)
    (listing : list Submission.t) (posts : list Row.t) : list Row.t :=
  fold_left
    (λ posts post,
       match process_post ticker start_date end_date post with
       | Returns (Some row) => posts ++ [row]
       | Returns None => posts
       | Raises _ => posts
       end)
    listing posts.

(** Lines 63-98: the loop over the time filters.  An exception while a
    search is iterated leaves the posts appended so far and moves on to the
    next filter; otherwise the loop stops once 50 posts are held. *)
Fixpoint search_loop (sub : Subreddit) (ticker : string)
    (start_date end_date : datetime) (time_filters : list string)
    (posts : list Row.t) : list Row.t :=
  match time_filters with
  | [] => posts
  | time_filter :: rest =>
      let search_results := search sub ticker time_filter 100 in
      let posts := scan ticker start_date end_date (yields search_results) posts in
      match fault search_results with
      | Some _ => search_loop sub ticker start_date end_date rest posts
      | None =>
          if bool_decide (50 ≤ length posts)%nat
          then posts
          else search_loop sub ticker start_date end_date rest posts
      end
  end.

(** The submissions the loop of lines 63-98 iterates over, in order: all
    that a search yields (before its exception, if it raises one), then
    those of the next filter unless the loop has stopped. *)
Fixpoint consulted (sub : Subreddit) (ticker : string)
    (start_date end_date : datetime) (time_filters : list string)
    (posts : list Row.t) : list Submission.t :=
  match time_filters with
  | [] => []
  | time_filter :: rest =>
      let search_results := search sub ticker time_filter 100 in
      let posts := scan ticker start_date end_date (yields search_results) posts in
      yields search_results ++
      match fault search_results with
      | Some _ => consulted sub ticker start_date end_date rest posts
      | None =>
          if bool_decide (50 ≤ length posts)%nat
          then []
          else consulted sub ticker start_date end_date rest posts
      end
  end.

(** [_fetch_from_listings]: appends to the list it is given. *)
Definition fetch_from_listings (sub : Subreddit) (ticker : string)
    (start_date end_date : datetime) (posts : list Row.t) : list Row.t :=
  let listings :=
    [("hot", hot sub 100); ("new", new sub 100); ("top", top sub "week" 100)] in
  fold_left
    (λ posts (l : string * Listing), scan ticker start_date end_date (yields l.2) posts)
    listings posts.

Definition time_filters : list string := ["day"; "week"; "month"].

(** [fetch_wsb_posts(ticker, days)], run at clock time [now]. *)
Definition fetch_wsb_posts (self : WSBSentimentFetcher) (now : datetime)
    (ticker : string) (days : Z) : outcome (list Row.t) :=
  match reddit self with
  | None => Returns []
  | Some client =>
      catch
        (let end_date := now in
         delta ← timedelta_days days;
         start_date ← datetime_sub end_date delta;
         match subreddit client "wallstreetbets" with
         | Raises _ => Returns []
         | Returns sub =>
             let posts := search_loop sub ticker start_date end_date time_filters [] in
             let posts :=
               match posts with
               | [] => fetch_from_listings sub ticker start_date end_date posts
               | _ :: _ => posts
               end in
             Returns posts
         end)
        (λ _, Returns [])
  end.

(** What the three searches yield for [ticker], and what the three
    listings yield. *)
Definition searched (sub : Subreddit) (ticker : string) : list Submission.t :=
  yields (search sub ticker "day" 100) ++ yields (search sub ticker "week" 100) ++
  yields (search sub ticker "month" 100).

Definition listed (sub : Subreddit) : list Submission.t :=
  yields (hot sub 100) ++ yields (new sub 100) ++ yields (top sub "week" 100).

(** The [url] of the row made from a submission. *)
Definition url_of (post : Submission.t) : string :=
  "https://www.reddit.com" ++ Submission.permalink post.

(** The row a submission contributes, if any. *)
Definition kept (ticker : string) (start_date end_date : datetime)
    (post : Submission.t) : option Row.t :=
  match process_post ticker start_date end_date post with
  | Returns (Some row) => Some row
  | _ => None
  end.

End WSB.

(** ** The news adapter: fetch_institutional_sentiment.py *)

Module Institutional.
Import Py.

Record InstitutionalSentimentFetcher := {
  alpha_vantage_key : option string;
  news_api_key : option string
}.

(** What [requests.get] returns: [response.json()] may raise. *)
Record Response (J : Type) := {
  status_code : Z;
  json : outcome J
}.
Arguments status_code {J} _.
Arguments json {J} _.

(** A value found under a key of a parsed JSON object: null (Python's
    [None]), a string, or any other value, kept with what [str] makes of
    it. *)
Inductive jvalue :=
  | JNull
  | JString (s : string)
  | JOther (shown : string).

(** [d.get(key, default)] with a string default; [None] is a missing key. *)
Definition dict_get (field : option jvalue) (default : string) : jvalue :=
  match field with
  | None => JString default
  | Some v => v
  end.

(** How an f-string prints a value. *)
Definition str (v : jvalue) : string :=
  match v with
  | JNull => "None"
  | JString s => s
  | JOther shown => shown
  end.

(** An entry of the Alpha Vantage feed.  [time_published] is [None] when
    the key is missing or holds null: line 75 raises on both. *)
Module FeedItem.
Record t := {
  time_published : option time_text;
  title : option jvalue;
  summary : option jvalue;
  source : option jvalue;
  url : option jvalue
}.
End FeedItem.

(** The parsed Alpha Vantage body; [feed = None] when the key is absent. *)
Record AlphaData := { feed : option (list FeedItem.t) }.

(** What an article holds under 'source': null, an object (with what it
    holds under 'name'), or a value of another kind, which has no [get]. *)
Inductive jsource :=
  | SourceNull
  | SourceObject (name : option jvalue)
  | SourceOther.

(** An entry of the News API [articles]; [None] is a missing key.
    [publishedAt] is [None] also when the key holds null: [pd.to_datetime]
    makes an empty timestamp of both. *)
Module Article.
Record t := {
  title : option jvalue;
  description : option jvalue;
  publishedAt : option time_text;
  source : option jsource;
  url : option jvalue
}.
End Article.

Record NewsData := { articles : option (list Article.t) }.

(** The query parameters sent to the News API; the dates are days. *)
Record Params := {
  q : string;
  from : Z;
  to : Z;
  language : string;
  sortBy : string;
  apiKey : string;
  pageSize : Z
}.

(** The dict appended to [articles] / [news_data].  [timestamp] is [None]
    for a missing [publishedAt]. *)
Module Row.
Record t := {
  text : string;
  timestamp : option datetime;
  source : string;
  publisher : jvalue;
  url : jvalue
}.
End Row.

(** [if not key or key == placeholder] *)
Definition key_missing (key : option string) (placeholder : string) : bool :=
  match key with
  | None => true
  | Some k => bool_decide (k = "") || bool_decide (k = placeholder)
  end.

(** Lines 72-89: one round of the loop over [data["feed"]]. *)
Definition process_item (start_date end_date : datetime) (item : FeedItem.t)
    : outcome (option Row.t) :=
  raw ← match FeedItem.time_published item with
         | Some t => Returns t
         | None => Raises KeyError
         end;
  timestamp ← parse_time raw;
  if bool_decide (start_date ≤ timestamp ≤ end_date)%Z then
    Returns (Some {|
      Row.text := str (dict_get (FeedItem.title item) "") ++ " "
                  ++ str (dict_get (FeedItem.summary item) "");
      Row.timestamp := Some timestamp;
      Row.source := "Financial News";
      Row.publisher := dict_get (FeedItem.source item) "Unknown";
      Row.url := dict_get (FeedItem.url item) "" |})
  else Returns None.

Definition process_feed (start_date end_date : datetime) (items : list FeedItem.t)
    : list Row.t :=
  fold_left
    (λ articles item,
       match process_item start_date end_date item with
       | Returns (Some row) => articles ++ [row]
       | Returns None => articles
       | Raises _ => articles
       end)
    items [].

(** The URL of line 48. *)
Definition alpha_vantage_url (self : InstitutionalSentimentFetcher) (ticker : string)
    : string :=
  "https://www.alphavantage.co/query?function=NEWS_SENTIMENT&tickers=" ++ ticker
  ++ "&apikey=" ++ default "" (alpha_vantage_key self).

(** Lines 51-92: the body of the [try] of [fetch_alpha_vantage_news].
    Line 54 formats [data.keys()] when the status is 200, and [data] is
    assigned only at line 63. *)
Definition alpha_vantage_try (self : InstitutionalSentimentFetcher)
    (get : string → outcome (Response AlphaData))
    (ticker : string) (start_date end_date : datetime) : outcome (list Row.t) :=
  response ← get (alpha_vantage_url self ticker);
  _ ← (if bool_decide (status_code response = 200%Z)
       then Raises UnboundLocalError
       else Returns "No data");
  if bool_decide (status_code response ≠ 200%Z) then Returns []
  else
    data ← json response;
    match feed data with
    | None => Returns []
    | Some items => Returns (process_feed start_date end_date items)
    end.

(** [fetch_alpha_vantage_news(ticker, days)], run at clock time [now]
    against the service [get] (from URL to response).  The date range is
    computed before the [try]. *)
Definition fetch_alpha_vantage_news (self : InstitutionalSentimentFetcher)
    (now : datetime) (get : string → outcome (Response AlphaData))
    (ticker : string) (days : Z) : outcome (list Row.t) :=
  if key_missing (alpha_vantage_key self) "" then Returns []
  else
    let end_date := now in
    delta ← timedelta_days days;
    start_date ← datetime_sub end_date delta;
    catch (alpha_vantage_try self get ticker start_date end_date) (λ _, Returns []).

(** [get_company_name] *)
Definition companies : gmap string string :=
  list_to_map
    [("AAPL", "Apple"); ("NVDA", "NVIDIA"); ("MSFT", "Microsoft"); ("TSLA", "Tesla");
     ("AMZN", "Amazon"); ("GOOGL", "Google"); ("META", "Meta"); ("NFLX", "Netflix")].

Definition get_company_name (ticker : string) : string :=
  default ticker (companies !! ticker).

(** Line 147: [a.get('source', {}).get('name', 'Unknown')].  A missing
    'source' reads as the empty dict; null and values of another kind have
    no [get]. *)
Definition publisher_of (a : Article.t) : outcome jvalue :=
  match Article.source a with
  | None => Returns (JString "Unknown")
  | Some (SourceObject name) => Returns (dict_get name "Unknown")
  | Some SourceNull | Some SourceOther => Raises AttributeError
  end.

(** Lines 143-149: one element of the list comprehension; the values of the
    dict are evaluated in the order they are written. *)
Definition row_of_article (a : Article.t) : outcome Row.t :=
  let text := (str (dict_get (Article.title a) "") ++ " "
               ++ str (dict_get (Article.description a) ""))%string in
  timestamp ← match Article.publishedAt a with
               | None => Returns None
               | Some raw => t ← parse_time raw; Returns (Some t)
               end;
  publisher ← publisher_of a;
  Returns {|
    Row.text := text;
    Row.timestamp := timestamp;
    Row.source := "Financial News";
    Row.publisher := publisher;
    Row.url := dict_get (Article.url a) "" |}.

(** Lines 113-121: the query parameters. *)
Definition news_params (self : InstitutionalSentimentFetcher) (ticker : string)
    (start_date end_date : datetime) : Params := {|
  q := ticker ++ " OR " ++ get_company_name ticker;
  from := date_of start_date;
  to := date_of end_date;
  language := "en";
  sortBy := "publishedAt";
  apiKey := default "" (news_api_key self);
  pageSize := 100 |}.

(** Lines 124-151: the body of the [try] of [fetch_news_api]. *)
Definition news_api_try (get : Params → outcome (Response NewsData))
    (params : Params) : outcome (list Row.t) :=
  response ← get params;
  if bool_decide (status_code response ≠ 200%Z) then Returns []
  else
    data ← json response;
    let articles := default [] (articles data) in
    match articles with
    | [] => Returns []
    | _ :: _ => mapM row_of_article articles
    end.

(** [fetch_news_api(ticker, days)], run at clock time [now] against the
    service [get] (from query parameters to response).  The date range and
    the parameters are computed before the [try]. *)
Definition fetch_news_api (self : InstitutionalSentimentFetcher)
    (now : datetime) (get : Params → outcome (Response NewsData))
    (ticker : string) (days : Z) : outcome (list Row.t) :=
  if key_missing (news_api_key self) "your_news_api_key" then Returns []
  else
    let end_date := now in
    delta ← timedelta_days days;
    start_date ← datetime_sub end_date delta;
    let params := news_params self ticker start_date end_date in
    catch (news_api_try get params) (λ _, Returns []).

(** A news row after [combined_df['ticker'] = ticker] and after
    [analyze_dataframe] has added the three score columns. *)
Module Scored.
Record t := {
  row : Row.t;
  ticker : string;
  negative : Q;
  neutral : Q;
  positive : Q
}.
End Scored.

Section Sentiment.

(** [SentimentAnalyzer.analyze_text]: the classifier, a black box that
    returns the scores (negative, neutral, positive) or raises. *)
Variable analyze_text : string → outcome (Q * Q * Q).

(** [SentimentAnalyzer.analyze_dataframe] on the rows tagged with the
    ticker: one classifier call per row, in order. *)
Definition analyze_dataframe (df : list (Row.t * string)) : outcome (list Scored.t) :=
  mapM
    (λ r : Row.t * string,
       scores ← analyze_text (Row.text r.1);
       Returns {|
         Scored.row := r.1;
         Scored.ticker := r.2;
         Scored.negative := scores.1.1;
         Scored.neutral := scores.1.2;
         Scored.positive := scores.2 |})
    df.

(** [get_institutional_sentiment(ticker, days)]; [now_av] and [now_na] are
    the clock readings of the two fetches. *)
Definition get_institutional_sentiment (self : InstitutionalSentimentFetcher)
    (now_av now_na : datetime)
    (get_av : string → outcome (Response AlphaData))
    (get_na : Params → outcome (Response NewsData))
    (ticker : string) (days : Z) : outcome (list Scored.t) :=
  alpha_vantage_df ← fetch_alpha_vantage_news self now_av get_av ticker days;
  news_api_df ←
    match alpha_vantage_df with
    | [] => fetch_news_api self now_na get_na ticker days
    | _ :: _ => Returns []
    end;
  let dfs :=
    match alpha_vantage_df with [] => [] | _ :: _ => [alpha_vantage_df] end ++
    match news_api_df with [] => [] | _ :: _ => [news_api_df] end in
  match dfs with
  | [] => Returns []
  | _ :: _ =>
      let combined_df := concat dfs in
      let combined_df := (λ r, (r, ticker)) <$> combined_df in
      analyze_dataframe combined_df
  end.

End Sentiment.

End Institutional.

(** ** The aggregation step: main.py, fetch_all_sentiment_data *)

Module Aggregator.
Import Py.

Section Frames.

(** The values held in the cells; the combination step never looks inside
    them. *)
Context {cell : Type}.

(** A frame with named columns.  A row maps a column name to its cell; a
    name without a cell is a missing value. *)
Record DataFrame := {
  columns : list string;
  rows : list (gmap string cell)
}.

(** [pd.DataFrame()] *)
Definition new_frame : DataFrame := {| columns := []; rows := [] |}.

(** [df.empty]: no column or no row. *)
Definition empty (df : DataFrame) : bool :=
  match columns df, rows df with
  | _ :: _, _ :: _ => false
  | _, _ => true
  end.

(** [len(df)] *)
Definition len (df : DataFrame) : nat := length (rows df).

(** [df[cols]] for a list of names: [KeyError] when a name is no column. *)
Definition select (df : DataFrame) (cols : list string) : outcome DataFrame :=
  if bool_decide (Forall (λ c, c ∈ columns df) cols) then
    Returns {|
      columns := cols;
      rows := (λ r, filter (λ kv : string * cell, kv.1 ∈ cols) r) <$> rows df |}
  else Raises KeyError.

(** [pd.concat([a, b], ignore_index=True)]: the rows of [a] then those of
    [b], under the columns of [a] followed by the further columns of [b]. *)
Definition pd_concat (a b : DataFrame) : DataFrame := {|
  columns := columns a ++ filter (λ c, c ∉ columns a) (columns b);
  rows := rows a ++ rows b |}.

(** Line 54: [list(set(wsb_df.columns) & set(institutional_df.columns))].
    The order of the list is unspecified in Python; here it is the order of
    [elements]. *)
Definition common_cols (wsb_df institutional_df : DataFrame) : list string :=
  elements (list_to_set (columns wsb_df) ∩ list_to_set (columns institutional_df)
            : gset string).

(** Lines 49-66 of [fetch_all_sentiment_data].  Line 64 reads
    [combined_df['source']] when the result is not empty. *)
Definition combine (wsb_df institutional_df : DataFrame) : outcome DataFrame :=
  combined_df ←
    (if negb (empty wsb_df) && negb (empty institutional_df) then
       let common_cols := common_cols wsb_df institutional_df in
       wsb_df ← select wsb_df common_cols;
       institutional_df ← select institutional_df common_cols;
       Returns (pd_concat wsb_df institutional_df)
     else if negb (empty wsb_df) then Returns wsb_df
     else if negb (empty institutional_df) then Returns institutional_df
     else Returns new_frame);
  _ ← (if negb (empty combined_df) && negb (bool_decide ("source" ∈ columns combined_df))
       then Raises KeyError
       else Returns ());
  Returns combined_df.

End Frames.
Arguments DataFrame cell : clear implicits.

End Aggregator.

(** ** Sample runs *)

Module Scenarios.
Import Py.

(** The clock reads 2025-11-05T12:00:00. *)
Definition now0 : datetime := (epoch + (1762300800 + 43200) * 1000000)%Z.

(** A lookback that reaches before year 1 from any date. *)
Definition too_long : Z := 4000000.

Module Social.
Import WSB.

Definition aapl_post : Submission.t := {|
  Submission.created_utc := 1762250000;
  Submission.title := Some "AAPL earnings beat";
  Submission.selftext := Some "calls are printing";
  Submission.score := 1520;
  Submission.num_comments := 340;
  Submission.permalink := "/r/wallstreetbets/comments/1abc/aapl_earnings_beat/" |}.

Definition older_post : Submission.t := {|
  Submission.created_utc := 1762000000;
  Submission.title := Some "Loaded up on shares";
  Submission.selftext := Some "all in on aapl before the call";
  Submission.score := 87;
  Submission.num_comments := 12;
  Submission.permalink := "/r/wallstreetbets/comments/1aaa/loaded_up_on_shares/" |}.

Definition page (l : list Submission.t) : Listing := {| yields := l; fault := None |}.

(** A post of the last day is found by the day, the week and the month
    search alike. *)
Definition overlapping : Subreddit := {|
  search := λ _ _ _, page [aapl_post];
  hot := λ _, page [];
  new := λ _, page [];
  top := λ _ _, page [] |}.

(** Searches that do not overlap. *)
Definition disjoint : Subreddit := {|
  search := λ _ time_filter _,
    if bool_decide (time_filter = "day") then page [aapl_post]
    else if bool_decide (time_filter = "week") then page [older_post]
    else page [];
  hot := λ _, page [aapl_post];
  new := λ _, page [];
  top := λ _ _, page [] |}.

Definition fetcher (sub : Subreddit) : WSBSentimentFetcher :=
  {| reddit := Some {| subreddit := λ _, Returns sub |} |}.

Definition aapl_row : Row.t := {|
  Row.text := "AAPL earnings beat calls are printing";
  Row.timestamp := (epoch + 1762250000 * 1000000)%Z;
  Row.score := 1520;
  Row.num_comments := 340;
  Row.url := "https://www.reddit.com/r/wallstreetbets/comments/1abc/aapl_earnings_beat/";
  Row.source := "WallStreetBets";
  Row.ticker := "AAPL" |}.

Definition older_row : Row.t := {|
  Row.text := "Loaded up on shares all in on aapl before the call";
  Row.timestamp := (epoch + 1762000000 * 1000000)%Z;
  Row.score := 87;
  Row.num_comments := 12;
  Row.url := "https://www.reddit.com/r/wallstreetbets/comments/1aaa/loaded_up_on_shares/";
  Row.source := "WallStreetBets";
  Row.ticker := "AAPL" |}.

End Social.

Module News.
Import Institutional.

Definition keyed : InstitutionalSentimentFetcher :=
  {| alpha_vantage_key := Some "demo"; news_api_key := Some "demo" |}.

Definition no_keys : InstitutionalSentimentFetcher :=
  {| alpha_vantage_key := None; news_api_key := None |}.

(** Published 2025-10-29T03:00:00: on the first day of a seven-day window
    that opens at 12:00, hence before the window; about the company, without
    the ticker symbol. *)
Definition apple_published : datetime :=
  (epoch + (1762300800 - 7 * 86400 + 10800) * 1000000)%Z.

Definition apple_article : Article.t := {|
  Article.title := Some (JString "Apple unveils new iPhone");
  Article.description := Some (JString "Cupertino event draws crowds");
  Article.publishedAt := Some (Instant apple_published);
  Article.source := Some (SourceObject (Some (JString "Reuters")));
  Article.url := Some (JString "https://example.com/apple-event") |}.

Definition apple_row : Row.t := {|
  Row.text := "Apple unveils new iPhone Cupertino event draws crowds";
  Row.timestamp := Some apple_published;
  Row.source := "Financial News";
  Row.publisher := JString "Reuters";
  Row.url := JString "https://example.com/apple-event" |}.

Definition news_service : Params → outcome (Response NewsData) :=
  λ _, Returns {| status_code := 200;
                  json := Returns {| articles := Some [apple_article] |} |}.

Definition feed_item : FeedItem.t := {|
  FeedItem.time_published := Some (Instant (now0 - us_per_day)%Z);
  FeedItem.title := Some (JString "AAPL rallies");
  FeedItem.summary := Some (JString "Shares of AAPL rose");
  FeedItem.source := Some (JString "Benzinga");
  FeedItem.url := Some (JString "https://example.com/aapl-rallies") |}.

(** A well-formed Alpha Vantage answer. *)
Definition alpha_service : string → outcome (Response AlphaData) :=
  λ _, Returns {| status_code := 200;
                  json := Returns {| feed := Some [feed_item] |} |}.

End News.

Module Frames.
Import Aggregator.

Inductive value :=
  | VStr (s : string)
  | VNum (q : Q)
  | VTime (t : datetime).

Definition wsb_frame : DataFrame value := {|
  columns := ["text"; "score"; "source"; "positive"];
  rows := [ {[ "text" := VStr "AAPL earnings beat"; "score" := VNum 1520;
               "source" := VStr "WallStreetBets"; "positive" := VNum 0.8 ]} ] |}.

Definition news_frame : DataFrame value := {|
  columns := ["text"; "publisher"; "source"; "positive"];
  rows := [ {[ "text" := VStr "Apple unveils new iPhone"; "publisher" := VStr "Reuters";
               "source" := VStr "Financial News"; "positive" := VNum 0.6 ]};
            {[ "text" := VStr "AAPL rallies"; "publisher" := VStr "Benzinga";
               "source" := VStr "Financial News"; "positive" := VNum 0.7 ]} ] |}.

End Frames.

End Scenarios.

(** ** The dominant label: sentiment_analysis.py, get_combined_sentiment *)

Module Dominant.
Import Py.

(** [max(items, key=lambda x: x[1])] after its first item: the running
    maximum is replaced only by an item whose key is strictly greater. *)
Definition max_item (first : string * Q) (rest : list (string * Q)) : string * Q :=
  fold_left
    (λ best item : string * Q, if Qlt_le_dec best.2 item.2 then item else best)
    rest first.

(** [get_combined_sentiment(scores)].  The dict is the list of its items
    in insertion order; the scores are finite numbers, compared as the
    rationals they denote.  [max] of no item raises [ValueError]. *)
Definition get_combined_sentiment (scores : list (string * Q)) : outcome string :=
  match scores with
  | [] => Raises ValueError
  | item :: items => Returns (max_item item items).1
  end.

End Dominant.

(** ** Scoring and tagging the two frames: main.py, fetch_all_sentiment_data *)

Module Pipeline.
Import Py Aggregator.

Section Tagging.

Context {cell : Type}.

(** A text cell and a number cell. *)
Variable str : string → cell.
Variable num : Q → cell.

(** [SentimentAnalyzer.analyze_text] applied to what the 'text' column
    holds in a row ([None]: a missing value): the scores (negative,
    neutral, positive), or an exception. *)
Variable analyze_text : option cell → outcome (Q * Q * Q).

(** The columns of [pd.DataFrame(results)]. *)
Definition score_columns (results : list (Q * Q * Q)) : list string :=
  match results with
  | [] => []
  | _ :: _ => ["negative"; "neutral"; "positive"]
  end.

Definition with_scores (r : gmap string cell) (scores : Q * Q * Q) : gmap string cell :=
  <["positive" := num scores.2]>
    (<["neutral" := num scores.1.2]> (<["negative" := num scores.1.1]> r)).

(** [SentimentAnalyzer.analyze_dataframe(df)] on a frame with the default
    index and without score columns: [df['text']] raises [KeyError] when
    there is no such column; the classifier runs on the rows in order; the
    score columns are put after the columns of [df]. *)
Definition analyze_frame (df : DataFrame cell) : outcome (DataFrame cell) :=
  if bool_decide ("text" ∈ columns df) then
    results ← mapM (λ r : gmap string cell, analyze_text (r !! "text")) (rows df);
    Returns {|
      columns := columns df ++ score_columns results;
      rows := zip_with with_scores (rows df) results |}
  else Raises KeyError.

(** [df[name] = value] for a scalar: every row gets the value; a new
    column goes last. *)
Definition set_column (df : DataFrame cell) (name : string) (value : cell)
    : DataFrame cell := {|
  columns := if bool_decide (name ∈ columns df) then columns df else columns df ++ [name];
  rows := (λ r, <[name := value]> r) <$> rows df |}.

(** Lines 31-37.  [pd.DataFrame(df.to_dict('records'))] rebuilds the frame
    with the same columns and cells. *)
Definition tag_wsb (wsb_df : DataFrame cell) : outcome (DataFrame cell) :=
  if negb (empty wsb_df) then
    wsb_df ← (if bool_decide ("positive" ∉ columns wsb_df)
              then analyze_frame wsb_df else Returns wsb_df);
    Returns (set_column wsb_df "source" (str "WallStreetBets"))
  else Returns wsb_df.

(** Lines 39-47. *)
Definition tag_institutional (institutional_df : DataFrame cell)
    : outcome (DataFrame cell) :=
  if negb (empty institutional_df) then
    institutional_df ← (if bool_decide ("positive" ∉ columns institutional_df)
                        then analyze_frame institutional_df
                        else Returns institutional_df);
    Returns (if bool_decide ("source" ∉ columns institutional_df)
             then set_column institutional_df "source" (str "Financial News")
             else institutional_df)
  else Returns institutional_df.

(** Lines 30-66 of [fetch_all_sentiment_data], from the two frames the
    fetchers returned. *)
Definition fetch_all_sentiment_data (wsb_df institutional_df : DataFrame cell)
    : outcome (DataFrame cell) :=
  wsb_df ← tag_wsb wsb_df;
  institutional_df ← tag_institutional institutional_df;
  combine wsb_df institutional_df.

(** A frame the tagging can score: it has the 'positive' column already,
    or it has a 'text' column and no score column. *)
Definition scorable (df : DataFrame cell) : Prop :=
  "positive" ∈ columns df ∨
  ("text" ∈ columns df ∧ ("negative" ∉ columns df) ∧ ("neutral" ∉ columns df)).

(** The rows a frame contributes: none when it counts as empty. *)
Definition contributed (df : DataFrame cell) : list (gmap string cell) :=
  if empty df then [] else rows df.

End Tagging.

End Pipeline.

(** ** Remembering the parameters: main.py, main *)

Module Session.

(** What [st.session_state] holds under the two keys. *)
Inductive value :=
  | Str (s : string)
  | Int (n : Z).

#[global] Instance value_eq_dec : EqDecision value.
Proof. solve_decision. Defined.

Section Cache.

(** The entries of [st.cache_data]. *)
Context {entry : Type}.

Record State := {
  session_state : gmap string value;
  cache_data : list entry
}.

Definition store (ticker : string) (days : Z) (ss : gmap string value)
    : gmap string value :=
  <["last_days" := Int days]> (<["last_ticker" := Str ticker]> ss).

(** Lines 77-84 of [main]; [st.cache_data.clear()] drops every entry. *)
Definition main_parameters (ticker : string) (days : Z) (st : State) : State :=
  let ss := session_state st in
  if bool_decide (ss !! "last_ticker" = None ∨ ss !! "last_days" = None) then
    {| session_state := store ticker days ss; cache_data := cache_data st |}
  else if bool_decide (ss !! "last_ticker" ≠ Some (Str ticker)
                       ∨ ss !! "last_days" ≠ Some (Int days)) then
    {| session_state := store ticker days ss; cache_data := [] |}
  else st.

End Cache.
Arguments State entry : clear implicits.

End Session.

(** ** Further sample runs *)

Module MoreScenarios.
Import Py Scenarios.

Module Social.
Import WSB.

(** A submission whose title is [None]. *)
Definition untitled_post : Submission.t := {|
  Submission.created_utc := 1762250000;
  Submission.title := None;
  Submission.selftext := Some "AAPL to the moon";
  Submission.score := 3;
  Submission.num_comments := 0;
  Submission.permalink := "/r/wallstreetbets/comments/1abd/untitled/" |}.

(** A submission that does not name the ticker. *)
Definition offtopic_post : Submission.t := {|
  Submission.created_utc := 1762250000;
  Submission.title := Some "Daily discussion thread";
  Submission.selftext := Some "What are your moves tomorrow";
  Submission.score := 40;
  Submission.num_comments := 900;
  Submission.permalink := "/r/wallstreetbets/comments/1abe/daily_discussion/" |}.

(** Every search yields the same fifty matching submissions. *)
Definition busy : Subreddit := {|
  search := λ _ _ _, Social.page (replicate 50 Social.aapl_post);
  hot := λ _, Social.page [];
  new := λ _, Social.page [];
  top := λ _ _, Social.page [] |}.

(** The connection drops while the 'day' search is read, after one
    matching submission, and stays down. *)
Definition dropping : Subreddit := {|
  search := λ _ time_filter _,
    {| yields := if bool_decide (time_filter = "day") then [Social.aapl_post] else [];
       fault := Some RequestException |};
  hot := λ _, {| yields := []; fault := Some RequestException |};
  new := λ _, {| yields := []; fault := Some RequestException |};
  top := λ _ _, {| yields := []; fault := Some RequestException |} |}.

(** The searches find nothing that names the ticker; the hot listing
    does, and the new listing breaks after an untitled submission. *)
Definition quiet : Subreddit := {|
  search := λ _ _ _, Social.page [offtopic_post];
  hot := λ _, Social.page [offtopic_post; Social.aapl_post];
  new := λ _, {| yields := [untitled_post]; fault := Some RequestException |};
  top := λ _ _, Social.page [Social.older_post] |}.

End Social.

Module News.
Import Institutional.

(** An article whose [publishedAt] is not a timestamp, and that lacks the
    other optional keys. *)
Definition garbled_article : Article.t := {|
  Article.title := Some (JString "AAPL guidance raised");
  Article.description := None;
  Article.publishedAt := Some (Unparseable "yesterday");
  Article.source := None;
  Article.url := None |}.

(** An article with neither timestamp nor publisher. *)
Definition bare_article : Article.t := {|
  Article.title := Some (JString "AAPL guidance raised");
  Article.description := None;
  Article.publishedAt := None;
  Article.source := None;
  Article.url := None |}.

(** An article as services send them when a field is unknown: null under
    'description' and under 'source'. *)
Definition nulled_article : Article.t := {|
  Article.title := Some (JString "AAPL guidance raised");
  Article.description := Some JNull;
  Article.publishedAt := None;
  Article.source := Some SourceNull;
  Article.url := Some JNull |}.

(** The same with an object under 'source' whose 'name' is null. *)
Definition unnamed_article : Article.t := {|
  Article.title := Some (JString "AAPL guidance raised");
  Article.description := Some JNull;
  Article.publishedAt := None;
  Article.source := Some (SourceObject (Some JNull));
  Article.url := Some JNull |}.

Definition unnamed_row : Row.t := {|
  Row.text := "AAPL guidance raised None";
  Row.timestamp := None;
  Row.source := "Financial News";
  Row.publisher := JNull;
  Row.url := JNull |}.

Definition bare_row : Row.t := {|
  Row.text := "AAPL guidance raised ";
  Row.timestamp := None;
  Row.source := "Financial News";
  Row.publisher := JString "Unknown";
  Row.url := JString "" |}.

(** A News API answer with the given articles. *)
Definition answering (arts : list Article.t) : Params → outcome (Response NewsData) :=
  λ _, Returns {| status_code := 200; json := Returns {| articles := Some arts |} |}.

(** A classifier that fails on texts without the ticker AAPL. *)
Definition picky_classifier (text : string) : outcome (Q * Q * Q) :=
  if contains "AAPL" text then Returns (0.1, 0.2, 0.7)%Q else Raises ValueError.

Definition steady_classifier (text : string) : outcome (Q * Q * Q) :=
  Returns (0.1, 0.2, 0.7)%Q.

End News.

Module Frames.
Import Aggregator Scenarios.Frames.

(** Posts and articles as the fetchers return them, not yet scored. *)
Definition raw_posts : DataFrame value := {|
  columns := ["text"; "score"; "source"];
  rows := [ {[ "text" := VStr "AAPL to the moon"; "score" := VNum 12;
               "source" := VStr "r/wallstreetbets" ]} ] |}.

Definition raw_news : DataFrame value := {|
  columns := ["text"; "publisher"];
  rows := [ {[ "text" := VStr "Apple unveils new iPhone"; "publisher" := VStr "Reuters" ]};
            {[ "text" := VStr "AAPL rallies"; "publisher" := VStr "Benzinga" ]} ] |}.

(** A frame without a 'text' column. *)
Definition textless : DataFrame value := {|
  columns := ["score"];
  rows := [ {[ "score" := VNum 3 ]} ] |}.

Definition steady (text : option value) : Py.outcome (Q * Q * Q) :=
  Py.Returns (0.1, 0.2, 0.7)%Q.

(** A classifier that fails on the text AAPL rallies. *)
Definition moody (text : option value) : Py.outcome (Q * Q * Q) :=
  match text with
  | Some (VStr "AAPL rallies") => Py.Raises Py.ValueError
  | _ => Py.Returns (0.1, 0.2, 0.7)%Q
  end.

End Frames.

End MoreScenarios.

(** * Properties *)

(** ** Binary64: the primitive operations round to nearest, ties to even *)

Module Binary64Facts.
Import Binary64.

(** *** Powers of two and magnitudes *)

Lemma pow2_pos e : (0 < pow2 e)%Q.
Proof. apply Qpower_0_lt. reflexivity. Qed.

Lemma pow2_add a b : (pow2 (a + b) == pow2 a * pow2 b)%Q.
Proof. apply Qpower_plus. discriminate. Qed.

Lemma pow2_opp a : (pow2 (- a) == / pow2 a)%Q.
Proof. apply Qpower_opp. Qed.

Lemma pow2_0 : (pow2 0 == 1)%Q.
Proof. reflexivity. Qed.

Lemma pow2_1 : (pow2 1 == 2)%Q.
Proof. reflexivity. Qed.

Lemma pow2_le a b : (a <= b)%Z → (pow2 a <= pow2 b)%Q.
Proof. intros. apply Qpower_le_compat_l; [done|]. discriminate. Qed.

Lemma pow2_lt a b : (a < b)%Z → (pow2 a < pow2 b)%Q.
Proof. intros. apply Qpower_lt_compat_l; [done|]. reflexivity. Qed.

Lemma pow2_lt_inv a b : (pow2 a < pow2 b)%Q → (a < b)%Z.
Proof. intros. eapply Qpower_lt_compat_l_inv; [done|]. reflexivity. Qed.

Lemma pow2_Z n : (0 <= n)%Z → (pow2 n == inject_Z (2 ^ n))%Q.
Proof. intros. unfold pow2. by rewrite Zpower_Qpower. Qed.

Lemma pow2_sub a b : (pow2 (a - b) == pow2 a / pow2 b)%Q.
Proof.
  unfold Z.sub. rewrite pow2_add, pow2_opp. reflexivity.
Qed.

Lemma pow2_succ a : (pow2 (a + 1) == 2 * pow2 a)%Q.
Proof. rewrite pow2_add, pow2_1. ring. Qed.

(** Division by a power of two. *)
Lemma div_pow2_lt x a b : (x < pow2 a → x / pow2 b < pow2 (a - b))%Q.
Proof.
  intros Hx. rewrite pow2_sub. pose proof (pow2_pos b).
  apply Qmult_lt_compat_r; [by apply Qinv_lt_0_compat|done].
Qed.

Lemma div_pow2_le x a b : (pow2 a <= x → pow2 (a - b) <= x / pow2 b)%Q.
Proof.
  intros Hx. rewrite pow2_sub. pose proof (pow2_pos b).
  apply Qmult_le_compat_r; [done|]. apply Qlt_le_weak. by apply Qinv_lt_0_compat.
Qed.

Lemma mag_spec x : (0 < x)%Q → (pow2 (mag x - 1) <= x)%Q ∧ (x < pow2 (mag x))%Q.
Proof.
  intros Hx. destruct x as [n d]. unfold mag. cbn [Qnum Qden].
  assert (0 < n)%Z as Hn by (unfold Qlt in Hx; cbn in Hx; lia).
  set (a := Z.log2 n). set (b := Z.log2 (Z.pos d)).
  assert (0 <= a)%Z as Ha by apply Z.log2_nonneg.
  assert (0 <= b)%Z as Hb by apply Z.log2_nonneg.
  destruct (Z.log2_spec n Hn) as [Hn1 Hn2]. fold a in Hn1, Hn2.
  destruct (Z.log2_spec (Z.pos d) eq_refl) as [Hd1 Hd2]. fold b in Hd1, Hd2.
  assert (inject_Z (2 ^ a) <= inject_Z n)%Q as Qn1 by (by rewrite <- Zle_Qle).
  assert (inject_Z n < inject_Z (2 ^ Z.succ a))%Q as Qn2 by (by rewrite <- Zlt_Qlt).
  assert (inject_Z (2 ^ b) <= inject_Z (Z.pos d))%Q as Qd1 by (by rewrite <- Zle_Qle).
  assert (inject_Z (Z.pos d) < inject_Z (2 ^ Z.succ b))%Q as Qd2 by (by rewrite <- Zlt_Qlt).
  rewrite <- pow2_Z in Qn1, Qn2, Qd1, Qd2 by lia.
  assert (0 < inject_Z (Z.pos d))%Q as Hdpos by reflexivity.
  assert (n # d == inject_Z n / inject_Z (Z.pos d))%Q as Hnd by apply Qmake_Qdiv.
  assert (pow2 (a - b - 1) < n # d)%Q as Hlow.
  { rewrite Hnd. apply Qlt_shift_div_l; [done|].
    replace (a - b - 1)%Z with (a - Z.succ b)%Z by lia. rewrite pow2_sub.
    pose proof (pow2_pos (Z.succ b)). pose proof (pow2_pos a).
    apply Qlt_le_trans with (pow2 a / pow2 (Z.succ b) * pow2 (Z.succ b))%Q.
    - apply Qmult_lt_l; [|done]. apply Qlt_shift_div_l; [done|]. lra.
    - field_simplify; [lra|]. lra. }
  assert (n # d < pow2 (a - b + 1))%Q as Hhigh.
  { rewrite Hnd. apply Qlt_shift_div_r; [done|].
    replace (a - b + 1)%Z with (Z.succ a - b)%Z by lia. rewrite pow2_sub.
    pose proof (pow2_pos b). pose proof (pow2_pos (Z.succ a)).
    apply Qlt_le_trans with (pow2 (Z.succ a)); [done|].
    apply Qle_trans with (pow2 (Z.succ a) / pow2 b * pow2 b)%Q.
    - field_simplify; [lra|]. lra.
    - apply Qmult_le_l; [|done]. apply Qlt_shift_div_l; [done|]. lra. }
  destruct (Qle_bool (pow2 (a - b)) (n # d)) eqn:Hcmp.
  - apply Qle_bool_iff in Hcmp. replace (a - b + 1 - 1)%Z with (a - b)%Z by lia. by split.
  - assert (n # d < pow2 (a - b))%Q as Hlt.
    { apply Qnot_le_lt. intros Hle. apply Qle_bool_iff in Hle. congruence. }
    split; [by apply Qlt_le_weak|done].
Qed.

Lemma mag_unique x m :
  (0 < x)%Q → (pow2 (m - 1) <= x)%Q → (x < pow2 m)%Q → mag x = m.
Proof.
  intros Hx H1 H2. destruct (mag_spec x Hx) as [H3 H4].
  assert (m - 1 < mag x)%Z by (apply pow2_lt_inv; lra).
  assert (mag x - 1 < m)%Z by (apply pow2_lt_inv; lra).
  lia.
Qed.

Lemma mag_proper x y : (x == y)%Q → (0 < x)%Q → mag x = mag y.
Proof.
  intros Hxy Hx. symmetry. destruct (mag_spec x Hx) as [H1 H2].
  apply mag_unique; lra.
Qed.

Lemma mag_mono x y : (0 < x)%Q → (x <= y)%Q → (mag x <= mag y)%Z.
Proof.
  intros Hx Hxy. destruct (mag_spec x Hx) as [H1 H2].
  destruct (mag_spec y) as [H3 H4]; [lra|].
  assert (mag x - 1 < mag y)%Z by (apply pow2_lt_inv; lra). lia.
Qed.

(** *** Rounding to the nearest integer and to the last place *)

Lemma Qfloor_unique y m :
  (inject_Z m <= y)%Q → (y < inject_Z m + 1)%Q → Qfloor y = m.
Proof.
  intros H1 H2. pose proof (Qfloor_resp_le _ _ H1) as Hge. rewrite Qfloor_Z in Hge.
  pose proof (Qfloor_le y) as Hle.
  assert (inject_Z (Qfloor y) < inject_Z (m + 1))%Q as Hlt.
  { rewrite inject_Z_plus. change (inject_Z 1) with 1%Q. lra. }
  rewrite <- Zlt_Qlt in Hlt. lia.
Qed.

Lemma RNE_cases y :
  let f := Qfloor y in
  ((y - inject_Z f < 1 # 2)%Q ∧ RNE y = f)
  ∨ ((y - inject_Z f == 1 # 2)%Q ∧ RNE y = if Z.even f then f else (f + 1)%Z)
  ∨ ((1 # 2 < y - inject_Z f)%Q ∧ RNE y = (f + 1)%Z).
Proof.
  intros f. unfold RNE. fold f.
  destruct (y - inject_Z f ?= 1 # 2)%Q eqn:Hc.
  - right. left. by apply Qeq_alt in Hc.
  - left. by apply Qlt_alt in Hc.
  - right. right. by apply Qgt_alt in Hc.
Qed.

Lemma RNE_floor y : (Qfloor y <= RNE y)%Z ∧ (RNE y <= Qfloor y + 1)%Z.
Proof.
  destruct (RNE_cases y) as [[_ ->]|[[_ ->]|[_ ->]]]; [lia| |lia].
  destruct (Z.even (Qfloor y)); lia.
Qed.

Lemma RNE_Z m : RNE (inject_Z m) = m.
Proof.
  destruct (RNE_cases (inject_Z m)) as [[_ ->]|[[H _]|[H _]]].
  - apply Qfloor_Z.
  - rewrite Qfloor_Z in H. lra.
  - rewrite Qfloor_Z in H. lra.
Qed.

Lemma RNE_mono x y : (x <= y)%Q → (RNE x <= RNE y)%Z.
Proof.
  intros Hxy. pose proof (Qfloor_resp_le _ _ Hxy) as Hf.
  pose proof (RNE_floor x) as [Hx1 Hx2]. pose proof (RNE_floor y) as [Hy1 Hy2].
  destruct (Z.eq_dec (Qfloor x) (Qfloor y)) as [Heq|Hne]; [|lia].
  destruct (RNE_cases x) as [[Hx ->]|[[Hx ->]|[Hx ->]]]; [lia| |].
  - destruct (RNE_cases y) as [[Hy ->]|[[Hy ->]|[Hy ->]]].
    + rewrite Heq in Hx. lra.
    + rewrite Heq. lia.
    + destruct (Z.even (Qfloor x)); lia.
  - destruct (RNE_cases y) as [[Hy ->]|[[Hy ->]|[Hy ->]]].
    + rewrite Heq in Hx. lra.
    + rewrite Heq in Hx. lra.
    + lia.
Qed.

Lemma RNE_proper x y : (x == y)%Q → RNE x = RNE y.
Proof.
  intros Hxy. apply Z.le_antisymm; apply RNE_mono; lra.
Qed.

Lemma RNE_le y n : (y <= inject_Z n)%Q → (RNE y <= n)%Z.
Proof. intros H. apply RNE_mono in H. by rewrite RNE_Z in H. Qed.

Lemma RNE_ge y n : (inject_Z n <= y)%Q → (n <= RNE y)%Z.
Proof. intros H. apply RNE_mono in H. by rewrite RNE_Z in H. Qed.

Lemma fexp_mono a b : (a <= b)%Z → (fexp a <= fexp b)%Z.
Proof. unfold fexp. lia. Qed.

(** A positive number scaled by its last place is below 2^53. *)
Lemma scaled_below x : (0 < x)%Q → (x / pow2 (fexp (mag x)) < pow2 53)%Q.
Proof.
  intros Hx. destruct (mag_spec x Hx) as [_ H2].
  apply Qlt_le_trans with (pow2 (mag x - fexp (mag x))).
  - by apply div_pow2_lt.
  - apply pow2_le. unfold fexp. lia.
Qed.

Lemma scaled_pos x e : (0 < x)%Q → (0 < x / pow2 e)%Q.
Proof.
  intros Hx. apply Qlt_shift_div_l; [apply pow2_pos|]. lra.
Qed.

Lemma RNE_nonneg y : (0 <= y)%Q → (0 <= RNE y)%Z.
Proof. intros. by apply (RNE_ge y 0). Qed.

Lemma round_pos_nonneg x : (0 < x)%Q → (0 <= round_pos x)%Q.
Proof.
  intros Hx. unfold round_pos. apply Qmult_le_0_compat.
  - change 0%Q with (inject_Z 0). rewrite <- Zle_Qle. apply RNE_nonneg.
    apply Qlt_le_weak. by apply scaled_pos.
  - apply Qlt_le_weak, pow2_pos.
Qed.

Lemma round_pos_proper x y : (x == y)%Q → (0 < x)%Q → (round_pos x == round_pos y)%Q.
Proof.
  intros Hxy Hx. unfold round_pos. rewrite <- (mag_proper x y Hxy Hx).
  rewrite (RNE_proper (x / pow2 (fexp (mag x))) (y / pow2 (fexp (mag x)))); [reflexivity|].
  unfold Qdiv. apply Qmult_comp; [exact Hxy|reflexivity].
Qed.

Lemma round_pos_mono x y : (0 < x)%Q → (x <= y)%Q → (round_pos x <= round_pos y)%Q.
Proof.
  intros Hx Hxy. assert (0 < y)%Q as Hy by lra.
  pose proof (fexp_mono _ _ (mag_mono x y Hx Hxy)) as He.
  unfold round_pos. set (ex := fexp (mag x)) in *. set (ey := fexp (mag y)) in *.
  pose proof (pow2_pos ex) as Hpx. pose proof (pow2_pos ey) as Hpy.
  destruct (Z.eq_dec ex ey) as [Heq|Hne].
  - rewrite <- Heq. apply Qmult_le_compat_r; [|lra].
    rewrite <- Zle_Qle. apply RNE_mono.
    apply Qmult_le_compat_r; [done|]. apply Qlt_le_weak. by apply Qinv_lt_0_compat.
  - assert (ex + 1 <= ey)%Z as Hlt by lia.
    assert (RNE (x / pow2 ex) <= 2 ^ 53)%Z as Hup.
    { apply RNE_le. rewrite <- pow2_Z by lia. apply Qlt_le_weak. by apply scaled_below. }
    assert (2 ^ 52 <= RNE (y / pow2 ey))%Z as Hdown.
    { apply RNE_ge. rewrite <- pow2_Z by lia.
      destruct (mag_spec y Hy) as [H1 _].
      assert (ey = mag y - 53)%Z as Hey by (unfold ey, ex, fexp in *; lia).
      replace 52%Z with (mag y - 1 - ey)%Z by lia. by apply div_pow2_le. }
    apply Qle_trans with (inject_Z (2 ^ 53) * pow2 ex)%Q.
    { apply Qmult_le_compat_r; [|lra]. by rewrite <- Zle_Qle. }
    apply Qle_trans with (inject_Z (2 ^ 52) * pow2 ey)%Q.
    2: { apply Qmult_le_compat_r; [|lra]. by rewrite <- Zle_Qle. }
    rewrite <- !pow2_Z, <- !pow2_add by lia. apply pow2_le. lia.
Qed.

Lemma digits2_pos_spec p :
  (2 ^ (Z.pos (digits2_pos p) - 1) <= Z.pos p < 2 ^ Z.pos (digits2_pos p))%Z.
Proof.
  induction p as [p IH|p IH|]; cbn [digits2_pos].
  - rewrite Pos2Z.inj_succ. replace (Z.succ (Z.pos (digits2_pos p)) - 1)%Z
      with (Z.succ (Z.pos (digits2_pos p) - 1)) by lia.
    rewrite !Z.pow_succ_r by lia. lia.
  - rewrite Pos2Z.inj_succ. replace (Z.succ (Z.pos (digits2_pos p)) - 1)%Z
      with (Z.succ (Z.pos (digits2_pos p) - 1)) by lia.
    rewrite !Z.pow_succ_r by lia. lia.
  - by vm_compute.
Qed.

(** The magnitude of a number whose scaled value has integer part m > 0. *)
Lemma mag_between (m : positive) e x :
  (inject_Z (Z.pos m) * pow2 e <= x)%Q → (x < (inject_Z (Z.pos m) + 1) * pow2 e)%Q →
  mag x = (Z.pos (digits2_pos m) + e)%Z.
Proof.
  intros H1 H2. pose proof (digits2_pos_spec m) as [Hd1 Hd2].
  set (d := Z.pos (digits2_pos m)) in *. pose proof (pow2_pos e) as Hp.
  assert (inject_Z (2 ^ (d - 1)) <= inject_Z (Z.pos m))%Q as Q1 by (by rewrite <- Zle_Qle).
  assert (inject_Z (Z.pos m) + 1 <= inject_Z (2 ^ d))%Q as Q2.
  { change 1%Q with (inject_Z 1). rewrite <- inject_Z_plus, <- Zle_Qle. lia. }
  rewrite <- pow2_Z in Q1, Q2 by lia.
  assert (0 < inject_Z (Z.pos m))%Q as Hm by reflexivity.
  apply mag_unique.
  - apply Qlt_le_trans with (inject_Z (Z.pos m) * pow2 e)%Q; [|done].
    apply Qmult_lt_0_compat; done.
  - replace (d + e - 1)%Z with (d - 1 + e)%Z by lia. rewrite pow2_add.
    apply Qle_trans with (inject_Z (Z.pos m) * pow2 e)%Q; [|done].
    apply Qmult_le_compat_r; lra.
  - rewrite pow2_add. apply Qlt_le_trans with ((inject_Z (Z.pos m) + 1) * pow2 e)%Q; [done|].
    apply Qmult_le_compat_r; lra.
Qed.

Lemma mag_mantissa (m : positive) e :
  mag (inject_Z (Z.pos m) * pow2 e) = (Z.pos (digits2_pos m) + e)%Z.
Proof.
  pose proof (pow2_pos e). apply mag_between; [lra|].
  apply Qmult_lt_compat_r; [done|]. lra.
Qed.

(** Scaling by the exponent itself gives back the mantissa. *)
Lemma scaled_mantissa (m : Z) e : (inject_Z m * pow2 e / pow2 e == inject_Z m)%Q.
Proof. pose proof (pow2_pos e). field. lra. Qed.

(** A number with a canonical mantissa is its own rounding. *)
Lemma round_pos_canonical (m : positive) e :
  fexp (Z.pos (digits2_pos m) + e) = e →
  (round_pos (inject_Z (Z.pos m) * pow2 e) == inject_Z (Z.pos m) * pow2 e)%Q.
Proof.
  intros Hcanon. unfold round_pos. rewrite mag_mantissa, Hcanon.
  by rewrite (RNE_proper _ _ (scaled_mantissa (Z.pos m) e)), RNE_Z.
Qed.

(** *** Shift records: what [shr] and [round_nearest_even] compute *)

Lemma located_proper mrs y y' : (y == y')%Q → located mrs y → located mrs y'.
Proof.
  intros Hy. unfold located. destruct (shr_r mrs), (shr_s mrs); intros H; lra.
Qed.

Lemma located_range mrs y :
  located mrs y → (inject_Z (shr_m mrs) <= y)%Q ∧ (y < inject_Z (shr_m mrs) + 1)%Q.
Proof.
  unfold located. destruct (shr_r mrs), (shr_s mrs); intros H; split; lra.
Qed.

Lemma inject_Z_xO p : (inject_Z (Z.pos p~0) == 2 * inject_Z (Z.pos p))%Q.
Proof. rewrite Pos2Z.inj_xO, inject_Z_mult. reflexivity. Qed.

Lemma inject_Z_xI p : (inject_Z (Z.pos p~1) == 2 * inject_Z (Z.pos p) + 1)%Q.
Proof. rewrite Pos2Z.inj_xI, inject_Z_plus, inject_Z_mult. reflexivity. Qed.

(** One shift to the right halves the number and keeps it located. *)
Lemma shr_1_located mrs y :
  (0 <= shr_m mrs)%Z → located mrs y →
  located (shr_1 mrs) (y * (1 # 2)) ∧ (0 <= shr_m (shr_1 mrs))%Z.
Proof.
  destruct mrs as [m r s]. cbn [shr_m]. intros Hm Hy.
  destruct m as [|p|p]; [| |lia].
  - unfold located in *. cbn [shr_1 shr_m shr_r shr_s] in *.
    change (inject_Z 0) with 0%Q in *.
    split; [|done]. destruct r, s; cbn [orb]; lra.
  - destruct p as [p|p|]; unfold located in *; cbn [shr_1 shr_m shr_r shr_s] in *.
    + pose proof (inject_Z_xI p). split; [|done]. destruct r, s; cbn [orb]; lra.
    + pose proof (inject_Z_xO p). split; [|done]. destruct r, s; cbn [orb]; lra.
    + change (inject_Z 1) with 1%Q in Hy. change (inject_Z 0) with 0%Q.
      split; [|done]. destruct r, s; cbn [orb]; lra.
Qed.

Lemma iter_shr_1_located p : ∀ mrs y,
  (0 <= shr_m mrs)%Z → located mrs y →
  located (SpecFloat.iter_pos shr_1 p mrs) (y / pow2 (Z.pos p))
  ∧ (0 <= shr_m (SpecFloat.iter_pos shr_1 p mrs))%Z.
Proof.
  induction p as [p IH|p IH|]; intros mrs y Hm Hy; cbn [SpecFloat.iter_pos].
  - destruct (shr_1_located mrs y Hm Hy) as [H1 Hm1].
    destruct (IH _ _ Hm1 H1) as [H2 Hm2]. destruct (IH _ _ Hm2 H2) as [H3 Hm3].
    split; [|done]. eapply located_proper; [|exact H3].
    rewrite Pos2Z.inj_xI. replace (2 * Z.pos p + 1)%Z with (Z.pos p + Z.pos p + 1)%Z by lia.
    rewrite !pow2_add, pow2_1. pose proof (pow2_pos (Z.pos p)). field. lra.
  - destruct (IH _ _ Hm Hy) as [H2 Hm2]. destruct (IH _ _ Hm2 H2) as [H3 Hm3].
    split; [|done]. eapply located_proper; [|exact H3].
    rewrite Pos2Z.inj_xO. replace (2 * Z.pos p)%Z with (Z.pos p + Z.pos p)%Z by lia.
    rewrite !pow2_add. pose proof (pow2_pos (Z.pos p)). field. lra.
  - destruct (shr_1_located mrs y Hm Hy) as [H1 Hm1]. split; [|done].
    eapply located_proper; [|exact H1]. rewrite pow2_1. field.
Qed.

(** Shifting by [n] places when [n] is positive, not at all otherwise. *)
Lemma shr_located mrs e n x :
  (0 <= shr_m mrs)%Z → located mrs (x / pow2 e) →
  located (shr mrs e n).1 (x / pow2 (shr mrs e n).2)
  ∧ (0 <= shr_m (shr mrs e n).1)%Z
  ∧ (shr mrs e n).2 = (e + Z.max n 0)%Z.
Proof.
  intros Hm Hx. unfold shr. destruct n as [|p|p]; cbn [fst snd].
  - split; [done|]. split; [done|lia].
  - destruct (iter_shr_1_located p _ _ Hm Hx) as [H1 Hm1].
    split; [|split; [done|lia]]. eapply located_proper; [|exact H1].
    rewrite pow2_add. pose proof (pow2_pos e). pose proof (pow2_pos (Z.pos p)). field. lra.
  - split; [done|]. split; [done|lia].
Qed.

(** Rounding at the place of the record is rounding to the nearest integer,
    ties to even. *)
Lemma round_located mrs y :
  located mrs y →
  round_nearest_even (shr_m mrs) (loc_of_shr_record mrs) = RNE y.
Proof.
  intros Hy. destruct (located_range mrs y Hy) as [H1 H2].
  pose proof (Qfloor_unique y _ H1 H2) as Hf.
  destruct mrs as [m r s]. unfold located in Hy. cbn [shr_m shr_r shr_s] in *.
  destruct (RNE_cases y) as [[Hc ->]|[[Hc ->]|[Hc ->]]]; rewrite Hf in *;
    destruct r, s; cbn [loc_of_shr_record round_nearest_even]; try lra; try done.
Qed.

Lemma fexp_eq e : SpecFloat.fexp prec emax e = fexp e.
Proof. reflexivity. Qed.

(** [binary_round_aux] with its pairs taken apart. *)
Lemma binary_round_aux_eq sx mx ex lx :
  binary_round_aux prec emax sx mx ex lx
  = let s1 := shr (shr_record_of_loc mx lx) ex (fexp (Zdigits2 mx + ex) - ex) in
    let r := round_nearest_even (shr_m s1.1) (loc_of_shr_record s1.1) in
    let s2 := shr (shr_record_of_loc r loc_Exact) s1.2 (fexp (Zdigits2 r + s1.2) - s1.2) in
    match shr_m s2.1 with
    | Z0 => S754_zero sx
    | Z.pos m => if (s2.2 <=? 971)%Z then S754_finite sx m s2.2 else S754_infinity sx
    | Z.neg _ => S754_nan
    end.
Proof.
  unfold binary_round_aux, shr_fexp. rewrite !fexp_eq.
  destruct (shr (shr_record_of_loc mx lx) ex (fexp (Zdigits2 mx + ex) - ex)) as [mrs1 e1].
  cbn [fst snd]. rewrite !fexp_eq.
  by destruct (shr _ e1 _) as [mrs2 e2].
Qed.

Lemma located_exact m : located (shr_record_of_loc m loc_Exact) (inject_Z m).
Proof. unfold located. cbn. reflexivity. Qed.

Lemma digits2_pos_le p k : (Z.pos p < 2 ^ k)%Z → (0 <= k)%Z → (Z.pos (digits2_pos p) <= k)%Z.
Proof.
  intros Hp Hk. pose proof (digits2_pos_spec p) as [H1 _].
  assert (2 ^ (Z.pos (digits2_pos p) - 1) < 2 ^ k)%Z as Hlt by lia.
  apply Z.pow_lt_mono_r_iff in Hlt; lia.
Qed.

Lemma mag_le x k : (0 < x)%Q → (x < pow2 k)%Q → (mag x <= k)%Z.
Proof.
  intros Hx Hk. destruct (mag_spec x Hx) as [H1 _].
  assert (mag x - 1 < k)%Z by (apply pow2_lt_inv; lra). lia.
Qed.

(** The number located by a record, from its scaled value. *)
Lemma located_bounds mrs x e :
  located mrs (x / pow2 e) →
  (inject_Z (shr_m mrs) * pow2 e <= x)%Q ∧ (x < (inject_Z (shr_m mrs) + 1) * pow2 e)%Q.
Proof.
  intros [H1 H2]%located_range. pose proof (pow2_pos e) as Hp.
  assert (x == x / pow2 e * pow2 e)%Q as Hx by (field; lra).
  split.
  - rewrite Hx. apply Qmult_le_compat_r; lra.
  - rewrite Hx at 1. apply Qmult_lt_compat_r; lra.
Qed.

Lemma shr_m_of_loc m l : shr_m (shr_record_of_loc m l) = m.
Proof. by destruct l as [|[]]. Qed.

(** The exponent at which [binary_round_aux] rounds a number given with
    enough digits is that of its last place. *)
Lemma first_shift mx ex lx x :
  (0 <= mx)%Z → (0 < x)%Q →
  located (shr_record_of_loc mx lx) (x / pow2 ex) →
  (ex <= fexp (mag x))%Z →
  (ex + Z.max (fexp (Zdigits2 mx + ex) - ex) 0)%Z = fexp (mag x).
Proof.
  intros Hmx Hx Hloc Hex.
  destruct (located_bounds _ _ _ Hloc) as [H1 H2]. rewrite shr_m_of_loc in H1, H2.
  destruct mx as [|p|p]; [| |lia].
  - change (inject_Z 0) with 0%Q in H2.
    assert (x < pow2 ex)%Q as Hlt by lra.
    pose proof (mag_le x ex Hx Hlt). cbn [Zdigits2]. unfold fexp in *. lia.
  - rewrite (mag_between p ex x H1 H2) in *. cbn [Zdigits2]. lia.
Qed.

Lemma round_aux_spec sx mx ex lx x :
  (0 <= mx)%Z → (0 < x)%Q →
  located (shr_record_of_loc mx lx) (x / pow2 ex) →
  (ex <= fexp (mag x))%Z → (x < pow2 1023)%Q →
  is_finite (binary_round_aux prec emax sx mx ex lx) = true
  ∧ (SF2Q (binary_round_aux prec emax sx mx ex lx)
     == if sx then - round_pos x else round_pos x)%Q.
Proof.
  intros Hmx Hx Hloc Hex Hbig. rewrite binary_round_aux_eq. cbv zeta.
  pose proof (first_shift mx ex lx x Hmx Hx Hloc Hex) as Hshift.
  assert (0 <= shr_m (shr_record_of_loc mx lx))%Z as Hm0 by (by rewrite shr_m_of_loc).
  destruct (shr_located _ ex (fexp (Zdigits2 mx + ex) - ex) x Hm0 Hloc) as (Hl1 & Hm1 & He1).
  rewrite Hshift in He1.
  set (s1 := shr (shr_record_of_loc mx lx) ex (fexp (Zdigits2 mx + ex) - ex)) in *.
  rewrite He1 in *. rewrite (round_located _ _ Hl1).
  set (E := fexp (mag x)) in *. set (r := RNE (x / pow2 E)).
  assert (E <= 970)%Z as HE by (pose proof (mag_le x 1023 Hx Hbig); unfold E, fexp; lia).
  assert (-1074 <= E)%Z as HE' by (unfold E, fexp; lia).
  assert (0 <= r)%Z as Hr0.
  { apply RNE_nonneg, Qlt_le_weak. by apply scaled_pos. }
  assert (r <= 2 ^ 53)%Z as Hr1.
  { apply RNE_le. rewrite <- pow2_Z by lia. apply Qlt_le_weak. by apply scaled_below. }
  assert (round_pos x == inject_Z r * pow2 E)%Q as Hround by reflexivity.
  assert (located (shr_record_of_loc r loc_Exact) (inject_Z r * pow2 E / pow2 E)) as Hloc2.
  { eapply located_proper; [|apply located_exact]. by rewrite scaled_mantissa. }
  assert (0 <= shr_m (shr_record_of_loc r loc_Exact))%Z as Hm2 by done.
  destruct (shr_located _ E (fexp (Zdigits2 r + E) - E) _ Hm2 Hloc2) as (Hl2 & Hm3 & He2).
  set (s2 := shr (shr_record_of_loc r loc_Exact) E (fexp (Zdigits2 r + E) - E)) in *.
  destruct (located_bounds _ _ _ Hl2) as [Hb1 Hb2].
  assert (s2.2 = E ∧ shr_m s2.1 = r ∨ s2.2 = (E + 1)%Z ∧ shr_m s2.1 = (2 ^ 52)%Z ∧ r = (2 ^ 53)%Z)
    as Hcases.
  { destruct (Z.eq_dec r (2 ^ 53)%Z) as [Hr|Hr].
    - right. assert (s2 = shr (shr_record_of_loc (2 ^ 53)%Z loc_Exact) E 1) as Hs2.
      { unfold s2. rewrite Hr. f_equal. change (Zdigits2 (2 ^ 53)%Z) with 54%Z.
        unfold fexp. lia. }
      rewrite Hs2. unfold shr. cbn [fst snd]. split; [done|]. split; [|done].
      by vm_compute.
    - left. assert (fexp (Zdigits2 r + E) - E <= 0)%Z as Hn2.
      { destruct r as [|q|q]; [cbn [Zdigits2]; unfold fexp; lia| |lia].
        cbn [Zdigits2]. pose proof (digits2_pos_le q 53). unfold fexp. lia. }
      unfold s2, shr. destruct (fexp (Zdigits2 r + E) - E)%Z; [done|lia|done]. }
  destruct Hcases as [[-> ->]|(-> & -> & Hr)].
  - destruct r as [|q|q]; [| |lia].
    + split; [done|]. cbn [SF2Q]. destruct sx; rewrite Hround; ring.
    + rewrite (proj2 (Z.leb_le E 971)) by lia. split; [done|].
      cbn [SF2Q]. destruct sx; rewrite Hround; reflexivity.
  - change (2 ^ 52)%Z with (Z.pos (2 ^ 52)%positive).
    rewrite (proj2 (Z.leb_le (E + 1) 971)) by lia. split; [done|].
    destruct sx; cbn [SF2Q]; rewrite pow2_succ, Hround, Hr;
      change (inject_Z (2 ^ 53)) with (inject_Z (2 * Z.pos (2 ^ 52)%positive));
      rewrite inject_Z_mult; ring.
Qed.

(** *** Rounding of any rational, and the normalising functions *)

Lemma round_of_pos x : (0 < x)%Q → round x = round_pos x.
Proof.
  intros Hx. unfold round. destruct (x ?= 0)%Q eqn:Hc; [|  |done].
  - apply Qeq_alt in Hc. lra.
  - apply Qlt_alt in Hc. lra.
Qed.

Lemma round_of_neg x : (x < 0)%Q → round x = (- round_pos (- x))%Q.
Proof.
  intros Hx. unfold round. destruct (x ?= 0)%Q eqn:Hc; [|done|].
  - apply Qeq_alt in Hc. lra.
  - apply Qgt_alt in Hc. lra.
Qed.

Lemma round_of_zero x : (x == 0)%Q → round x = 0%Q.
Proof.
  intros Hx. unfold round. destruct (x ?= 0)%Q eqn:Hc; [done| |].
  - apply Qlt_alt in Hc. lra.
  - apply Qgt_alt in Hc. lra.
Qed.

Lemma iter_xO mx d : Z.pos (Pos.iter xO mx d) = (Z.pos mx * 2 ^ Z.pos d)%Z.
Proof.
  induction d as [|d IH] using Pos.peano_ind.
  - cbn [Pos.iter]. lia.
  - rewrite Pos.iter_succ, Pos2Z.inj_xO, IH, Pos2Z.inj_succ, Z.pow_succ_r by lia. lia.
Qed.

(** Aligning a mantissa to a smaller exponent keeps the number. *)
Lemma shl_align_spec mx ex ex' :
  (shl_align mx ex ex').2 = Z.min ex ex'
  ∧ (inject_Z (Z.pos (shl_align mx ex ex').1) * pow2 (shl_align mx ex ex').2
     == inject_Z (Z.pos mx) * pow2 ex)%Q.
Proof.
  unfold shl_align. destruct (ex' - ex)%Z as [|d|d] eqn:Hd; cbn [fst snd].
  - split; [lia|reflexivity].
  - split; [lia|reflexivity].
  - split; [lia|]. rewrite iter_xO, inject_Z_mult, <- pow2_Z by lia.
    rewrite <- Qmult_assoc, <- pow2_add. replace (Z.pos d + ex')%Z with ex by lia.
    reflexivity.
Qed.

Lemma binary_round_spec sx mx ex :
  (inject_Z (Z.pos mx) * pow2 ex < pow2 1023)%Q →
  is_finite (binary_round prec emax sx mx ex) = true
  ∧ (SF2Q (binary_round prec emax sx mx ex)
     == if sx then - round_pos (inject_Z (Z.pos mx) * pow2 ex)
        else round_pos (inject_Z (Z.pos mx) * pow2 ex))%Q.
Proof.
  intros Hbig. unfold binary_round. rewrite fexp_eq.
  destruct (shl_align_spec mx ex (fexp (Z.pos (digits2_pos mx) + ex))) as [He Hv].
  destruct (shl_align mx ex (fexp (Z.pos (digits2_pos mx) + ex))) as [mz ez].
  cbn [fst snd] in He, Hv.
  set (x := (inject_Z (Z.pos mx) * pow2 ex)%Q) in *.
  assert (0 < x)%Q as Hx.
  { apply Qmult_lt_0_compat; [reflexivity|apply pow2_pos]. }
  apply round_aux_spec; [lia|done| |unfold x; rewrite mag_mantissa; lia|done].
  eapply located_proper; [|apply located_exact].
  pose proof (pow2_pos ez). rewrite <- Hv. field. lra.
Qed.

Lemma binary_normalize_spec m e szero :
  (Qabs (inject_Z m * pow2 e) < pow2 1023)%Q →
  is_finite (binary_normalize prec emax m e szero) = true
  ∧ (SF2Q (binary_normalize prec emax m e szero) == round (inject_Z m * pow2 e))%Q.
Proof.
  intros Hbig. pose proof (pow2_pos e) as Hp. destruct m as [|p|p]; cbn [binary_normalize].
  - split; [done|]. rewrite round_of_zero; [reflexivity|]. ring.
  - assert (0 < inject_Z (Z.pos p) * pow2 e)%Q as Hx
      by (apply Qmult_lt_0_compat; [reflexivity|done]).
    rewrite Qabs_pos in Hbig by lra. rewrite round_of_pos by done.
    by apply (binary_round_spec false).
  - assert (inject_Z (Z.neg p) == - inject_Z (Z.pos p))%Q as Hneg by reflexivity.
    assert (0 < inject_Z (Z.pos p) * pow2 e)%Q as Hx
      by (apply Qmult_lt_0_compat; [reflexivity|done]).
    assert (- (inject_Z (Z.neg p) * pow2 e) == inject_Z (Z.pos p) * pow2 e)%Q as Hopp
      by (rewrite Hneg; ring).
    rewrite Qabs_neg in Hbig by (rewrite Hneg; lra). rewrite Hopp in Hbig.
    rewrite round_of_neg by (rewrite Hneg; lra).
    destruct (binary_round_spec true p e Hbig) as [Hfin Hval]. split; [done|].
    rewrite Hval. apply Qopp_comp. symmetry. apply round_pos_proper; [done|]. lra.
Qed.

Lemma round_nonneg x : (0 <= x)%Q → (0 <= round x)%Q.
Proof.
  intros Hx. destruct (Qlt_le_dec 0 x) as [Hpos|Hle].
  - rewrite round_of_pos by done. by apply round_pos_nonneg.
  - rewrite round_of_zero by lra. lra.
Qed.

Lemma round_nonpos x : (x <= 0)%Q → (round x <= 0)%Q.
Proof.
  intros Hx. destruct (Qlt_le_dec x 0) as [Hneg|Hle].
  - rewrite round_of_neg by done.
    pose proof (round_pos_nonneg (- x)). lra.
  - rewrite round_of_zero by lra. lra.
Qed.

Lemma round_mono x y : (x <= y)%Q → (round x <= round y)%Q.
Proof.
  intros Hxy. destruct (Qlt_le_dec 0 x) as [Hx|Hx].
  - rewrite !round_of_pos by lra. by apply round_pos_mono.
  - destruct (Qlt_le_dec 0 y) as [Hy|Hy].
    + pose proof (round_nonpos x Hx). pose proof (round_nonneg y). lra.
    + destruct (Qlt_le_dec y 0) as [Hy'|Hy'].
      * rewrite !round_of_neg by lra.
        pose proof (round_pos_mono (- y) (- x)). lra.
      * pose proof (round_nonpos x Hx). pose proof (round_nonneg y). lra.
Qed.

Lemma round_proper x y : (x == y)%Q → (round x == round y)%Q.
Proof. intros Hxy. apply Qle_antisym; apply round_mono; lra. Qed.

Lemma round_opp x : (round (- x) == - round x)%Q.
Proof.
  destruct (Qlt_le_dec 0 x) as [Hx|Hx].
  - rewrite (round_of_neg (- x)) by lra. rewrite (round_of_pos x) by done.
    apply Qopp_comp. apply round_pos_proper; lra.
  - destruct (Qlt_le_dec x 0) as [Hx'|Hx'].
    + rewrite (round_of_pos (- x)) by lra. rewrite (round_of_neg x) by done. ring.
    + rewrite !round_of_zero by lra. reflexivity.
Qed.

(** *** Sum, difference, product and quotient in [SpecFloat] *)

(** A valid finite number has a canonical mantissa. *)
Lemma valid_canonical s m e :
  valid_binary (S754_finite s m e) = true →
  fexp (Z.pos (digits2_pos m) + e) = e ∧ (e <= 971)%Z.
Proof.
  unfold valid_binary, SpecFloat.valid_binary, bounded, canonical_mantissa.
  rewrite fexp_eq. intros [H1 H2]%andb_true_iff.
  apply Z.eqb_eq in H1. apply Z.leb_le in H2. split; [done|]. exact H2.
Qed.

(** Rounding leaves the binary64 numbers unchanged. *)
Lemma round_valid f : valid_binary f = true → (round (SF2Q f) == SF2Q f)%Q.
Proof.
  intros Hvalid. destruct f as [s|s| |s m e]; try (by rewrite round_of_zero).
  destruct (valid_canonical s m e Hvalid) as [Hcanon _].
  pose proof (pow2_pos e) as Hp.
  assert (0 < inject_Z (Z.pos m) * pow2 e)%Q as Hx
    by (apply Qmult_lt_0_compat; [reflexivity|done]).
  cbn [SF2Q]. destruct s.
  - rewrite round_opp, round_of_pos by done. by rewrite round_pos_canonical.
  - rewrite round_of_pos by done. by apply round_pos_canonical.
Qed.

Lemma SF2Q_finite s m e :
  (SF2Q (S754_finite s m e) == inject_Z (cond_Zopp s (Z.pos m)) * pow2 e)%Q.
Proof.
  destruct s; cbn [SF2Q cond_Zopp]; [|reflexivity].
  change (inject_Z (- Z.pos m)) with (- inject_Z (Z.pos m))%Q. ring.
Qed.

(** Two numbers brought to their smaller exponent. *)
Lemma aligned s m e ez :
  (ez <= e)%Z →
  (inject_Z (cond_Zopp s (Z.pos (shl_align m e ez).1)) * pow2 ez
   == SF2Q (S754_finite s m e))%Q.
Proof.
  intros Hez. destruct (shl_align_spec m e ez) as [He Hv].
  rewrite Z.min_r in He by lia. rewrite He in Hv.
  destruct s; cbn [cond_Zopp SF2Q]; [|done].
  rewrite inject_Z_opp.
  transitivity (- (inject_Z (Z.pos (shl_align m e ez).1) * pow2 ez))%Q; [ring|].
  by rewrite Hv.
Qed.

Lemma SFadd_spec f g :
  valid_binary f = true → valid_binary g = true →
  is_finite f = true → is_finite g = true →
  (Qabs (SF2Q f + SF2Q g) < pow2 1023)%Q →
  is_finite (SF64add f g) = true
  ∧ (SF2Q (SF64add f g) == round (SF2Q f + SF2Q g))%Q.
Proof.
  intros Hvf Hvg Hf Hg Hbig. unfold SF64add.
  destruct f as [sf|sf| |sf mf ef], g as [sg|sg| |sg mg eg]; try done.
  - split; [by destruct sf, sg|]. rewrite round_of_zero by (cbn; ring). by destruct sf, sg.
  - split; [done|]. cbn [SFadd]. rewrite <- (round_valid _ Hvg) at 1.
    apply round_proper. cbn [SF2Q]. ring.
  - split; [done|]. cbn [SFadd]. rewrite <- (round_valid _ Hvf) at 1.
    apply round_proper. cbn [SF2Q]. ring.
  - cbn [SFadd]. cbv zeta.
    set (ez := Z.min ef eg).
    assert (inject_Z (cond_Zopp sf (Z.pos (shl_align mf ef ez).1)
                      + cond_Zopp sg (Z.pos (shl_align mg eg ez).1)) * pow2 ez
            == SF2Q (S754_finite sf mf ef) + SF2Q (S754_finite sg mg eg))%Q as Hsum.
    { rewrite inject_Z_plus, Qmult_plus_distr_l, !aligned by lia. reflexivity. }
    destruct (binary_normalize_spec
                (cond_Zopp sf (Z.pos (shl_align mf ef ez).1)
                 + cond_Zopp sg (Z.pos (shl_align mg eg ez).1)) ez false) as [Hfin Hval].
    { by rewrite Hsum. }
    split; [done|]. rewrite Hval. by apply round_proper.
Qed.

Lemma SFsub_spec f g :
  valid_binary f = true → valid_binary g = true →
  is_finite f = true → is_finite g = true →
  (Qabs (SF2Q f - SF2Q g) < pow2 1023)%Q →
  is_finite (SF64sub f g) = true
  ∧ (SF2Q (SF64sub f g) == round (SF2Q f - SF2Q g))%Q.
Proof.
  intros Hvf Hvg Hf Hg Hbig. unfold SF64sub.
  destruct f as [sf|sf| |sf mf ef], g as [sg|sg| |sg mg eg]; try done.
  - split; [by destruct sf, sg|]. rewrite round_of_zero by (cbn; ring). by destruct sf, sg.
  - split; [done|]. cbn [SFsub].
    rewrite (round_proper _ (- SF2Q (S754_finite sg mg eg))) by (cbn [SF2Q]; ring).
    rewrite round_opp, (round_valid _ Hvg). destruct sg; cbn [SF2Q negb]; ring.
  - split; [done|]. cbn [SFsub]. rewrite <- (round_valid _ Hvf) at 1.
    apply round_proper. cbn [SF2Q]. ring.
  - cbn [SFsub]. cbv zeta.
    set (ez := Z.min ef eg).
    assert (inject_Z (cond_Zopp sf (Z.pos (shl_align mf ef ez).1)
                      - cond_Zopp sg (Z.pos (shl_align mg eg ez).1)) * pow2 ez
            == SF2Q (S754_finite sf mf ef) - SF2Q (S754_finite sg mg eg))%Q as Hsum.
    { unfold Z.sub. rewrite inject_Z_plus, inject_Z_opp.
      rewrite <- (aligned sf mf ef ez), <- (aligned sg mg eg ez) by lia. ring. }
    destruct (binary_normalize_spec
                (cond_Zopp sf (Z.pos (shl_align mf ef ez).1)
                 - cond_Zopp sg (Z.pos (shl_align mg eg ez).1)) ez false) as [Hfin Hval].
    { by rewrite Hsum. }
    split; [done|]. rewrite Hval. by apply round_proper.
Qed.

(** The product of two mantissas has at least the digits of both, less
    one. *)
Lemma digits2_pos_mul p q :
  (Z.pos (digits2_pos p) + Z.pos (digits2_pos q) - 1 <= Z.pos (digits2_pos (p * q)))%Z.
Proof.
  pose proof (digits2_pos_spec p) as [Hp _]. pose proof (digits2_pos_spec q) as [Hq _].
  pose proof (digits2_pos_spec (p * q)) as [_ Hpq].
  set (a := Z.pos (digits2_pos p)) in *. set (b := Z.pos (digits2_pos q)) in *.
  set (c := Z.pos (digits2_pos (p * q))) in *.
  assert (2 ^ (a - 1 + (b - 1)) < 2 ^ c)%Z as Hlt.
  { rewrite Z.pow_add_r by lia. rewrite Pos2Z.inj_mul in Hpq. nia. }
  apply Z.pow_lt_mono_r_iff in Hlt; lia.
Qed.

Lemma SFmul_spec f g :
  valid_binary f = true → valid_binary g = true →
  is_finite f = true → is_finite g = true →
  (Qabs (SF2Q f * SF2Q g) < pow2 1023)%Q →
  is_finite (SF64mul f g) = true
  ∧ (SF2Q (SF64mul f g) == round (SF2Q f * SF2Q g))%Q.
Proof.
  intros Hvf Hvg Hf Hg Hbig. unfold SF64mul.
  destruct f as [sf|sf| |sf mf ef], g as [sg|sg| |sg mg eg]; try done.
  - cbn [SFmul]. split; [done|]. rewrite round_of_zero by (cbn [SF2Q]; ring). reflexivity.
  - cbn [SFmul].
    destruct (valid_canonical _ _ _ Hvf) as [Hcf _].
    destruct (valid_canonical _ _ _ Hvg) as [Hcg _].
    set (x := (inject_Z (Z.pos (mf * mg)) * pow2 (ef + eg))%Q).
    assert (x == (inject_Z (Z.pos mf) * pow2 ef) * (inject_Z (Z.pos mg) * pow2 eg))%Q as Hx.
    { unfold x. rewrite Pos2Z.inj_mul, inject_Z_mult, pow2_add. ring. }
    assert (0 < x)%Q as Hpos.
    { apply Qmult_lt_0_compat; [reflexivity|apply pow2_pos]. }
    assert (Qabs (SF2Q (S754_finite sf mf ef) * SF2Q (S754_finite sg mg eg)) == x)%Q as Habs.
    { rewrite Qabs_Qmult. rewrite Hx. cbn [SF2Q].
      pose proof (pow2_pos ef). pose proof (pow2_pos eg).
      assert (0 < inject_Z (Z.pos mf) * pow2 ef)%Q
        by (apply Qmult_lt_0_compat; [reflexivity|done]).
      assert (0 < inject_Z (Z.pos mg) * pow2 eg)%Q
        by (apply Qmult_lt_0_compat; [reflexivity|done]).
      destruct sf, sg; rewrite ?Qabs_opp, !Qabs_pos by lra; reflexivity. }
    destruct (round_aux_spec (xorb sf sg) (Z.pos (mf * mg)) (ef + eg) loc_Exact x)
      as [Hfin Hval]; [lia|done| | |by rewrite <- Habs|].
    { eapply located_proper; [|apply located_exact]. unfold x. by rewrite scaled_mantissa. }
    { unfold x. rewrite mag_mantissa. pose proof (digits2_pos_mul mf mg).
      unfold fexp in *. lia. }
    split; [done|]. rewrite Hval. cbn [SF2Q].
    pose proof (pow2_pos ef). pose proof (pow2_pos eg).
    destruct sf, sg; cbn [xorb].
    + rewrite (round_proper _ x) by (rewrite Hx; ring).
      rewrite round_of_pos by done. reflexivity.
    + rewrite (round_proper _ (- x)) by (rewrite Hx; ring).
      rewrite round_opp, round_of_pos by done. reflexivity.
    + rewrite (round_proper _ (- x)) by (rewrite Hx; ring).
      rewrite round_opp, round_of_pos by done. reflexivity.
    + rewrite (round_proper _ x) by (rewrite Hx; ring).
      rewrite round_of_pos by done. reflexivity.
Qed.

(** The location of a quotient from its remainder. *)
Lemma new_location_located nb k q :
  (0 < nb)%Z → (0 <= k < nb)%Z →
  located (shr_record_of_loc q (new_location nb k))
          (inject_Z q + inject_Z k / inject_Z nb).
Proof.
  intros Hnb [Hk0 Hk1].
  assert (0 < inject_Z nb)%Q as Qnb by (change 0%Q with (inject_Z 0); by rewrite <- Zlt_Qlt).
  set (δ := (inject_Z k / inject_Z nb)%Q).
  assert (k = 0%Z → δ == 0)%Q as Hzero.
  { intros ->. unfold δ. change (inject_Z 0) with 0%Q. field. lra. }
  assert ((0 < k)%Z → 0 < δ)%Q as Hpos.
  { intros Hk. apply Qlt_shift_div_l; [done|]. rewrite Qmult_0_l.
    change 0%Q with (inject_Z 0). by rewrite <- Zlt_Qlt. }
  assert ((2 * k < nb)%Z → δ < 1 # 2)%Q as Hlt.
  { intros Hk. apply Qlt_shift_div_r; [done|].
    assert (inject_Z (2 * k) < inject_Z nb)%Q as Hq by (by rewrite <- Zlt_Qlt).
    rewrite inject_Z_mult in Hq. change (inject_Z 2) with 2%Q in Hq. lra. }
  assert ((2 * k = nb)%Z → δ == 1 # 2)%Q as Heq.
  { intros Hk. unfold δ. rewrite <- Hk, inject_Z_mult. change (inject_Z 2) with 2%Q.
    assert (0 < inject_Z k)%Q
      by (change 0%Q with (inject_Z 0); rewrite <- Zlt_Qlt; lia).
    field. lra. }
  assert ((nb < 2 * k)%Z → 1 # 2 < δ)%Q as Hgt.
  { intros Hk. apply Qlt_shift_div_l; [done|].
    assert (inject_Z nb < inject_Z (2 * k))%Q as Hq by (by rewrite <- Zlt_Qlt).
    rewrite inject_Z_mult in Hq. change (inject_Z 2) with 2%Q in Hq. lra. }
  assert (δ < 1)%Q as Hone.
  { apply Qlt_shift_div_r; [done|]. rewrite Qmult_1_l. by rewrite <- Zlt_Qlt. }
  unfold new_location, new_location_even, new_location_odd.
  destruct (Z.even nb) eqn:Heven.
  - destruct (Z.eqb_spec k 0) as [->|Hne].
    + unfold located. cbn. specialize (Hzero eq_refl). lra.
    + assert (0 < k)%Z as Hk by lia. specialize (Hpos Hk).
      destruct (Z.compare_spec (2 * k) nb) as [Hc|Hc|Hc]; unfold located; cbn.
      * specialize (Heq Hc). lra.
      * specialize (Hlt Hc). lra.
      * specialize (Hgt Hc). lra.
  - assert (nb ≠ 2 * k)%Z as Hodd.
    { intros ->. rewrite Z.even_mul in Heven. discriminate Heven. }
    destruct (Z.eqb_spec k 0) as [->|Hne].
    + unfold located. cbn. specialize (Hzero eq_refl). lra.
    + assert (0 < k)%Z as Hk by lia. specialize (Hpos Hk).
      destruct (Z.compare_spec (2 * k + 1) nb) as [Hc|Hc|Hc]; unfold located; cbn.
      * assert (δ < 1 # 2)%Q by (apply Hlt; lia). lra.
      * assert (δ < 1 # 2)%Q by (apply Hlt; lia). lra.
      * assert (1 # 2 < δ)%Q by (apply Hgt; lia). lra.
Qed.

(** [SFdiv_core_binary] in closed form. *)
Lemma SFdiv_core_eq m1 e1 m2 e2 :
  let e' := Z.min (fexp (Zdigits2 m1 + e1 - (Zdigits2 m2 + e2))) (e1 - e2) in
  let m' := (m1 * 2 ^ (e1 - e2 - e'))%Z in
  SFdiv_core_binary prec emax m1 e1 m2 e2
  = ((m' / m2)%Z, e', new_location m2 (m' mod m2)).
Proof.
  intros e' m'. unfold SFdiv_core_binary. rewrite fexp_eq. fold e'.
  assert (0 <= e1 - e2 - e')%Z as Hs by (unfold e'; lia).
  assert (match (e1 - e2 - e')%Z with
          | Z0 => m1
          | Z.pos _ => Z.shiftl m1 (e1 - e2 - e')
          | Z.neg _ => 0%Z
          end = m') as ->.
  { unfold m'. destruct (e1 - e2 - e')%Z as [|p|p] eqn:Hp; [lia| |lia].
    by rewrite Z.shiftl_mul_pow2. }
  unfold Z.div, Z.modulo. by destruct (Z.div_eucl m' m2).
Qed.

Lemma quotient_split a b :
  (0 < b)%Z → (inject_Z a / inject_Z b == inject_Z (a / b) + inject_Z (a mod b) / inject_Z b)%Q.
Proof.
  intros Hb.
  assert (0 < inject_Z b)%Q as Qb by (change 0%Q with (inject_Z 0); by rewrite <- Zlt_Qlt).
  rewrite (Z.div_mod a b) at 1 by lia. rewrite inject_Z_plus, inject_Z_mult. field. lra.
Qed.

(** The quotient of two positive numbers: its integer part at the chosen
    exponent, where it lies, and that the exponent is small enough. *)
Lemma div_core_spec mx ex my ey :
  let x := (inject_Z (Z.pos mx) * pow2 ex / (inject_Z (Z.pos my) * pow2 ey))%Q in
  let e' := Z.min (fexp (Z.pos (digits2_pos mx) + ex - (Z.pos (digits2_pos my) + ey)))
                  (ex - ey) in
  let m' := (Z.pos mx * 2 ^ (ex - ey - e'))%Z in
  (0 < x)%Q ∧ (0 <= m' / Z.pos my)%Z
  ∧ located (shr_record_of_loc (m' / Z.pos my) (new_location (Z.pos my) (m' mod Z.pos my)))
            (x / pow2 e')
  ∧ (e' <= fexp (mag x))%Z.
Proof.
  intros x e' m'.
  pose proof (pow2_pos ex) as Hpx. pose proof (pow2_pos ey) as Hpy.
  pose proof (pow2_pos e') as Hpe.
  assert (0 < inject_Z (Z.pos mx))%Q as Hmx by reflexivity.
  assert (0 < inject_Z (Z.pos my))%Q as Hmy by reflexivity.
  assert (0 < inject_Z (Z.pos my) * pow2 ey)%Q as Hden by (by apply Qmult_lt_0_compat).
  assert (0 < x)%Q as Hx.
  { apply Qlt_shift_div_l; [done|]. rewrite Qmult_0_l. by apply Qmult_lt_0_compat. }
  assert (0 <= ex - ey - e')%Z as Hs by (unfold e'; lia).
  split; [done|]. split; [apply Z.div_pos; lia|]. split.
  - eapply located_proper; [|apply new_location_located; [lia|apply Z.mod_pos_bound; lia]].
    rewrite <- quotient_split by lia. unfold m', x.
    rewrite inject_Z_mult, <- pow2_Z by lia.
    replace (ex - ey - e')%Z with (ex + (- ey + - e'))%Z by lia.
    rewrite !pow2_add, !pow2_opp. field. lra.
  - apply Z.le_trans with (fexp (Z.pos (digits2_pos mx) + ex - (Z.pos (digits2_pos my) + ey)));
      [unfold e'; lia|].
    apply fexp_mono.
    pose proof (digits2_pos_spec mx) as [Hd1 _]. pose proof (digits2_pos_spec my) as [_ Hd2].
    set (d1 := Z.pos (digits2_pos mx)) in *. set (d2 := Z.pos (digits2_pos my)) in *.
    assert (inject_Z (2 ^ (d1 - 1)) <= inject_Z (Z.pos mx))%Q as Q1 by (by rewrite <- Zle_Qle).
    assert (inject_Z (Z.pos my) < inject_Z (2 ^ d2))%Q as Q2 by (by rewrite <- Zlt_Qlt).
    rewrite <- pow2_Z in Q1, Q2 by lia.
    destruct (mag_spec x Hx) as [_ Hup].
    assert (pow2 (d1 + ex - (d2 + ey) - 1) < x)%Q as Hlow.
    { unfold x. apply Qlt_shift_div_l; [done|].
      apply Qlt_le_trans with (pow2 (d1 + ex - (d2 + ey) - 1) * (pow2 d2 * pow2 ey))%Q.
      - apply Qmult_lt_l; [apply pow2_pos|]. apply Qmult_lt_compat_r; done.
      - rewrite <- !pow2_add.
        replace (d1 + ex - (d2 + ey) - 1 + (d2 + ey))%Z with (d1 - 1 + ex)%Z by lia.
        rewrite pow2_add. apply Qmult_le_compat_r; lra. }
    assert (d1 + ex - (d2 + ey) - 1 < mag x)%Z by (apply pow2_lt_inv; lra). lia.
Qed.

Lemma SFdiv_spec f g :
  valid_binary f = true → valid_binary g = true →
  is_finite f = true → is_finite g = true →
  ¬ (SF2Q g == 0)%Q →
  (Qabs (SF2Q f / SF2Q g) < pow2 1023)%Q →
  is_finite (SF64div f g) = true
  ∧ (SF2Q (SF64div f g) == round (SF2Q f / SF2Q g))%Q.
Proof.
  intros Hvf Hvg Hf Hg Hnz Hbig. unfold SF64div.
  destruct f as [sf|sf| |sf mf ef], g as [sg|sg| |sg mg eg]; try done.
  cbn [SFdiv]. rewrite SFdiv_core_eq. cbv zeta. cbn [Zdigits2].
  destruct (div_core_spec mf ef mg eg) as (Hx & Hq & Hloc & He).
  set (x := (inject_Z (Z.pos mf) * pow2 ef / (inject_Z (Z.pos mg) * pow2 eg))%Q) in *.
  pose proof (pow2_pos ef). pose proof (pow2_pos eg).
  assert (0 < inject_Z (Z.pos mf) * pow2 ef)%Q
    by (apply Qmult_lt_0_compat; [reflexivity|done]).
  assert (0 < inject_Z (Z.pos mg) * pow2 eg)%Q as Hden
    by (apply Qmult_lt_0_compat; [reflexivity|done]).
  assert (SF2Q (S754_finite sf mf ef) / SF2Q (S754_finite sg mg eg)
          == if xorb sf sg then - x else x)%Q as Hquot.
  { assert (0 < inject_Z (Z.pos mg))%Q by reflexivity.
    unfold x. cbn [SF2Q]. destruct sf, sg; cbn [xorb]; field; repeat split; lra. }
  assert (x < pow2 1023)%Q as Hxbig.
  { rewrite Hquot in Hbig. destruct (xorb sf sg); [rewrite Qabs_opp in Hbig|];
      rewrite Qabs_pos in Hbig; lra. }
  destruct (round_aux_spec (xorb sf sg) _ _ _ x Hq Hx Hloc He Hxbig) as [Hfin Hval].
  split; [done|]. rewrite Hval, (round_proper _ _ Hquot).
  destruct (xorb sf sg).
  + rewrite round_opp, round_of_pos by done. reflexivity.
  + rewrite round_of_pos by done. reflexivity.
Qed.

(** A positive multiple of its own last place is its own rounding. *)
Lemma round_pos_multiple x k :
  (0 < x)%Q → (x == inject_Z k * pow2 (fexp (mag x)))%Q → (round_pos x == x)%Q.
Proof.
  intros Hx Hk. unfold round_pos.
  assert (x / pow2 (fexp (mag x)) == inject_Z k)%Q as Hscaled.
  { pose proof (pow2_pos (fexp (mag x))). rewrite Hk at 1. by rewrite scaled_mantissa. }
  rewrite (RNE_proper _ _ Hscaled), RNE_Z. by rewrite <- Hk.
Qed.

(** The integers up to 2^53 are binary64 numbers. *)
Lemma round_integer z : (0 <= z <= 2 ^ 53)%Z → (round (inject_Z z) == inject_Z z)%Q.
Proof.
  intros [Hz0 Hz1]. destruct z as [|p|p]; [by rewrite round_of_zero| |lia].
  assert (0 < inject_Z (Z.pos p))%Q as Hpos by reflexivity.
  rewrite round_of_pos by done.
  assert (inject_Z (Z.pos p) == inject_Z (Z.pos p) * pow2 0)%Q as Hp by (rewrite pow2_0; ring).
  assert (mag (inject_Z (Z.pos p)) = Z.pos (digits2_pos p)) as Hmag.
  { rewrite (mag_proper _ _ Hp Hpos), mag_mantissa. lia. }
  pose proof (digits2_pos_spec p) as [Hd1 Hd2].
  set (d := Z.pos (digits2_pos p)) in *.
  destruct (Z.eq_dec (Z.pos p) (2 ^ 53)%Z) as [Heq|Hne].
  - apply (round_pos_multiple _ (2 ^ 52)%Z); [done|]. rewrite Hmag.
    assert (d = 54)%Z as ->.
    { rewrite Heq in Hd1, Hd2.
      assert (2 ^ (d - 1) < 2 ^ 54)%Z as H1 by lia.
      assert (2 ^ 53 < 2 ^ d)%Z as H2 by lia.
      apply Z.pow_lt_mono_r_iff in H1; [|lia|lia].
      apply Z.pow_lt_mono_r_iff in H2; lia. }
    rewrite Heq. by vm_compute.
  - assert (d <= 53)%Z as Hd by (apply digits2_pos_le; lia).
    apply (round_pos_multiple _ (Z.pos p * 2 ^ (53 - d))%Z); [done|]. rewrite Hmag.
    assert (fexp d = d - 53)%Z as -> by (unfold fexp; lia).
    rewrite inject_Z_mult, <- pow2_Z, <- Qmult_assoc, <- pow2_add by lia.
    replace (53 - d + (d - 53))%Z with 0%Z by lia. rewrite pow2_0. ring.
Qed.

(** *** The primitive operations *)

Lemma value_zero : finite PrimFloat.zero ∧ (value PrimFloat.zero == 0)%Q.
Proof. split; reflexivity. Qed.

Lemma big_enough x : (Qabs x <= pow2 53)%Q → (Qabs x < pow2 1023)%Q.
Proof.
  intros Hx. assert (pow2 53 < pow2 1023)%Q by (apply pow2_lt; lia). lra.
Qed.

Lemma value_add a b :
  finite a → finite b → (Qabs (value a + value b) < pow2 1023)%Q →
  finite (a + b) ∧ (value (a + b) == round (value a + value b))%Q.
Proof.
  intros Ha Hb Hbig. unfold finite, value. rewrite FloatAxioms.add_spec.
  apply SFadd_spec; auto using Prim2SF_valid.
Qed.

Lemma value_sub a b :
  finite a → finite b → (Qabs (value a - value b) < pow2 1023)%Q →
  finite (a - b) ∧ (value (a - b) == round (value a - value b))%Q.
Proof.
  intros Ha Hb Hbig. unfold finite, value. rewrite FloatAxioms.sub_spec.
  apply SFsub_spec; auto using Prim2SF_valid.
Qed.

Lemma value_mul a b :
  finite a → finite b → (Qabs (value a * value b) < pow2 1023)%Q →
  finite (a * b) ∧ (value (a * b) == round (value a * value b))%Q.
Proof.
  intros Ha Hb Hbig. unfold finite, value. rewrite FloatAxioms.mul_spec.
  apply SFmul_spec; auto using Prim2SF_valid.
Qed.

Lemma value_div a b :
  finite a → finite b → ¬ (value b == 0)%Q → (Qabs (value a / value b) < pow2 1023)%Q →
  finite (a / b) ∧ (value (a / b) == round (value a / value b))%Q.
Proof.
  intros Ha Hb Hnz Hbig. unfold finite, value. rewrite FloatAxioms.div_spec.
  apply SFdiv_spec; auto using Prim2SF_valid.
Qed.

Lemma round_value a : (round (value a) == value a)%Q.
Proof. apply round_valid, Prim2SF_valid. Qed.

(** [x > 0] on numbers. *)
Lemma value_gt_zero a : finite a → (PrimFloat.ltb PrimFloat.zero a = true ↔ (0 < value a)%Q).
Proof.
  unfold finite, value. rewrite FloatAxioms.ltb_spec.
  change (Prim2SF PrimFloat.zero) with (S754_zero false).
  destruct (Prim2SF a) as [s|s| |s m e]; try done.
  intros _. pose proof (pow2_pos e).
  assert (0 < inject_Z (Z.pos m) * pow2 e)%Q
    by (apply Qmult_lt_0_compat; [reflexivity|done]).
  unfold SFltb, SFcompare. cbn [SF2Q]. destruct s; split; try done; intros; lra.
Qed.

(** A count as a binary64 number. *)
Lemma value_of_Z z :
  (0 <= z <= 2 ^ 53)%Z →
  finite (Arithmetic.float_of_Z z) ∧ (value (Arithmetic.float_of_Z z) == inject_Z z)%Q.
Proof.
  intros Hz. unfold Arithmetic.float_of_Z. rewrite (proj2 (Z.ltb_ge z 0)) by lia.
  unfold finite, value. rewrite FloatAxioms.of_uint63_spec, Uint63.of_Z_spec.
  rewrite Z.mod_small by (change wB with (2 ^ 63)%Z; lia).
  assert (inject_Z z * pow2 0 == inject_Z z)%Q as Hz' by (rewrite pow2_0; ring).
  destruct (binary_normalize_spec z 0 false) as [Hfin Hval].
  { rewrite Hz'. apply big_enough. rewrite Qabs_pos, pow2_Z by
      (try (change 0%Q with (inject_Z 0); rewrite <- Zle_Qle); lia).
    rewrite <- Zle_Qle. lia. }
  split; [done|]. rewrite Hval, (round_proper _ _ Hz'). by apply round_integer.
Qed.

(** *** Comparison *)

(** Canonical mantissas are ordered as their exponents. *)
Lemma canonical_lt m1 e1 m2 e2 :
  fexp (Z.pos (digits2_pos m1) + e1) = e1 → fexp (Z.pos (digits2_pos m2) + e2) = e2 →
  (e1 < e2)%Z →
  (inject_Z (Z.pos m1) * pow2 e1 < inject_Z (Z.pos m2) * pow2 e2)%Q.
Proof.
  unfold fexp. intros H1 H2 He.
  pose proof (digits2_pos_spec m1) as [_ Hm1]. pose proof (digits2_pos_spec m2) as [Hm2 _].
  assert (Z.pos (digits2_pos m1) <= 53)%Z as Hd1 by lia.
  assert (Z.pos (digits2_pos m2) = 53)%Z as Hd2 by lia.
  rewrite Hd2 in Hm2. change (53 - 1)%Z with 52%Z in Hm2.
  assert (Z.pos m1 < 2 ^ 53)%Z as Hlt.
  { eapply Z.lt_le_trans; [exact Hm1|]. apply Z.pow_le_mono_r; lia. }
  assert (inject_Z (Z.pos m1) < pow2 53)%Q as Hq1 by (rewrite pow2_Z, <- Zlt_Qlt; lia).
  assert (pow2 52 <= inject_Z (Z.pos m2))%Q as Hq2 by (rewrite pow2_Z, <- Zle_Qle; lia).
  pose proof (pow2_pos e1) as Hp1. pose proof (pow2_pos e2) as Hp2.
  assert (inject_Z (Z.pos m1) * pow2 e1 < pow2 53 * pow2 e1)%Q as Ha
    by (by apply Qmult_lt_compat_r).
  assert (pow2 52 * pow2 e2 <= inject_Z (Z.pos m2) * pow2 e2)%Q as Hb
    by (apply Qmult_le_compat_r; lra).
  rewrite <- pow2_add in Ha, Hb.
  assert (pow2 (53 + e1) <= pow2 (52 + e2))%Q as Hc by (apply pow2_le; lia).
  lra.
Qed.

Lemma Qcompare_opp a b : (- a ?= - b)%Q = CompOpp (a ?= b)%Q.
Proof.
  destruct (a ?= b)%Q eqn:Hc; cbn [CompOpp].
  - rewrite <- Qeq_alt in Hc. rewrite <- Qeq_alt. by rewrite Hc.
  - rewrite <- Qlt_alt in Hc. rewrite <- Qgt_alt. lra.
  - rewrite <- Qgt_alt in Hc. rewrite <- Qlt_alt. lra.
Qed.

Lemma compare_canonical m1 e1 m2 e2 :
  fexp (Z.pos (digits2_pos m1) + e1) = e1 → fexp (Z.pos (digits2_pos m2) + e2) = e2 →
  match (e1 ?= e2)%Z with
  | Lt => Lt
  | Gt => Gt
  | Eq => Pos.compare_cont Eq m1 m2
  end = (inject_Z (Z.pos m1) * pow2 e1 ?= inject_Z (Z.pos m2) * pow2 e2)%Q.
Proof.
  intros H1 H2. symmetry. destruct (Z.compare_spec e1 e2) as [->|He|He].
  - pose proof (pow2_pos e2) as Hp. change (Pos.compare_cont Eq m1 m2) with (m1 ?= m2)%positive.
    destruct (Pos.compare_spec m1 m2) as [->|Hm|Hm].
    + by rewrite <- Qeq_alt.
    + rewrite <- Qlt_alt. apply Qmult_lt_compat_r; [done|]. rewrite <- Zlt_Qlt. lia.
    + rewrite <- Qgt_alt. apply Qmult_lt_compat_r; [done|]. rewrite <- Zlt_Qlt. lia.
  - rewrite <- Qlt_alt. by apply canonical_lt.
  - rewrite <- Qgt_alt. by apply canonical_lt.
Qed.

(** On numbers, the comparison of binary64 is that of their values. *)
Lemma SFcompare_spec f g :
  valid_binary f = true → valid_binary g = true →
  is_finite f = true → is_finite g = true →
  SFcompare f g = Some (SF2Q f ?= SF2Q g)%Q.
Proof.
  intros Hf Hg Hff Hfg.
  destruct f as [sf|sf| |sf mf ef]; try done;
    destruct g as [sg|sg| |sg mg eg]; try done; cbn [SFcompare SF2Q]; f_equal; symmetry.
  - pose proof (pow2_pos eg).
    assert (0 < inject_Z (Z.pos mg) * pow2 eg)%Q
      by (apply Qmult_lt_0_compat; [reflexivity|done]).
    destruct sg; [rewrite <- Qgt_alt|rewrite <- Qlt_alt]; lra.
  - pose proof (pow2_pos ef).
    assert (0 < inject_Z (Z.pos mf) * pow2 ef)%Q
      by (apply Qmult_lt_0_compat; [reflexivity|done]).
    destruct sf; [rewrite <- Qlt_alt|rewrite <- Qgt_alt]; lra.
  - destruct (valid_canonical _ _ _ Hf) as [Hcf _], (valid_canonical _ _ _ Hg) as [Hcg _].
    pose proof (pow2_pos ef). pose proof (pow2_pos eg).
    assert (0 < inject_Z (Z.pos mf) * pow2 ef)%Q
      by (apply Qmult_lt_0_compat; [reflexivity|done]).
    assert (0 < inject_Z (Z.pos mg) * pow2 eg)%Q
      by (apply Qmult_lt_0_compat; [reflexivity|done]).
    destruct sf, sg.
    + rewrite Qcompare_opp, <- (compare_canonical _ _ _ _ Hcf Hcg).
      by destruct (ef ?= eg)%Z.
    + rewrite <- Qlt_alt. lra.
    + rewrite <- Qgt_alt. lra.
    + by rewrite <- (compare_canonical _ _ _ _ Hcf Hcg).
Qed.

(** [a <= b] on numbers. *)
Lemma value_leb a b :
  finite a → finite b → (PrimFloat.leb a b = true ↔ (value a <= value b)%Q).
Proof.
  unfold finite, value. intros Ha Hb.
  rewrite FloatAxioms.leb_spec. unfold SFleb.
  rewrite SFcompare_spec by auto using Prim2SF_valid.
  rewrite Qle_alt. by destruct (_ ?= _)%Q.
Qed.

Lemma value_one : finite PrimFloat.one ∧ (value PrimFloat.one == 1)%Q.
Proof. split; by vm_compute. Qed.

Lemma value_minus_one :
  finite (PrimFloat.opp PrimFloat.one) ∧ (value (PrimFloat.opp PrimFloat.one) == -1)%Q.
Proof. split; by vm_compute. Qed.

(** [0.0 <= x <= 1.0] holds of the numbers between 0 and 1, and of no
    infinity and no NaN. *)
Lemma leb_unit x :
  PrimFloat.leb PrimFloat.zero x = true ∧ PrimFloat.leb x PrimFloat.one = true
  ↔ finite x ∧ (0 <= value x)%Q ∧ (value x <= 1)%Q.
Proof.
  destruct value_zero as [H0 V0], value_one as [H1 V1].
  rewrite <- V0, <- V1. split.
  - intros [Hlo Hhi].
    assert (finite x) as Hx.
    { rewrite FloatAxioms.leb_spec in Hlo, Hhi. unfold finite.
      change (Prim2SF PrimFloat.zero) with (S754_zero false) in Hlo.
      destruct (Prim2SF x) as [s|[]| |s m e]; done. }
    split; [done|]. apply (value_leb _ _ H0 Hx) in Hlo. apply (value_leb _ _ Hx H1) in Hhi.
    split; [exact Hlo|exact Hhi].
  - intros (Hx & Hlo & Hhi). split.
    + by apply (value_leb _ _ H0 Hx).
    + by apply (value_leb _ _ Hx H1).
Qed.

(** [-1.0 <= x <= 1.0] holds of the numbers between -1 and 1. *)
Lemma leb_signed_unit x :
  finite x → (-1 <= value x)%Q → (value x <= 1)%Q →
  PrimFloat.leb (PrimFloat.opp PrimFloat.one) x = true ∧ PrimFloat.leb x PrimFloat.one = true.
Proof.
  destruct value_minus_one as [H0 V0], value_one as [H1 V1].
  rewrite <- V0, <- V1. intros Hx Hlo Hhi. split.
  - by apply (value_leb _ _ H0 Hx).
  - by apply (value_leb _ _ Hx H1).
Qed.

(** *** Literals and small magnitudes *)

Lemma round_quarter : (round (1 # 4) == 1 # 4)%Q.
Proof. by vm_compute. Qed.

(** A decimal literal of at most fifteen digits is the number nearest to
    it. *)
Lemma value_lit q :
  (0 <= Qnum q <= 10 ^ 15)%Z → (Z.pos (Qden q) <= 10 ^ 15)%Z →
  finite (Arithmetic.lit q) ∧ (value (Arithmetic.lit q) == round q)%Q.
Proof.
  intros Hn Hd. cbn [Arithmetic.lit Arithmetic.binary64].
  assert (10 ^ 15 <= 2 ^ 53)%Z as Hbig by (by vm_compute).
  destruct (value_of_Z (Qnum q)) as [Hfn Hvn]; [lia|].
  destruct (value_of_Z (Z.pos (Qden q))) as [Hfd Hvd]; [lia|].
  assert (0 < inject_Z (Z.pos (Qden q)))%Q as Hpos by reflexivity.
  assert (q == inject_Z (Qnum q) / inject_Z (Z.pos (Qden q)))%Q as Hq.
  { destruct q as [n d]. cbn [Qnum Qden]. apply Qmake_Qdiv. }
  assert (0 <= inject_Z (Qnum q))%Q as Hn0
    by (change 0%Q with (inject_Z 0); rewrite <- Zle_Qle; lia).
  assert (inject_Z (Qnum q) <= pow2 53)%Q as Hn1
    by (rewrite pow2_Z, <- Zle_Qle; lia).
  assert (1 <= inject_Z (Z.pos (Qden q)))%Q as Hd1
    by (change 1%Q with (inject_Z 1); rewrite <- Zle_Qle; lia).
  destruct (value_div (Arithmetic.float_of_Z (Qnum q))
              (Arithmetic.float_of_Z (Z.pos (Qden q)))) as [Hf Hv]; try done.
  - rewrite Hvd. lra.
  - rewrite Hvn, Hvd. apply big_enough. rewrite Qabs_pos.
    + apply Qle_shift_div_r; [done|].
      assert (pow2 53 * 1 <= pow2 53 * inject_Z (Z.pos (Qden q)))%Q
        by (apply Qmult_le_l; [apply pow2_pos|done]).
      lra.
    + apply Qle_shift_div_l; [done|]. lra.
  - split; [done|]. rewrite Hv. apply round_proper. rewrite Hvn, Hvd. symmetry. exact Hq.
Qed.

(** *** Binary64 is an arithmetic with rounding *)

#[global] Instance binary64_rounded : Arithmetic.Rounded float.
Proof.
  refine {| Arithmetic.val := value; Arithmetic.number := finite;
            Arithmetic.small := λ x, (Qabs x <= pow2 53)%Q;
            Arithmetic.rnd := round |}.
  - intros x y Hxy Hy. lra.
  - by vm_compute.
  - apply round_mono.
  - apply round_opp.
  - intros a _. apply round_value.
  - apply round_quarter.
  - apply value_zero.
  - intros n Hn. apply value_of_Z. split; [lia|].
    rewrite Qabs_pos, pow2_Z in Hn
      by (try (change 0%Q with (inject_Z 0); rewrite <- Zle_Qle); lia).
    by rewrite <- Zle_Qle in Hn.
  - apply value_lit.
  - intros a b Ha Hb Hs. apply value_add; [done|done|by apply big_enough].
  - intros a b Ha Hb Hs. apply value_sub; [done|done|by apply big_enough].
  - intros a b Ha Hb Hs. apply value_mul; [done|done|by apply big_enough].
  - intros a b Ha Hb Hnz Hs. apply value_div; [done|done|done|by apply big_enough].
  - apply value_gt_zero.
Defined.

End Binary64Facts.

Module AnalyzerFacts.
Import Arithmetic Analyzer.

Lemma elem_of_unique_from seen l x :
  x ∈ unique_from seen l ↔ x ∈ l ∧ x ∉ seen.
Proof.
  revert seen. induction l as [|y l IH]; intros seen; simpl.
  - rewrite elem_of_nil. tauto.
  - case_bool_decide as Hy.
    + rewrite IH, elem_of_cons. split; [tauto|].
      intros [[->|Hx] Hs]; tauto.
    + rewrite !elem_of_cons, IH, elem_of_cons. split.
      * intros [->|[Hx Hs]]; tauto.
      * destruct (decide (x = y)) as [->|Hne]; tauto.
Qed.

Lemma NoDup_unique_from seen l : NoDup (unique_from seen l).
Proof.
  revert seen. induction l as [|y l IH]; intros seen; simpl.
  - constructor.
  - case_bool_decide; [apply IH|].
    constructor; [|apply IH].
    rewrite elem_of_unique_from, elem_of_cons. tauto.
Qed.

Lemma elem_of_unique l x : x ∈ unique l ↔ x ∈ l.
Proof.
  unfold unique. rewrite elem_of_unique_from, elem_of_nil. tauto.
Qed.

Section AnyArithmetic.

Context {F : Type} {arith : Arith F}.
Implicit Types df : list (ScoredRow F).

Lemma unique_enumerates df : enumerates (unique (source <$> df)) df.
Proof.
  split; [apply NoDup_unique_from|].
  intros s. rewrite elem_of_unique, list_elem_of_fmap. naive_solver.
Qed.

Lemma enumerates_perm groups df :
  enumerates groups df → groups ≡ₚ unique (source <$> df).
Proof.
  intros [Hnd Hin]. apply NoDup_Permutation; [done|apply NoDup_unique_from|].
  intros s. rewrite Hin. symmetry. apply (unique_enumerates df).
Qed.

Lemma unique_nonempty df : df ≠ [] → unique (source <$> df) ≠ [].
Proof.
  destruct df as [|r df]; [done|]. intros _ Hnil.
  assert (source r ∈ unique (source <$> (r :: df))) as Hin.
  { apply elem_of_unique. rewrite fmap_cons. apply elem_of_cons. by left. }
  rewrite Hnil in Hin. by apply elem_of_nil in Hin.
Qed.

Lemma rows_of_source_nonempty df s :
  s ∈ unique (source <$> df) → rows_of_source s df ≠ [].
Proof.
  intros Hs. apply elem_of_unique, list_elem_of_fmap in Hs as (r & -> & Hr).
  intros Hnil. assert (r ∈ rows_of_source (source r) df) as Hin.
  { apply list_elem_of_filter. by split. }
  rewrite Hnil in Hin. by apply elem_of_nil in Hin.
Qed.

(** With one source only, the dict of lines 63-68 has one entry. *)
Lemma single_source_sentiments df s :
  df ≠ [] → (∀ r, r ∈ df → source r = s) →
  rows_of_source s df = df ∧ source_sentiments df = [(s, net_sentiment df)].
Proof.
  intros Hne Hall.
  assert (rows_of_source s df = df) as Hrows.
  { unfold rows_of_source. clear Hne. induction df as [|r df IH]; [done|].
    rewrite filter_cons_True by (apply Hall, elem_of_cons; by left).
    f_equal. apply IH. intros r' Hr'. apply Hall, elem_of_cons. by right. }
  split; [done|].
  assert (unique (source <$> df) = [s]) as Huniq.
  { assert (∀ l : list string, (∀ x, x ∈ l → x = s) → unique_from [s] l = []) as Hseen.
    { induction l as [|x l IH]; intros Hl; [done|]. cbn [unique_from].
      rewrite bool_decide_eq_true_2.
      - apply IH. intros y Hy. apply Hl, elem_of_cons. by right.
      - rewrite (Hl x) by (apply elem_of_cons; by left). apply elem_of_cons. by left. }
    destruct df as [|r df]; [done|]. rewrite fmap_cons. unfold unique. cbn [unique_from].
    rewrite bool_decide_eq_false_2 by apply not_elem_of_nil.
    rewrite (Hall r) by (apply elem_of_cons; by left). f_equal. apply Hseen.
    intros x (r' & -> & Hr')%list_elem_of_fmap. apply Hall, elem_of_cons. by right. }
  unfold source_sentiments. rewrite Huniq. cbn [fmap list_fmap]. by rewrite Hrows.
Qed.

(** The loop of lines 80-83 keeps two running sums over the sources, in
    order of first appearance. *)
Lemma weighted_totals_from (f : string → F) (groups : list string) (acc : F * F) :
  fold_left
    (λ (acc : F * F) (item : string * F),
       let weight := weight_of item.1 in
       (add acc.1 (mul item.2 weight), add acc.2 weight))
    ((λ s, (s, f s)) <$> groups) acc
  = (fold_left (λ a s, add a (mul (f s) (weight_of s))) groups acc.1,
     fold_left (λ a s, add a (weight_of s)) groups acc.2).
Proof.
  revert acc. induction groups as [|s groups IH]; intros acc; [by destruct acc|].
  rewrite fmap_cons. cbn [fold_left]. by rewrite IH.
Qed.

(** In every arithmetic the index of a non-empty collection is the
    quotient of the two running sums, each operation being that of the
    arithmetic. *)
Lemma index_as_computed df :
  df ≠ [] →
  calculate_weighted_sentiment df
  = let weighted_sum :=
      fold_left
        (λ a s, add a (mul (net_sentiment (rows_of_source s df)) (weight_of s)))
        (unique (source <$> df)) zero in
    let total_weight :=
      fold_left (λ a s, add a (weight_of s)) (unique (source <$> df)) zero in
    if gt_zero total_weight then div weighted_sum total_weight else zero.
Proof.
  intros Hne. unfold calculate_weighted_sentiment, weighted_average, weighted_totals,
    source_sentiments.
  rewrite bool_decide_eq_false_2 by done.
  by rewrite (weighted_totals_from (λ s, net_sentiment (rows_of_source s df))).
Qed.

End AnyArithmetic.

(** *** Exact arithmetic *)

Lemma Qsum_cons x l : Qsum (x :: l) = (x + Qsum l)%Q.
Proof. reflexivity. Qed.

Lemma Qsum_perm (l k : list Q) : l ≡ₚ k → (Qsum l == Qsum k)%Q.
Proof.
  induction 1; simpl; lra.
Qed.

Lemma weight_of_spec s : (weight_of s == spec_weight s)%Q.
Proof.
  unfold weight_of, spec_weight, weights.
  case_bool_decide as H1.
  { subst. rewrite lookup_insert_eq. reflexivity. }
  rewrite lookup_insert_ne by done.
  case_bool_decide as H2.
  { subst. rewrite lookup_insert_eq. reflexivity. }
  rewrite lookup_insert_ne by done. rewrite lookup_empty. reflexivity.
Qed.

Lemma spec_weight_pos s : (0 < spec_weight s)%Q.
Proof. unfold spec_weight. repeat case_bool_decide; reflexivity. Qed.

(** The loop of lines 80-83 started from any pair of accumulators. *)
Lemma totals_from (items : list (string * Q)) (acc : Q * Q) :
  let r := fold_left
    (λ acc item,
       let weight := weight_of item.1 in
       (add acc.1 (mul item.2 weight), add acc.2 weight)) items acc in
  (r.1 == acc.1 + Qsum ((λ it, it.2 * spec_weight it.1) <$> items))%Q ∧
  (r.2 == acc.2 + Qsum ((λ it, spec_weight it.1) <$> items))%Q.
Proof.
  revert acc. induction items as [|it items IH]; intros acc.
  - simpl. split; lra.
  - rewrite !fmap_cons. cbn [fold_left]. rewrite !Qsum_cons.
    destruct (IH (add acc.1 (mul it.2 (weight_of it.1)), add acc.2 (weight_of it.1)))
      as [H1 H2].
    cbn [fst snd add mul exact] in H1, H2. rewrite H1, H2, !weight_of_spec. split; ring.
Qed.

Lemma weighted_totals_sums (items : list (string * Q)) :
  ((weighted_totals items).1 == Qsum ((λ it, it.2 * spec_weight it.1) <$> items))%Q ∧
  ((weighted_totals items).2 == Qsum ((λ it, spec_weight it.1) <$> items))%Q.
Proof.
  unfold weighted_totals. destruct (totals_from items (0%Q, 0%Q)) as [H1 H2].
  cbn [fst snd] in H1, H2. cbn [zero exact]. rewrite H1, H2. split; lra.
Qed.

Lemma Qsum_weights_pos (groups : list string) :
  groups ≠ [] → (0 < Qsum (spec_weight <$> groups))%Q.
Proof.
  intros Hne. assert (∀ l : list string, 0 <= Qsum (spec_weight <$> l))%Q as Hnn.
  { induction l as [|s l IH]; [simpl; lra|].
    rewrite fmap_cons, Qsum_cons. pose proof (spec_weight_pos s). lra. }
  destruct groups as [|s l]; [done|]. rewrite fmap_cons, Qsum_cons.
  pose proof (spec_weight_pos s). pose proof (Hnn l). lra.
Qed.

Lemma source_sentiments_products (df : list (ScoredRow Q)) :
  (λ it : string * Q, (it.2 * spec_weight it.1)%Q) <$> source_sentiments df
  = (λ s, (net_sentiment (rows_of_source s df) * spec_weight s)%Q) <$> unique (source <$> df).
Proof. unfold source_sentiments. rewrite <- list_fmap_compose. reflexivity. Qed.

Lemma source_sentiments_weights (df : list (ScoredRow Q)) :
  (λ it : string * Q, spec_weight it.1) <$> source_sentiments df
  = spec_weight <$> unique (source <$> df).
Proof. unfold source_sentiments. rewrite <- list_fmap_compose. reflexivity. Qed.

(** The code's index is the quotient of the two sums over the sources in
    order of first appearance. *)
Lemma index_unfold (df : list (ScoredRow Q)) :
  df ≠ [] →
  (calculate_weighted_sentiment df ==
   Qsum ((λ s, net_sentiment (rows_of_source s df) * spec_weight s) <$> unique (source <$> df))
   / Qsum (spec_weight <$> unique (source <$> df)))%Q.
Proof.
  intros Hne. unfold calculate_weighted_sentiment, weighted_average.
  rewrite bool_decide_eq_false_2 by done.
  destruct (weighted_totals_sums (source_sentiments df)) as [H1 H2].
  rewrite source_sentiments_products in H1. rewrite source_sentiments_weights in H2.
  destruct (weighted_totals (source_sentiments df)) as [weighted_sum total_weight].
  cbn [fst snd] in H1, H2.
  pose proof (Qsum_weights_pos _ (unique_nonempty df Hne)) as Hpos.
  cbn [gt_zero div zero exact].
  destruct (Qlt_le_dec 0 total_weight) as [_|Hle].
  - rewrite H1, H2. reflexivity.
  - rewrite H2 in Hle. lra.
Qed.

Lemma index_refines_spec (df : list (ScoredRow Q)) groups :
  enumerates groups df →
  (calculate_weighted_sentiment df == spec_weighted_index groups df)%Q.
Proof.
  intros Henum. pose proof (enumerates_perm _ _ Henum) as Hperm.
  destruct df as [|r df].
  - simpl in Hperm. apply Permutation_nil_r in Hperm. subst groups. reflexivity.
  - rewrite index_unfold by done.
    assert (groups ≠ []) as Hg.
    { intros ->. apply Permutation_nil_l in Hperm. by apply (unique_nonempty (r :: df)). }
    unfold spec_weighted_index. destruct groups as [|g groups]; [done|].
    rewrite (Qsum_perm _ _ (fmap_Permutation
      (λ s, (net_sentiment (rows_of_source s (r :: df)) * spec_weight s)%Q) _ _ Hperm)).
    rewrite (Qsum_perm _ _ (fmap_Permutation spec_weight _ _ Hperm)).
    reflexivity.
Qed.

(** *** Arithmetic with rounding *)

Lemma length_unique_from seen l : (length (unique_from seen l) <= length l)%nat.
Proof.
  revert seen. induction l as [|x l IH]; intros seen; cbn [unique_from length]; [done|].
  case_bool_decide.
  - pose proof (IH seen). lia.
  - cbn [length]. pose proof (IH (x :: seen)). lia.
Qed.

Section Rounding.

Context {F : Type} {arith : Arith F} {rounded : Rounded F}.
Implicit Types df : list (ScoredRow F).

Lemma rnd_proper x y : (x == y)%Q → (rnd x == rnd y)%Q.
Proof.
  intros Hxy. apply Qle_antisym; apply rnd_mono; lra.
Qed.

Lemma rnd_zero : (rnd 0 == 0)%Q.
Proof.
  destruct val_zero as [Hn Hv]. rewrite <- (rnd_proper _ _ Hv), (rnd_val _ Hn). exact Hv.
Qed.

(** What lies between minus and plus a small magnitude is small. *)
Lemma small_below (n x : Q) : small n → (- n <= x)%Q → (x <= n)%Q → small x.
Proof.
  intros Hn H1 H2. apply (small_le x n); [|done].
  apply Qle_trans with n; [by apply Qabs_Qle_condition|apply Qle_Qabs].
Qed.

Lemma small_unit (x : Q) : (-1 <= x)%Q → (x <= 1)%Q → small x.
Proof. intros H1 H2. apply (small_below 1); [exact small_one|lra|lra]. Qed.

Lemma small_count (n m : nat) :
  (n <= m)%nat → small (inject_Z (Z.of_nat m)) → small (inject_Z (Z.of_nat n)).
Proof.
  intros Hnm Hm.
  assert (0 <= inject_Z (Z.of_nat n))%Q
    by (change 0%Q with (inject_Z 0); rewrite <- Zle_Qle; lia).
  assert (inject_Z (Z.of_nat n) <= inject_Z (Z.of_nat m))%Q by (rewrite <- Zle_Qle; lia).
  apply (small_below (inject_Z (Z.of_nat m))); [done|lra|lra].
Qed.

Lemma rnd_of_nat n :
  small (inject_Z (Z.of_nat n)) →
  (rnd (inject_Z (Z.of_nat n)) == inject_Z (Z.of_nat n))%Q.
Proof.
  intros Hs. destruct (val_of_nat n Hs) as [Hn Hv].
  rewrite <- (rnd_proper _ _ Hv), (rnd_val _ Hn). exact Hv.
Qed.

Lemma rnd_one : (rnd 1 == 1)%Q.
Proof. apply (rnd_of_nat 1). exact small_one. Qed.

Lemma rnd_minus_one : (rnd (-1) == -1)%Q.
Proof.
  change (rnd (- (1)) == - (1))%Q. rewrite rnd_opp, rnd_one. reflexivity.
Qed.

(** Rounding keeps a result between two values of the arithmetic. *)
Lemma rnd_between (lo hi x : Q) :
  (rnd lo == lo)%Q → (rnd hi == hi)%Q → (lo <= x)%Q → (x <= hi)%Q →
  (lo <= rnd x)%Q ∧ (rnd x <= hi)%Q.
Proof.
  intros Hlo Hhi H1 H2. pose proof (rnd_mono _ _ H1). pose proof (rnd_mono _ _ H2).
  split; lra.
Qed.

Lemma inject_Z_succ (k : nat) :
  (inject_Z (Z.of_nat (S k)) == inject_Z (Z.of_nat k) + 1)%Q.
Proof. rewrite Nat2Z.inj_succ, <- Z.add_1_r, inject_Z_plus. reflexivity. Qed.

(** However a column of numbers in [0,1] is added up, the sum is a number
    between 0 and the count of the terms. *)
Lemma adds_up_unit_bounds (l : list F) (x : F) :
  adds_up l x →
  Forall (λ x, number x ∧ (0 <= val x)%Q ∧ (val x <= 1)%Q) l →
  small (inject_Z (Z.of_nat (length l))) →
  number x ∧ (0 <= val x)%Q ∧ (val x <= inject_Z (Z.of_nat (length l)))%Q.
Proof.
  induction 1 as [|x|l1 l2 a b H1 IH1 H2 IH2|l l' a Hp H IH]; intros Hall Hs.
  - destruct val_zero as [Hz Hv]. split; [done|]. rewrite Hv. split; apply Qle_refl.
  - apply Forall_cons in Hall as [(Hn & H0 & H1) _]. by repeat split.
  - apply Forall_app in Hall as [Hall1 Hall2]. rewrite length_app in Hs |- *.
    destruct IH1 as (Hna & Ha0 & Ha1);
      [done|apply (small_count _ (length l1 + length l2)); [lia|done]|].
    destruct IH2 as (Hnb & Hb0 & Hb1);
      [done|apply (small_count _ (length l1 + length l2)); [lia|done]|].
    assert (inject_Z (Z.of_nat (length l1 + length l2))
            == inject_Z (Z.of_nat (length l1)) + inject_Z (Z.of_nat (length l2)))%Q as Hsum
      by (by rewrite Nat2Z.inj_add, inject_Z_plus).
    destruct (val_add a b Hna Hnb) as [Hn Hv].
    { apply (small_below (inject_Z (Z.of_nat (length l1 + length l2)))); [done|lra|lra]. }
    split; [done|]. rewrite Hv.
    apply (rnd_between 0 (inject_Z (Z.of_nat (length l1 + length l2))));
      [apply rnd_zero|by apply rnd_of_nat|lra|lra].
  - rewrite <- (Permutation_length Hp). apply IH.
    + by rewrite Hp.
    + by rewrite (Permutation_length Hp).
Qed.

(** Adding from the left is one way of summing. *)
Lemma fold_left_adds_up (l l0 : list F) (acc : F) :
  adds_up l0 acc → adds_up (l0 ++ l) (fold_left add l acc).
Proof.
  revert l0 acc. induction l as [|x l IH]; intros l0 acc Hacc.
  - by rewrite app_nil_r.
  - cbn [fold_left]. rewrite cons_middle, app_assoc. apply IH.
    apply adds_up_app; [done|apply adds_up_one].
Qed.

Lemma sum_summation : summation sum.
Proof. intros l. apply (fold_left_adds_up l [] zero), adds_up_nil. Qed.

(** [Series.mean()] of numbers in [0,1] is a number in [0,1]. *)
Lemma mean_unit_bounds (total : list F → F) (l : list F) :
  summation total →
  l ≠ [] → Forall (λ x, number x ∧ (0 <= val x)%Q ∧ (val x <= 1)%Q) l →
  small (inject_Z (Z.of_nat (length l))) →
  number (mean_with total l)
  ∧ (0 <= val (mean_with total l))%Q ∧ (val (mean_with total l) <= 1)%Q.
Proof.
  intros Htotal Hne Hall Hs. unfold mean_with.
  destruct (adds_up_unit_bounds l (total l) (Htotal l) Hall Hs) as (Hn & H0 & H1).
  assert (0 < inject_Z (Z.of_nat (length l)))%Q as Hlen.
  { destruct l; [done|]. change 0%Q with (inject_Z 0). rewrite <- Zlt_Qlt.
    cbn [length]. lia. }
  destruct (val_of_nat (length l) Hs) as [Hnn Hvn].
  set (n := of_nat (length l)) in *.
  assert (0 <= val (total l) / val n ∧ val (total l) / val n <= 1)%Q as [Hq0 Hq1].
  { rewrite Hvn. split; [apply Qle_shift_div_l|apply Qle_shift_div_r]; lra. }
  destruct (val_div (total l) n Hn Hnn) as [Hnd Hvd].
  { rewrite Hvn. lra. }
  { apply small_unit; lra. }
  split; [done|]. rewrite Hvd.
  by apply (rnd_between 0 1); [apply rnd_zero|apply rnd_one| |].
Qed.

Lemma net_sentiment_bounds (total : list F → F) (source_df : list (ScoredRow F)) :
  summation total →
  source_df ≠ [] → scored source_df →
  small (inject_Z (Z.of_nat (length source_df))) →
  number (net_sentiment_with total source_df)
  ∧ (-1 <= val (net_sentiment_with total source_df))%Q
  ∧ (val (net_sentiment_with total source_df) <= 1)%Q.
Proof.
  intros Htotal Hne Hsc Hs. unfold net_sentiment_with.
  assert ((positive <$> source_df) ≠ [] ∧ (negative <$> source_df) ≠ []) as [Hp Hn].
  { destruct source_df; [done|]. split; discriminate. }
  assert (Forall (λ x, number x ∧ (0 <= val x)%Q ∧ (val x <= 1)%Q) (positive <$> source_df))
    as Hpa.
  { apply Forall_fmap, Forall_forall. intros r Hr. by destruct (Hsc r Hr) as [? _]. }
  assert (Forall (λ x, number x ∧ (0 <= val x)%Q ∧ (val x <= 1)%Q) (negative <$> source_df))
    as Hna.
  { apply Forall_fmap, Forall_forall. intros r Hr. by destruct (Hsc r Hr) as [_ ?]. }
  destruct (mean_unit_bounds total _ Htotal Hp Hpa) as (Hnp & Hp0 & Hp1);
    [by rewrite length_fmap|].
  destruct (mean_unit_bounds total _ Htotal Hn Hna) as (Hnn & Hn0 & Hn1);
    [by rewrite length_fmap|].
  destruct (val_sub _ _ Hnp Hnn) as [Hns Hvs]; [apply small_unit; lra|].
  split; [done|]. rewrite Hvs.
  apply (rnd_between (-1) 1); [apply rnd_minus_one|apply rnd_one| |]; lra.
Qed.

Lemma group_bounds (total : list F → F) df s :
  summation total →
  scored df → small (inject_Z (Z.of_nat (length df))) → s ∈ unique (source <$> df) →
  number (net_sentiment_with total (rows_of_source s df))
  ∧ (-1 <= val (net_sentiment_with total (rows_of_source s df)))%Q
  ∧ (val (net_sentiment_with total (rows_of_source s df)) <= 1)%Q.
Proof.
  intros Htotal Hsc Hsmall Hs. apply net_sentiment_bounds; [done| | |].
  - by apply rows_of_source_nonempty.
  - intros r' Hr'. apply list_elem_of_filter in Hr' as [_ Hr']. by apply Hsc.
  - apply (small_count _ (length df)); [|done]. apply length_filter.
Qed.

(** Each weight is a number between 1/4 and 1. *)
Lemma weight_of_bounds s :
  number (weight_of s) ∧ (1 # 4 <= val (weight_of s))%Q ∧ (val (weight_of s) <= 1)%Q.
Proof.
  assert (∀ q, (0 <= Qnum q <= 10 ^ 15)%Z → (Z.pos (Qden q) <= 10 ^ 15)%Z →
               (1 # 4 <= q)%Q → (q <= 1)%Q →
               number (lit q) ∧ (1 # 4 <= val (lit q))%Q ∧ (val (lit q) <= 1)%Q) as Hlit.
  { intros q Hn Hd Hq0 Hq1. destruct (val_lit q Hn Hd) as [Hnum Hv]. split; [done|].
    rewrite Hv. by apply rnd_between; [apply rnd_quarter|apply rnd_one| |]. }
  unfold weight_of, weights.
  destruct (decide (s = "Financial News")) as [->|H1].
  { rewrite lookup_insert_eq. by apply Hlit. }
  rewrite lookup_insert_ne by done.
  destruct (decide (s = "WallStreetBets")) as [->|H2].
  { rewrite lookup_insert_eq. by apply Hlit. }
  rewrite lookup_insert_ne by done. rewrite lookup_empty. by apply Hlit.
Qed.

(** The loop of lines 80-83 keeps the weighted sum between minus and plus
    the total weight; the total weight is at most the count of the sources
    met and grows past 1/4. *)
Lemma totals_bounds (items : list (string * F)) (acc : F * F) (k : nat) :
  Forall (λ it, number it.2 ∧ (-1 <= val it.2)%Q ∧ (val it.2 <= 1)%Q) items →
  small (inject_Z (Z.of_nat (k + length items))) →
  number acc.1 → number acc.2 →
  (0 <= val acc.2)%Q → (val acc.2 <= inject_Z (Z.of_nat k))%Q →
  (- val acc.2 <= val acc.1)%Q → (val acc.1 <= val acc.2)%Q →
  let r := fold_left
    (λ acc item,
       let weight := weight_of item.1 in
       (add acc.1 (mul item.2 weight), add acc.2 weight)) items acc in
  number r.1 ∧ number r.2
  ∧ (- val r.2 <= val r.1)%Q ∧ (val r.1 <= val r.2)%Q
  ∧ (items ≠ [] → 1 # 4 <= val r.2)%Q.
Proof.
  intros Hall. revert acc k.
  induction Hall as [|it items (Hit & Hlo & Hhi) _ IH]; intros acc k Hs Hn1 Hn2 H0 Hk H1 H2.
  - cbn [fold_left]. by repeat split.
  - cbn [fold_left length] in *.
    replace (k + S (length items))%nat with (S k + length items)%nat in Hs by lia.
    pose proof (inject_Z_succ k) as HS.
    assert (small (inject_Z (Z.of_nat (S k)))) as HsS
      by (apply (small_count _ (S k + length items)); [lia|done]).
    destruct (weight_of_bounds it.1) as (Hnw & Hw0 & Hw1).
    set (w := weight_of it.1) in *.
    assert (-1 * val w <= val it.2 * val w)%Q as Hp0 by (apply Qmult_le_compat_r; lra).
    assert (val it.2 * val w <= 1 * val w)%Q as Hp1 by (apply Qmult_le_compat_r; lra).
    destruct (val_mul it.2 w Hit Hnw) as [Hnm Hvm]; [apply small_unit; lra|].
    assert (- val w <= val (mul it.2 w) ∧ val (mul it.2 w) <= val w)%Q as [Hm1 Hm2].
    { rewrite Hvm.
      assert (rnd (- val w) == - val w)%Q as Hneg by (by rewrite rnd_opp, rnd_val).
      apply (rnd_between (- val w) (val w)); [done|by apply rnd_val|lra|lra]. }
    destruct (val_add acc.2 w Hn2 Hnw) as [Hnt Hvt].
    { apply (small_below (inject_Z (Z.of_nat (S k)))); [done|lra|lra]. }
    destruct (val_add acc.1 (mul it.2 w) Hn1 Hnm) as [Hns Hvs].
    { apply (small_below (inject_Z (Z.of_nat (S k)))); [done|lra|lra]. }
    assert (1 # 4 <= val (add acc.2 w))%Q as Hq.
    { rewrite Hvt. assert (val w <= val acc.2 + val w)%Q as Hle by lra.
      pose proof (rnd_mono _ _ Hle) as Hr. rewrite (rnd_val _ Hnw) in Hr. lra. }
    assert (val (add acc.2 w) <= inject_Z (Z.of_nat (S k)))%Q as Htop.
    { rewrite Hvt, <- (rnd_of_nat (S k) HsS). apply rnd_mono. lra. }
    assert (val (add acc.1 (mul it.2 w)) <= val (add acc.2 w))%Q as Hup.
    { rewrite Hvs, Hvt. apply rnd_mono. lra. }
    assert (- val (add acc.2 w) <= val (add acc.1 (mul it.2 w)))%Q as Hdown.
    { rewrite Hvs, Hvt, <- rnd_opp. apply rnd_mono. lra. }
    destruct (IH (add acc.1 (mul it.2 w), add acc.2 w) (S k))
      as (R1 & R2 & R3 & R4 & R5); cbn [fst snd]; try done; try lra.
    repeat split; try done. intros _.
    destruct items as [|it' items'].
    + cbn [fold_left snd]. exact Hq.
    + apply R5. discriminate.
Qed.

Lemma source_sentiments_bounds (total : list F → F) df :
  summation total →
  scored df → small (inject_Z (Z.of_nat (length df))) →
  Forall (λ it : string * F, number it.2 ∧ (-1 <= val it.2)%Q ∧ (val it.2 <= 1)%Q)
    (source_sentiments_with total df).
Proof.
  intros Htotal Hsc Hs. unfold source_sentiments_with. apply Forall_fmap, Forall_forall.
  intros s Hin. cbn [snd]. by apply group_bounds.
Qed.

(** In an arithmetic with rounding the index of a non-empty collection of
    small length, with scores in [0,1], is a number in [-1,1], however the
    columns are summed. *)
Lemma rounded_index_bounded (total : list F → F) df :
  summation total →
  df ≠ [] → scored df → small (inject_Z (Z.of_nat (length df))) →
  number (calculate_weighted_sentiment_with total df)
  ∧ (-1 <= val (calculate_weighted_sentiment_with total df))%Q
  ∧ (val (calculate_weighted_sentiment_with total df) <= 1)%Q.
Proof.
  intros Htotal Hne Hsc Hs.
  unfold calculate_weighted_sentiment_with, weighted_average, weighted_totals.
  rewrite bool_decide_eq_false_2 by done. destruct val_zero as [Hz Hvz].
  destruct (totals_bounds (source_sentiments_with total df) (zero, zero) 0
              (source_sentiments_bounds total df Htotal Hsc Hs))
    as (R1 & R2 & R3 & R4 & R5);
    cbn [fst snd Nat.add]; try done; try (rewrite Hvz; lra);
    try (rewrite Hvz; apply Qle_refl).
  { apply (small_count _ (length df)); [|done]. unfold source_sentiments_with, unique.
    rewrite length_fmap. etrans; [apply length_unique_from|]. by rewrite length_fmap. }
  destruct (fold_left _ (source_sentiments_with total df) (zero, zero))
    as [weighted_sum total_weight].
  cbn [fst snd] in R1, R2, R3, R4, R5.
  assert (1 # 4 <= val total_weight)%Q as Hq.
  { apply R5. unfold source_sentiments_with. intros Hnil%fmap_nil_inv.
    by apply (unique_nonempty df). }
  assert (gt_zero total_weight = true) as -> by (apply gt_zero_val; [done|lra]).
  assert (-1 <= val weighted_sum / val total_weight
          ∧ val weighted_sum / val total_weight <= 1)%Q as [Hq0 Hq1].
  { split; [apply Qle_shift_div_l|apply Qle_shift_div_r]; lra. }
  destruct (val_div weighted_sum total_weight R1 R2) as [Hnd Hvd];
    [lra|apply small_unit; lra|].
  split; [done|]. rewrite Hvd.
  by apply (rnd_between (-1) 1); [apply rnd_minus_one|apply rnd_one| |].
Qed.

End Rounding.

(** C2.  For a non-empty collection whose positive and negative values lie
    in [0,1], the weighted index lies in [-1,1].  This holds in every
    arithmetic with rounding, the length of the collection being small, and
    however the columns are summed ([calculate_weighted_sentiment] sums them
    from the left); so it holds in exact arithmetic; and in binary64, for a
    collection of at most 2^53 records: when [0.0 <= x <= 1.0] holds of
    every positive and negative value x (so none is an infinity or a NaN),
    the index r the code returns satisfies [-1.0 <= r <= 1.0], and it is a
    number, whose value [Binary64.value] lies in [-1,1]. *)
Theorem weighted_index_bounded :
  (∀ (F : Type) (arith : Arith F),
     summation (F := F) sum
     ∧ ∀ df : list (ScoredRow F),
         calculate_weighted_sentiment df = calculate_weighted_sentiment_with sum df)
  ∧ (∀ (F : Type) (arith : Arith F) (rounded : Rounded F)
       (total : list F → F) (df : list (ScoredRow F)),
       summation total →
       df ≠ [] → scored df → small (inject_Z (Z.of_nat (length df))) →
       number (calculate_weighted_sentiment_with total df)
       ∧ (-1 <= val (calculate_weighted_sentiment_with total df))%Q
       ∧ (val (calculate_weighted_sentiment_with total df) <= 1)%Q)
  ∧ (∀ (total : list Q → Q) (df : list (ScoredRow Q)),
       summation total →
       df ≠ [] →
       (∀ r, r ∈ df →
          (0 <= positive r)%Q ∧ (positive r <= 1)%Q
          ∧ (0 <= negative r)%Q ∧ (negative r <= 1)%Q) →
       (-1 <= calculate_weighted_sentiment_with total df)%Q
       ∧ (calculate_weighted_sentiment_with total df <= 1)%Q)
  ∧ (∀ (total : list float → float) (df : list (ScoredRow float)),
       summation total →
       df ≠ [] → (Z.of_nat (length df) <= 2 ^ 53)%Z →
       (∀ r, r ∈ df →
          PrimFloat.leb PrimFloat.zero (positive r) = true
          ∧ PrimFloat.leb (positive r) PrimFloat.one = true
          ∧ PrimFloat.leb PrimFloat.zero (negative r) = true
          ∧ PrimFloat.leb (negative r) PrimFloat.one = true) →
       let r := calculate_weighted_sentiment_with total df in
       PrimFloat.leb (PrimFloat.opp PrimFloat.one) r = true
       ∧ PrimFloat.leb r PrimFloat.one = true
       ∧ Binary64.finite r
       ∧ (-1 <= Binary64.value r)%Q ∧ (Binary64.value r <= 1)%Q).
Proof.
  split; [intros F arith; split; [apply sum_summation|done]|].
  split; [intros F arith rounded total df; apply rounded_index_bounded|]. split.
  - intros total df Htotal Hne Hsc.
    destruct (rounded_index_bounded total df Htotal Hne) as (_ & H0 & H1); [|done|by split].
    intros r Hr. destruct (Hsc r Hr) as (?&?&?&?). by repeat split.
  - intros total df Htotal Hne Hlen Hsc.
    destruct (rounded_index_bounded (rounded := Binary64Facts.binary64_rounded)
                total df Htotal Hne) as (Hn & H0 & H1).
    + intros r Hr. destruct (Hsc r Hr) as (Hp0 & Hp1 & Hn0 & Hn1).
      split; by apply Binary64Facts.leb_unit.
    + cbn [small Binary64Facts.binary64_rounded].
      rewrite Qabs_pos, Binary64Facts.pow2_Z
        by (try (change 0%Q with (inject_Z 0); rewrite <- Zle_Qle); lia).
      by rewrite <- Zle_Qle.
    + cbn [number val Binary64Facts.binary64_rounded] in Hn, H0, H1.
      destruct (Binary64Facts.leb_signed_unit _ Hn H0 H1) as [L0 L1].
      by repeat split.
Qed.

Lemma weighted_index_bounded_witness :
  ((-1 <= calculate_weighted_sentiment two_groups)%Q
   ∧ (calculate_weighted_sentiment two_groups <= 1)%Q)
  ∧ (PrimFloat.leb (PrimFloat.opp PrimFloat.one)
       (calculate_weighted_sentiment two_sources_binary64) = true
     ∧ PrimFloat.leb (calculate_weighted_sentiment two_sources_binary64) PrimFloat.one
       = true).
Proof.
  split.
  - refine (proj1 (proj2 (proj2 weighted_index_bounded)) sum two_groups
              (proj1 (proj1 weighted_index_bounded Q exact)) _ _); [discriminate|].
    intros r Hr. unfold two_groups in Hr.
    repeat (apply elem_of_cons in Hr as [->|Hr]); try by apply elem_of_nil in Hr.
    all: vm_compute; intuition discriminate.
  - refine (let H := proj2 (proj2 (proj2 weighted_index_bounded)) sum two_sources_binary64
                       (proj1 (proj1 weighted_index_bounded float binary64)) _ _ _ in
            conj (proj1 H) (proj1 (proj2 H))); [discriminate|by vm_compute|].
    intros r Hr. unfold two_sources_binary64 in Hr.
    repeat (apply elem_of_cons in Hr as [->|Hr]); try by apply elem_of_nil in Hr.
    all: by vm_compute.
Defined.

(** *** Binary64 *)

(** In binary64 the two-group example gives the number nearest to 0.36,
    whichever source comes first. *)
Lemma two_groups_binary64 (items : list (string * float)) :
  items ≡ₚ [("Financial News", lit 0.6%Q); ("WallStreetBets", lit (-0.2)%Q)] →
  weighted_average items = lit 0.36%Q.
Proof.
  intros Hperm.
  assert (items = [("Financial News", lit 0.6%Q); ("WallStreetBets", lit (-0.2)%Q)]
          ∨ items = [("WallStreetBets", lit (-0.2)%Q); ("Financial News", lit 0.6%Q)])
    as [->| ->].
  { pose proof (Permutation_length Hperm) as Hlen.
    destruct items as [|a [|b [|c items]]]; try discriminate Hlen.
    assert (a ∈ [("Financial News", lit 0.6%Q : float); ("WallStreetBets", lit (-0.2)%Q)])
      as Ha by (rewrite <- Hperm; apply elem_of_cons; by left).
    apply elem_of_cons in Ha as [->|Ha].
    - apply Permutation_cons_inv, Permutation_singleton_r in Hperm. left. by rewrite Hperm.
    - apply list_elem_of_singleton in Ha as ->. right.
      assert ([("WallStreetBets", lit (-0.2)%Q : float); b]
              ≡ₚ [("WallStreetBets", lit (-0.2)%Q); ("Financial News", lit 0.6%Q)])
        as Hswap by (rewrite Hperm; apply Permutation_swap).
      apply Permutation_cons_inv, Permutation_singleton_r in Hswap. by rewrite Hswap. }
  - by vm_compute.
  - by vm_compute.
Qed.

(** C1, as stated, fails in binary64: with a news net of 0.4 and a social
    net of 0.1 the formula gives 0.31, and the code returns a number below
    the one nearest to 0.31, because the products, the sums and the
    quotient are each rounded. *)
Lemma two_sources_round :
  (spec_weighted_index ["Financial News"; "WallStreetBets"] two_sources == 0.31)%Q
  ∧ net_sentiment (rows_of_source "Financial News" two_sources_binary64) = lit 0.4%Q
  ∧ net_sentiment (rows_of_source "WallStreetBets" two_sources_binary64) = lit 0.1%Q
  ∧ calculate_weighted_sentiment two_sources_binary64 ≠ lit 0.31%Q
  ∧ PrimFloat.ltb (calculate_weighted_sentiment two_sources_binary64) (lit 0.31%Q) = true.
Proof.
  split; [by vm_compute|]. split; [by vm_compute|]. split; [by vm_compute|].
  split; [|by vm_compute].
  intros Heq.
  apply (f_equal (λ x, PrimFloat.ltb x (lit 0.31%Q))) in Heq.
  vm_compute in Heq. discriminate Heq.
Qed.

(** C1, amended.  In exact arithmetic the overall index of a record
    collection is the weighted mean of the per-source net sentiments: the
    sum over the source groups present (listed in any order) of
    net_s * w_s, divided by the sum of the w_s, and 0 when no group is
    present; w is 0.7 for 'Financial News', 0.3 for 'WallStreetBets' and
    0.5 for any other source.  In every arithmetic, binary64 included, the
    index of a non-empty collection is the quotient of these two sums as
    the code accumulates them: from 0, over the sources in order of first
    appearance, each product, sum and quotient being that of the
    arithmetic.  A collection holding exactly the news and the social
    group, with nets 0.6 and -0.2, has index 0.36; so it has in binary64,
    where the nets and the result are the numbers nearest to 0.6, -0.2 and
    0.36.  (The range [0,1] of the scores is not needed.) *)
Theorem weighted_index_formula (df : list (ScoredRow Q)) (groups : list string) :
  enumerates groups df →
  (calculate_weighted_sentiment df == spec_weighted_index groups df)%Q
  ∧ (∀ s, weight_of s == spec_weight s)%Q
  ∧ (∀ (F : Type) (arith : Arith F) (rows : list (ScoredRow F)),
       rows ≠ [] →
       calculate_weighted_sentiment rows
       = let weighted_sum :=
           fold_left
             (λ a s, add a (mul (net_sentiment (rows_of_source s rows)) (weight_of s)))
             (unique (source <$> rows)) zero in
         let total_weight :=
           fold_left (λ a s, add a (weight_of s)) (unique (source <$> rows)) zero in
         if gt_zero total_weight then div weighted_sum total_weight else zero)
  ∧ (groups ≡ₚ ["Financial News"; "WallStreetBets"] →
     (net_sentiment (rows_of_source "Financial News" df) == 0.6)%Q →
     (net_sentiment (rows_of_source "WallStreetBets" df) == -0.2)%Q →
     (calculate_weighted_sentiment df == 0.36)%Q)
  ∧ (∀ df64 : list (ScoredRow float),
       source_sentiments df64
         ≡ₚ [("Financial News", lit 0.6%Q); ("WallStreetBets", lit (-0.2)%Q)] →
       calculate_weighted_sentiment df64 = lit 0.36%Q).
Proof.
  intros Henum. split; [by apply index_refines_spec|]. split; [apply weight_of_spec|].
  split; [intros F arith rows; apply index_as_computed|].
  split.
  - intros Hperm Hn Hs.
    assert (enumerates ["Financial News"; "WallStreetBets"] df) as Henum'.
    { destruct Henum as [Hnd Hin]. split.
      - by rewrite <- Hperm.
      - intros s. rewrite <- Hin. by rewrite Hperm. }
    rewrite (index_refines_spec _ _ Henum').
    unfold spec_weighted_index. rewrite !fmap_cons, !Qsum_cons, Hn, Hs. reflexivity.
  - intros df64 Hitems. unfold calculate_weighted_sentiment.
    destruct df64 as [|r df64].
    + apply Permutation_nil_l in Hitems. discriminate Hitems.
    + rewrite bool_decide_eq_false_2 by done. by apply two_groups_binary64.
Qed.

Lemma weighted_index_formula_witness :
  (calculate_weighted_sentiment two_groups == 0.36)%Q.
Proof.
  refine (proj1 (proj2 (proj2 (proj2 (weighted_index_formula two_groups
            ["WallStreetBets"; "Financial News"] _)))) _ _ _).
  - split.
    + apply (bool_decide_unpack _). vm_compute. exact I.
    + intros s. split.
      * intros Hs. apply elem_of_cons in Hs as [->|Hs].
        { exists (social 0.1 0.3)%Q. split; [|reflexivity].
          apply list_elem_of_lookup. by exists 1%nat. }
        apply elem_of_cons in Hs as [->|Hs].
        { exists (news 0.7 0.1)%Q. split; [|reflexivity].
          apply list_elem_of_lookup. by exists 0%nat. }
        by apply elem_of_nil in Hs.
      * intros (r & Hr & <-). unfold two_groups in Hr.
        repeat (apply elem_of_cons in Hr as [->|Hr]); try by apply elem_of_nil in Hr.
        all: apply (bool_decide_unpack _); vm_compute; exact I.
  - apply Permutation_swap.
  - vm_compute. reflexivity.
  - vm_compute. reflexivity.
Defined.

(** C7, as stated, fails in binary64: a news-only collection with net 0.4
    has an index below 0.4, because 0.4 * 0.7 / 0.7 rounds twice. *)
Lemma single_source_rounds :
  net_sentiment news_only_binary64 = lit 0.4%Q
  ∧ calculate_weighted_sentiment news_only_binary64 ≠ net_sentiment news_only_binary64
  ∧ PrimFloat.ltb (calculate_weighted_sentiment news_only_binary64) (lit 0.4%Q) = true.
Proof.
  split; [by vm_compute|]. split; [|by vm_compute].
  intros Heq.
  apply (f_equal (λ x, PrimFloat.ltb x (net_sentiment news_only_binary64))) in Heq.
  vm_compute in Heq. discriminate Heq.
Qed.

(** C7, amended.  When every record of a non-empty collection carries the
    same source tag s, the index is (0 + net_s * w_s) / (0 + w_s): the
    weight of s alone enters the denominator.  In exact arithmetic this
    quotient is net_s, so a news-only collection with net 0.4 has index
    0.4; in a rounding arithmetic it is net_s up to the rounding of the
    product and of the quotient. *)
Theorem single_source_index :
  (∀ (F : Type) (arith : Arith F) (df : list (ScoredRow F)) (s : string),
     df ≠ [] → (∀ r, r ∈ df → source r = s) →
     rows_of_source s df = df
     ∧ weighted_totals (source_sentiments df)
       = (add zero (mul (net_sentiment df) (weight_of s)), add zero (weight_of s))
     ∧ calculate_weighted_sentiment df
       = if gt_zero (add zero (weight_of s))
         then div (add zero (mul (net_sentiment df) (weight_of s))) (add zero (weight_of s))
         else zero)
  ∧ (∀ (df : list (ScoredRow Q)) (s : string),
       df ≠ [] → (∀ r, r ∈ df → source r = s) →
       (calculate_weighted_sentiment df == net_sentiment df)%Q
       ∧ ((weighted_totals (source_sentiments df)).2 == weight_of s)%Q
       ∧ (s = "Financial News" → (net_sentiment df == 0.4)%Q →
          (calculate_weighted_sentiment df == 0.4)%Q)).
Proof.
  assert (∀ (F : Type) (arith : Arith F) (df : list (ScoredRow F)) (s : string),
     df ≠ [] → (∀ r, r ∈ df → source r = s) →
     rows_of_source s df = df
     ∧ weighted_totals (source_sentiments df)
       = (add zero (mul (net_sentiment df) (weight_of s)), add zero (weight_of s))
     ∧ calculate_weighted_sentiment df
       = if gt_zero (add zero (weight_of s))
         then div (add zero (mul (net_sentiment df) (weight_of s))) (add zero (weight_of s))
         else zero) as Hany.
  { intros F arith df s Hne Hall.
    destruct (single_source_sentiments df s Hne Hall) as [Hrows Hitems].
    split; [done|]. unfold calculate_weighted_sentiment, weighted_average.
    rewrite bool_decide_eq_false_2 by done. rewrite Hitems. by split. }
  split; [exact Hany|].
  intros df s Hne Hall. destruct (Hany Q exact df s Hne Hall) as (_ & Htot & Hidx).
  pose proof (spec_weight_pos s) as Hw. pose proof (weight_of_spec s) as Hws.
  assert (calculate_weighted_sentiment df == net_sentiment df)%Q as Hnet.
  { rewrite Hidx. cbn [gt_zero div add mul zero exact].
    destruct (Qlt_le_dec 0 (0 + weight_of s)) as [_|Hle]; [|lra]. field. lra. }
  split; [done|]. split.
  - rewrite Htot. cbn [snd add zero exact]. lra.
  - intros _ H04. by rewrite Hnet.
Qed.

Lemma single_source_index_witness :
  (calculate_weighted_sentiment news_only == 0.4)%Q.
Proof.
  refine (proj2 (proj2 (proj2 single_source_index news_only "Financial News" _ _)) _ _).
  - discriminate.
  - intros r Hr. unfold news_only in Hr.
    repeat (apply elem_of_cons in Hr as [->|Hr]); try by apply elem_of_nil in Hr.
    all: reflexivity.
  - reflexivity.
  - vm_compute. reflexivity.
Defined.

End AnalyzerFacts.

Module AggregatorFacts.
Import Py Aggregator Scenarios.

Section Frames.
Context {cell : Type}.
Implicit Types df wsb_df institutional_df : DataFrame cell.

Lemma elem_of_common_cols wsb_df institutional_df c :
  c ∈ common_cols wsb_df institutional_df ↔
  c ∈ columns wsb_df ∧ c ∈ columns institutional_df.
Proof.
  unfold common_cols.
  by rewrite elem_of_elements, elem_of_intersection, !elem_of_list_to_set.
Qed.

Lemma select_common_l wsb_df institutional_df :
  select wsb_df (common_cols wsb_df institutional_df) = Returns {|
    columns := common_cols wsb_df institutional_df;
    rows := (λ r, filter (λ kv : string * cell,
                            kv.1 ∈ common_cols wsb_df institutional_df) r)
            <$> rows wsb_df |}.
Proof.
  unfold select. rewrite bool_decide_eq_true_2; [done|].
  apply Forall_forall. intros c Hc. by apply elem_of_common_cols in Hc as [? _].
Qed.

Lemma select_common_r wsb_df institutional_df :
  select institutional_df (common_cols wsb_df institutional_df) = Returns {|
    columns := common_cols wsb_df institutional_df;
    rows := (λ r, filter (λ kv : string * cell,
                            kv.1 ∈ common_cols wsb_df institutional_df) r)
            <$> rows institutional_df |}.
Proof.
  unfold select. rewrite bool_decide_eq_true_2; [done|].
  apply Forall_forall. intros c Hc. by apply elem_of_common_cols in Hc as [_ ?].
Qed.

(** A projected row keeps the cells of the chosen columns and no other. *)
Lemma lookup_projected (cols : list string) (r : gmap string cell) c :
  filter (λ kv : string * cell, kv.1 ∈ cols) r !! c
  = if bool_decide (c ∈ cols) then r !! c else None.
Proof.
  case_bool_decide as Hc.
  - destruct (r !! c) as [x|] eqn:Hx.
    + by apply map_lookup_filter_Some.
    + apply map_lookup_filter_None. left. done.
  - apply map_lookup_filter_None. right. intros x _. done.
Qed.

Lemma empty_false df :
  empty df = false ↔ columns df ≠ [] ∧ rows df ≠ [].
Proof.
  unfold empty. destruct (columns df), (rows df); split; try done.
  all: intros [? ?]; done.
Qed.

Lemma empty_true_nonempty df : empty df = true → negb (empty df) = false.
Proof. by intros ->. Qed.

(** C9.  Two non-empty collections that carry a source column, of m and n
    rows, combine without error into one collection of m + n rows: the rows
    of the first followed by the rows of the second, each projected onto
    the columns present in both inputs, so each keeps its source tag and
    loses the cells of every other column.  Two empty inputs combine into
    the empty frame. *)
Theorem combine_spec wsb_df institutional_df :
  (empty wsb_df = false → empty institutional_df = false →
   "source" ∈ columns wsb_df → "source" ∈ columns institutional_df →
   ∃ combined_df,
     combine wsb_df institutional_df = Returns combined_df
     ∧ len combined_df = (len wsb_df + len institutional_df)%nat
     ∧ (∀ c, c ∈ columns combined_df ↔
             c ∈ columns wsb_df ∧ c ∈ columns institutional_df)
     ∧ (∀ i r, rows wsb_df !! i = Some r →
          ∃ r', rows combined_df !! i = Some r'
            ∧ r' !! "source" = r !! "source"
            ∧ ∀ c, r' !! c = if bool_decide (c ∈ columns combined_df)
                             then r !! c else None)
     ∧ (∀ i r, rows institutional_df !! i = Some r →
          ∃ r', rows combined_df !! (len wsb_df + i)%nat = Some r'
            ∧ r' !! "source" = r !! "source"
            ∧ ∀ c, r' !! c = if bool_decide (c ∈ columns combined_df)
                             then r !! c else None))
  ∧ (empty wsb_df = true → empty institutional_df = true →
     combine wsb_df institutional_df = Returns new_frame
     ∧ len (new_frame : DataFrame cell) = 0%nat).
Proof.
  split.
  - intros Hw Hi Hsw Hsi.
    set (cols := common_cols wsb_df institutional_df).
    assert ("source" ∈ cols) as Hsrc by by apply elem_of_common_cols.
    assert (filter (λ c, c ∉ cols) cols = []) as Hfilter.
    { destruct (filter (λ c, c ∉ cols) cols) as [|c l] eqn:Hf; [done|].
      assert (c ∈ filter (λ c, c ∉ cols) cols) as Hc
        by (rewrite Hf; apply elem_of_cons; by left).
      by apply list_elem_of_filter in Hc as [Hn Hc]. }
    set (proj := λ r : gmap string cell, filter (λ kv : string * cell, kv.1 ∈ cols) r).
    set (out := {| columns := cols;
                   rows := (proj <$> rows wsb_df) ++ (proj <$> rows institutional_df) |}).
    assert (pd_concat {| columns := cols; rows := proj <$> rows wsb_df |}
                      {| columns := cols; rows := proj <$> rows institutional_df |}
            = out) as Hconcat.
    { unfold pd_concat, out. cbn [columns rows]. by rewrite Hfilter, app_nil_r. }
    assert (empty out = false) as Hout.
    { apply empty_false. unfold out. cbn [columns rows]. split.
      - intros Hnil. rewrite Hnil in Hsrc. by apply elem_of_nil in Hsrc.
      - apply empty_false in Hw as [_ Hrw]. by destruct (rows wsb_df). }
    exists out. split.
    { unfold combine. rewrite Hw, Hi. cbn [negb andb].
      rewrite select_common_l, select_common_r. cbn [mbind outcome_bind].
      fold cols proj. rewrite Hconcat, Hout. cbn [negb andb].
      unfold out at 1. cbn [columns]. by rewrite bool_decide_eq_true_2. }
    unfold out, len. cbn [columns rows].
    split; [by rewrite length_app, !length_fmap|].
    split; [intros c; apply elem_of_common_cols|].
    split.
    + intros i r Hr. eexists. split.
      { rewrite lookup_app_l by (rewrite length_fmap; by eapply lookup_lt_Some).
        rewrite list_lookup_fmap, Hr. reflexivity. }
      split; [|intros c; apply lookup_projected].
      unfold proj. rewrite lookup_projected. by rewrite bool_decide_eq_true_2.
    + intros i r Hr. eexists. split.
      { rewrite lookup_app_r by (rewrite length_fmap; lia).
        rewrite length_fmap. replace (length (rows wsb_df) + i - length (rows wsb_df))%nat
          with i by lia.
        rewrite list_lookup_fmap, Hr. reflexivity. }
      split; [|intros c; apply lookup_projected].
      unfold proj. rewrite lookup_projected. by rewrite bool_decide_eq_true_2.
  - intros Hw Hi. split; [|done]. unfold combine. by rewrite Hw, Hi.
Qed.

End Frames.

Lemma combine_spec_witness :
  (∃ combined_df,
     combine Frames.wsb_frame Frames.news_frame = Returns combined_df
     ∧ len combined_df = 3%nat
     ∧ ∀ c, c ∈ columns combined_df ↔
            c ∈ columns Frames.wsb_frame ∧ c ∈ columns Frames.news_frame)
  ∧ combine (cell := Frames.value) new_frame new_frame = Returns new_frame.
Proof.
  split.
  - destruct (proj1 (combine_spec Frames.wsb_frame Frames.news_frame))
      as (combined_df & Hc & Hlen & Hcols & _).
    + reflexivity.
    + reflexivity.
    + apply list_elem_of_lookup. by exists 2%nat.
    + apply list_elem_of_lookup. by exists 2%nat.
    + exists combined_df. split; [exact Hc|]. split; [exact Hlen|exact Hcols].
  - apply (proj2 (combine_spec (cell := Frames.value) new_frame new_frame)); reflexivity.
Defined.

(** C8.  The index of the empty collection is 0 (exactly 0.0 in binary64,
    and the zero of any arithmetic): a value, not an exception.  When both
    sources are empty the combination step returns an empty frame instead
    of raising. *)
Theorem empty_collection_neutral {cell : Type} (wsb_df institutional_df : DataFrame cell) :
  empty wsb_df = true → empty institutional_df = true →
  (∀ (F : Type) (arith : Arithmetic.Arith F),
     Analyzer.calculate_weighted_sentiment (F := F) [] = Arithmetic.zero)
  ∧ ∃ combined_df,
      combine wsb_df institutional_df = Returns combined_df
      ∧ empty combined_df = true
      ∧ len combined_df = 0%nat.
Proof.
  intros Hw Hi. split; [done|]. exists new_frame.
  split; [|done]. unfold combine. by rewrite Hw, Hi.
Qed.

Lemma empty_collection_neutral_witness :
  (∀ (F : Type) (arith : Arithmetic.Arith F),
     Analyzer.calculate_weighted_sentiment (F := F) [] = Arithmetic.zero)
  ∧ ∃ combined_df : DataFrame Frames.value,
      combine {| columns := ["text"; "source"]; rows := [] |} new_frame
      = Returns combined_df
      ∧ empty combined_df = true
      ∧ len combined_df = 0%nat.
Proof.
  apply (empty_collection_neutral
           ({| columns := ["text"; "source"]; rows := [] |} : DataFrame Frames.value)
           new_frame); reflexivity.
Defined.

End AggregatorFacts.

Module PyFacts.
Import Py.

Lemma startswith_spec needle hay :
  startswith needle hay = true ↔ ∃ post : string, hay = (needle ++ post)%string.
Proof.
  revert hay. induction needle as [|a needle IH]; intros hay.
  - split; [|done]. intros _. by exists hay.
  - destruct hay as [|b hay]; cbn [startswith String.append].
    + split; [done|]. by intros [post [=]].
    + rewrite andb_true_iff, bool_decide_eq_true, IH. split.
      * intros [-> [post ->]]. by exists post.
      * intros [post [= -> ->]]. split; [done|]. by exists post.
Qed.

Lemma contains_spec needle hay : contains needle hay = true ↔ occurs needle hay.
Proof.
  unfold occurs. induction hay as [|c hay IH]; cbn [contains].
  - rewrite orb_false_r, startswith_spec. split.
    + intros [post Hpost]. by exists "", post.
    + intros (pre & post & Heq). destruct pre; [by exists post|done].
  - rewrite orb_true_iff, startswith_spec, IH. split.
    + intros [[post Hpost]|(pre & post & ->)].
      * by exists "", post.
      * by exists (String c pre), post.
    + intros (pre & post & Heq). destruct pre as [|c' pre].
      * left. by exists post.
      * right. injection Heq as -> ->. by exists pre, post.
Qed.

Lemma upper_app (a b : string) : upper (a ++ b) = (upper a ++ upper b)%string.
Proof.
  induction a as [|c a IH]; [done|].
  change (String (upper_ascii c) (upper (a ++ b))
          = String (upper_ascii c) (upper a ++ upper b))%string.
  by rewrite IH.
Qed.

Lemma string_app_assoc (a b c : string) : ((a ++ b) ++ c = a ++ (b ++ c))%string.
Proof.
  induction a as [|x a IH]; [done|].
  change (String x ((a ++ b) ++ c) = String x (a ++ (b ++ c)))%string. by rewrite IH.
Qed.

Lemma occurs_app_l needle a b : occurs needle a → occurs needle (a ++ b).
Proof.
  intros (pre & post & ->). exists pre, (post ++ b)%string.
  by rewrite !string_app_assoc.
Qed.

Lemma occurs_app_r needle a b : occurs needle b → occurs needle (a ++ b).
Proof.
  intros (pre & post & ->). exists (a ++ pre)%string, post.
  by rewrite !string_app_assoc.
Qed.

Lemma occurs_empty hay : occurs "" hay.
Proof. by exists "", hay. Qed.

Lemma occurs_in_empty needle : occurs needle "" → needle = "".
Proof.
  intros (pre & post & Heq). destruct pre; [|done]. by destruct needle.
Qed.

(** Prefixing a fixed string is injective. *)
Lemma string_app_inj (p a b : string) : (p ++ a = p ++ b)%string → a = b.
Proof.
  induction p as [|c p IH]; [done|].
  change (String c (p ++ a) = String c (p ++ b) → a = b)%string. intros [= H]. auto.
Qed.

(** The date range of a fetch: [now - timedelta(days=days)]. *)
Lemma date_range_Returns now days delta start_date :
  timedelta_days days = Returns delta →
  datetime_sub now delta = Returns start_date →
  start_date = (now - days * us_per_day)%Z ∧ representable now days.
Proof.
  unfold timedelta_days, datetime_sub, representable. case_bool_decide; [|done].
  intros [= <-]. case_bool_decide; [|done]. by intros [= <-].
Qed.

(** The date range can be computed for every lookback the callers pass
    (the dashboard's 1 to 30 days, the default of 7), at any clock reading
    from 1970 on. *)
Lemma lookback_representable now days :
  (epoch ≤ now ≤ datetime_max)%Z → (0 ≤ days ≤ 719162)%Z → representable now days.
Proof.
  unfold representable, epoch, datetime_max, timedelta_max_days, us_per_day.
  intros Hnow Hdays. split; lia.
Qed.

End PyFacts.

Module WSBFacts.
Import Py WSB Scenarios.

Lemma process_post_Some ticker start_date end_date post row :
  process_post ticker start_date end_date post = Returns (Some row) →
  ∃ post_date title,
    fromtimestamp (Submission.created_utc post) = Returns post_date
    ∧ (start_date ≤ post_date ≤ end_date)%Z
    ∧ Submission.title post = Some title
    ∧ (contains (upper ticker) (upper title) = true
       ∨ (∃ body, Submission.selftext post = Some body ∧ body ≠ ""
                  ∧ contains (upper ticker) (upper body) = true)
       ∨ contains (upper ticker) "" = true)
    ∧ row = {|
        Row.text := fmt (Submission.title post) ++ " " ++ fmt (Submission.selftext post);
        Row.timestamp := post_date;
        Row.score := Submission.score post;
        Row.num_comments := Submission.num_comments post;
        Row.url := "https://www.reddit.com" ++ Submission.permalink post;
        Row.source := "WallStreetBets";
        Row.ticker := ticker |}.
Proof.
  unfold process_post. destruct (fromtimestamp _) as [post_date|] eqn:Hts; [|done].
  cbn [mbind outcome_bind]. case_bool_decide as Hwin; [|done].
  destruct (Submission.title post) as [title|] eqn:Htitle; [|done].
  cbn [mbind outcome_bind].
  destruct (contains (upper ticker) (upper title)
            || contains (upper ticker) _) eqn:Hin; [|done].
  intros [= <-]. exists post_date, title. repeat split; try done; try lia.
  apply orb_true_iff in Hin as [Hin|Hin]; [by left|right].
  destruct (Submission.selftext post) as [body|]; [|by right].
  case_bool_decide; [by right|]. left. by exists body.
Qed.

Lemma kept_Some ticker start_date end_date post row :
  kept ticker start_date end_date post = Some row ↔
  process_post ticker start_date end_date post = Returns (Some row).
Proof.
  unfold kept. destruct (process_post _ _ _ _) as [[r|]|]; split; congruence.
Qed.

(** A scan appends the rows of the submissions it keeps, in order. *)
Lemma scan_app ticker start_date end_date listing posts :
  scan ticker start_date end_date listing posts
  = posts ++ omap (kept ticker start_date end_date) listing.
Proof.
  unfold scan. revert posts. induction listing as [|post listing IH]; intros posts.
  - by rewrite app_nil_r.
  - cbn [fold_left]. rewrite IH. cbn [omap list_omap].
    assert (kept ticker start_date end_date post
            = match process_post ticker start_date end_date post with
              | Returns (Some row) => Some row
              | _ => None
              end) as -> by done.
    destruct (process_post _ _ _ _) as [[r|]|]; [|done|done].
    by rewrite <- app_assoc.
Qed.

(** The search loop appends the rows kept from the searches it consumes:
    a sublist of what the searches for its filters yield. *)
Lemma search_loop_rows sub ticker start_date end_date filters posts :
  ∃ consumed,
    consumed `sublist_of` concat ((λ f, yields (search sub ticker f 100)) <$> filters)
    ∧ search_loop sub ticker start_date end_date filters posts
      = posts ++ omap (kept ticker start_date end_date) consumed.
Proof.
  revert posts. induction filters as [|f filters IH]; intros posts.
  - exists []. split; [done|]. by rewrite app_nil_r.
  - cbn [search_loop fmap list_fmap concat]. rewrite scan_app.
    destruct (IH (posts ++ omap (kept ticker start_date end_date)
                           (yields (search sub ticker f 100)))) as (consumed & Hsub & Heq).
    assert (∃ consumed',
      consumed' `sublist_of`
        yields (search sub ticker f 100)
        ++ concat ((λ f, yields (search sub ticker f 100)) <$> filters)
      ∧ search_loop sub ticker start_date end_date filters
          (posts ++ omap (kept ticker start_date end_date) (yields (search sub ticker f 100)))
        = posts ++ omap (kept ticker start_date end_date) consumed') as Hrec.
    { exists (yields (search sub ticker f 100) ++ consumed). split.
      - by apply sublist_app.
      - by rewrite Heq, omap_app, app_assoc. }
    destruct (fault (search sub ticker f 100)); [exact Hrec|].
    case_bool_decide; [|exact Hrec].
    exists (yields (search sub ticker f 100)). split; [|done].
    by apply sublist_inserts_r.
Qed.

Lemma fetch_from_listings_rows sub ticker start_date end_date posts :
  fetch_from_listings sub ticker start_date end_date posts
  = posts ++ omap (kept ticker start_date end_date) (listed sub).
Proof.
  unfold fetch_from_listings, listed. cbn [fold_left snd].
  by rewrite !scan_app, !omap_app, !app_assoc.
Qed.

(** What [fetch_wsb_posts] returns: nothing, or the rows kept from
    submissions the searches yielded, or (when the searches gave no row) from
    the submissions the listings yielded. *)
Lemma fetch_wsb_posts_shape self now ticker days :
  fetch_wsb_posts self now ticker days = Returns []
  ∨ ∃ client sub consumed,
      reddit self = Some client
      ∧ subreddit client "wallstreetbets" = Returns sub
      ∧ representable now days
      ∧ (consumed `sublist_of` searched sub ticker ∨ consumed `sublist_of` listed sub)
      ∧ fetch_wsb_posts self now ticker days
        = Returns (omap (kept ticker (now - days * us_per_day)%Z now) consumed).
Proof.
  unfold fetch_wsb_posts. destruct (reddit self) as [client|] eqn:Hclient; [|by left].
  destruct (timedelta_days days) as [delta|] eqn:Hdelta; [|by left].
  cbn [mbind outcome_bind].
  destruct (datetime_sub now delta) as [start_date|] eqn:Hstart; [|by left].
  cbn [mbind outcome_bind catch].
  destruct (PyFacts.date_range_Returns _ _ _ _ Hdelta Hstart) as [-> Hrange].
  destruct (subreddit client "wallstreetbets") as [sub|] eqn:Hsub; [|by left].
  destruct (search_loop_rows sub ticker (now - days * us_per_day)%Z now time_filters [])
    as (consumed & Hcons & ->).
  cbn [app]. right.
  destruct (omap _ consumed) as [|row rows] eqn:Hrows.
  - exists client, sub, (listed sub). do 3 (split; [done|]). split; [by right|].
    by rewrite fetch_from_listings_rows.
  - exists client, sub, consumed. do 3 (split; [done|]). split.
    + left. unfold searched. cbn in Hcons. by rewrite app_nil_r in Hcons.
    + by rewrite Hrows.
Qed.

(** The adapter returns on every input. *)
Lemma fetch_wsb_posts_returns self now ticker days :
  ∃ rows, fetch_wsb_posts self now ticker days = Returns rows.
Proof.
  destruct (fetch_wsb_posts_shape self now ticker days)
    as [->|(_ & _ & consumed & _ & _ & _ & _ & ->)]; eauto.
Qed.

(** Every returned row is the row of a submission the client yielded. *)
Lemma fetch_wsb_posts_origin self now ticker days rows row :
  fetch_wsb_posts self now ticker days = Returns rows → row ∈ rows →
  ∃ client sub post,
    reddit self = Some client
    ∧ subreddit client "wallstreetbets" = Returns sub
    ∧ post ∈ searched sub ticker ++ listed sub
    ∧ process_post ticker (now - days * us_per_day)%Z now post = Returns (Some row).
Proof.
  intros Hfetch Hrow.
  destruct (fetch_wsb_posts_shape self now ticker days)
    as [Hnil|(client & sub & consumed & Hc & Hs & _ & Hcons & Heq)].
  - rewrite Hnil in Hfetch. injection Hfetch as <-. by apply elem_of_nil in Hrow.
  - rewrite Heq in Hfetch. injection Hfetch as <-.
    apply list_elem_of_omap in Hrow as (post & Hpost & Hkept).
    exists client, sub, post. repeat split; try done.
    + apply elem_of_app. destruct Hcons as [Hsub|Hsub]; [left|right];
        by eapply elem_of_sublist.
    + by apply kept_Some.
Qed.

Lemma kept_urls ticker start_date end_date (l : list Submission.t) :
  Row.url <$> omap (kept ticker start_date end_date) l `sublist_of` url_of <$> l.
Proof.
  induction l as [|post l IH]; [done|]. cbn [omap list_omap]. rewrite fmap_cons.
  destruct (kept ticker start_date end_date post) as [row|] eqn:Hk.
  - apply kept_Some, process_post_Some in Hk as (? & ? & _ & _ & _ & _ & ->).
    rewrite fmap_cons. by apply sublist_skip.
  - by apply sublist_cons.
Qed.

Lemma NoDup_urls (l : list Submission.t) :
  NoDup (Submission.permalink <$> l) → NoDup (url_of <$> l).
Proof.
  intros Hnd.
  replace (url_of <$> l)
    with ((λ p : string, ("https://www.reddit.com" ++ p)%string) <$> (Submission.permalink <$> l))
    by (by rewrite <- list_fmap_compose).
  apply NoDup_fmap_2; [|done]. intros a b. apply PyFacts.string_app_inj.
Qed.

(** C3, as stated, fails: a post found by the day, the week and the month
    search is returned three times, with the same url. *)
Lemma wsb_repeats_post :
  fetch_wsb_posts (Social.fetcher Social.overlapping) now0 "AAPL" 7
  = Returns [Social.aapl_row; Social.aapl_row; Social.aapl_row]
  ∧ ¬ NoDup (Row.url <$> [Social.aapl_row; Social.aapl_row; Social.aapl_row]).
Proof.
  split; [by vm_compute|].
  intros Hnd. apply NoDup_cons in Hnd as [Hnotin _]. apply Hnotin.
  apply elem_of_cons. by left.
Qed.

(** The loop appends the rows kept from the submissions it iterates
    over. *)
Lemma search_loop_consulted sub ticker start_date end_date filters posts :
  search_loop sub ticker start_date end_date filters posts
  = posts ++ omap (kept ticker start_date end_date)
               (consulted sub ticker start_date end_date filters posts).
Proof.
  revert posts. induction filters as [|f filters IH]; intros posts.
  - by rewrite app_nil_r.
  - cbn [search_loop consulted]. rewrite omap_app, app_assoc.
    set (posts' := scan ticker start_date end_date (yields (search sub ticker f 100)) posts).
    assert (posts ++ omap (kept ticker start_date end_date) (yields (search sub ticker f 100))
            = posts') as -> by (symmetry; apply scan_app).
    destruct (fault (search sub ticker f 100)); [apply IH|].
    case_bool_decide; [by rewrite app_nil_r|apply IH].
Qed.

(** The submissions iterated over are those of the first filters. *)
Lemma consulted_prefix sub ticker start_date end_date filters posts :
  consulted sub ticker start_date end_date filters posts
  `prefix_of` concat ((λ f, yields (search sub ticker f 100)) <$> filters).
Proof.
  revert posts. induction filters as [|f filters IH]; intros posts; [done|].
  cbn [consulted fmap list_fmap concat]. apply prefix_app.
  destruct (fault (search sub ticker f 100)); [apply IH|].
  case_bool_decide; [apply prefix_nil|apply IH].
Qed.

(** The urls of the rows are the addresses of the kept submissions. *)
Lemma kept_urls_filter ticker start_date end_date (l : list Submission.t) :
  Row.url <$> omap (kept ticker start_date end_date) l
  = url_of <$> filter (λ post, is_Some (kept ticker start_date end_date post)) l.
Proof.
  induction l as [|post l IH]; [done|]. cbn [omap list_omap].
  destruct (kept ticker start_date end_date post) as [row|] eqn:Hk.
  - rewrite filter_cons_True by (by rewrite Hk). rewrite !fmap_cons, IH. f_equal.
    by apply kept_Some, process_post_Some in Hk as (? & ? & _ & _ & _ & _ & ->).
  - rewrite filter_cons_False; [done|]. rewrite Hk. by intros [? ?].
Qed.

Lemma NoDup_urls_iff (l : list Submission.t) :
  NoDup (url_of <$> l) ↔ NoDup (Submission.permalink <$> l).
Proof.
  split; [|apply NoDup_urls].
  replace (url_of <$> l)
    with ((λ p : string, ("https://www.reddit.com" ++ p)%string) <$> (Submission.permalink <$> l))
    by (by rewrite <- list_fmap_compose).
  apply NoDup_fmap_1.
Qed.

(** With a working client the fetch returns the rows kept from the
    submissions the loop iterates over or, when there are none, from those
    the listings yield, whatever exceptions the searches and the listings
    end with. *)
Lemma fetch_wsb_posts_rows self now ticker days client sub :
  reddit self = Some client →
  subreddit client "wallstreetbets" = Returns sub →
  representable now days →
  let start_date := (now - days * us_per_day)%Z in
  let iterated := consulted sub ticker start_date now time_filters [] in
  fetch_wsb_posts self now ticker days
  = Returns (omap (kept ticker start_date now)
               match omap (kept ticker start_date now) iterated with
               | [] => listed sub
               | _ :: _ => iterated
               end).
Proof.
  intros Hclient Hsub [Hdays Hrange] start_date iterated.
  unfold fetch_wsb_posts. rewrite Hclient. unfold timedelta_days, datetime_sub.
  rewrite bool_decide_eq_true_2 by done. cbn [mbind outcome_bind].
  rewrite bool_decide_eq_true_2 by done. cbn [mbind outcome_bind catch].
  rewrite Hsub, search_loop_consulted. cbn [app]. fold start_date iterated.
  destruct (omap (kept ticker start_date now) iterated) eqn:Hrows.
  - by rewrite fetch_from_listings_rows.
  - by rewrite Hrows.
Qed.

(** C3, amended.  [fetch_wsb_posts] does not de-duplicate.  With a working
    client it returns one row, in order, for every kept submission among
    those the search loop iterates over (the 'day' search, then 'week', then
    'month', stopping once 50 rows are held: a leading part of what the
    three searches yield) or, when none of these is kept, among those the
    hot, new and top listings yield.  Its rows have pairwise different
    urls exactly when no permalink is carried by two of these kept
    submissions. *)
Theorem wsb_rows_follow_submissions self now ticker days client sub :
  reddit self = Some client →
  subreddit client "wallstreetbets" = Returns sub →
  representable now days →
  let start_date := (now - days * us_per_day)%Z in
  let iterated := consulted sub ticker start_date now time_filters [] in
  let origin :=
    match omap (kept ticker start_date now) iterated with
    | [] => listed sub
    | _ :: _ => iterated
    end in
  iterated `prefix_of` searched sub ticker
  ∧ fetch_wsb_posts self now ticker days
    = Returns (omap (kept ticker start_date now) origin)
  ∧ (NoDup (Row.url <$> omap (kept ticker start_date now) origin) ↔
     NoDup (Submission.permalink
              <$> filter (λ post, is_Some (kept ticker start_date now post)) origin)).
Proof.
  intros Hclient Hsub [Hdays Hrange] start_date iterated origin.
  split; [|split].
  - pose proof (consulted_prefix sub ticker start_date now time_filters []) as Hpre.
    unfold searched. cbn in Hpre. by rewrite app_nil_r in Hpre.
  - unfold fetch_wsb_posts. rewrite Hclient. unfold timedelta_days, datetime_sub.
    rewrite bool_decide_eq_true_2 by done. cbn [mbind outcome_bind].
    rewrite bool_decide_eq_true_2 by done. cbn [mbind outcome_bind catch].
    rewrite Hsub, search_loop_consulted. cbn [app]. fold start_date iterated.
    subst origin. destruct (omap (kept ticker start_date now) iterated) eqn:Hrows.
    + by rewrite fetch_from_listings_rows.
    + by rewrite Hrows.
  - by rewrite kept_urls_filter, NoDup_urls_iff.
Qed.

Lemma wsb_rows_follow_submissions_witness :
  fetch_wsb_posts (Social.fetcher Social.disjoint) now0 "AAPL" 7
  = Returns [Social.aapl_row; Social.older_row].
Proof.
  refine (proj1 (proj2 (wsb_rows_follow_submissions (Social.fetcher Social.disjoint)
                          now0 "AAPL" 7 _ Social.disjoint _ _ _))).
  - reflexivity.
  - reflexivity.
  - unfold representable. vm_compute. intuition discriminate.
Defined.

End WSBFacts.

Module InstitutionalFacts.
Import Py Institutional Scenarios.

Lemma date_range_eval {A} now days (k : datetime → outcome A) :
  (delta ← timedelta_days days; start_date ← datetime_sub now delta; k start_date)
  = if bool_decide (representable now days)
    then k (now - days * us_per_day)%Z
    else Raises OverflowError.
Proof.
  unfold timedelta_days, datetime_sub, representable.
  case_bool_decide as Hd; cbn [mbind outcome_bind].
  - case_bool_decide as Hs; cbn [mbind outcome_bind].
    + by rewrite bool_decide_eq_true_2.
    + rewrite bool_decide_eq_false_2; [done|]. tauto.
  - rewrite bool_decide_eq_false_2; [done|]. tauto.
Qed.

(** Whatever the service answers, the [try] of [fetch_alpha_vantage_news]
    ends in an empty list or in an exception. *)
Lemma alpha_vantage_try_dead self get ticker start_date end_date :
  alpha_vantage_try self get ticker start_date end_date = Returns []
  ∨ ∃ e, alpha_vantage_try self get ticker start_date end_date = Raises e.
Proof.
  unfold alpha_vantage_try. destruct (get _) as [response|e]; [|right; by exists e].
  cbn [mbind outcome_bind]. destruct (decide (status_code response = 200%Z)) as [H200|H200].
  - right. exists UnboundLocalError.
    rewrite (bool_decide_eq_true_2 (status_code response = 200%Z)) by done. reflexivity.
  - left. rewrite (bool_decide_eq_false_2 (status_code response = 200%Z)) by done.
    cbn [mbind outcome_bind].
    rewrite (bool_decide_eq_true_2 (status_code response ≠ 200%Z)) by done. reflexivity.
Qed.

(** On a 200 answer the [try] stops at line 54. *)
Lemma alpha_vantage_try_200 self get ticker start_date end_date response :
  get (alpha_vantage_url self ticker) = Returns response →
  status_code response = 200%Z →
  alpha_vantage_try self get ticker start_date end_date = Raises UnboundLocalError.
Proof.
  intros Hget H200. unfold alpha_vantage_try. rewrite Hget. cbn [mbind outcome_bind].
  rewrite (bool_decide_eq_true_2 (status_code response = 200%Z)) by done. reflexivity.
Qed.

(** The value of [fetch_alpha_vantage_news] in closed form. *)
Lemma fetch_alpha_vantage_news_eval self now get ticker days :
  fetch_alpha_vantage_news self now get ticker days
  = if key_missing (alpha_vantage_key self) "" then Returns []
    else if bool_decide (representable now days) then Returns []
    else Raises OverflowError.
Proof.
  unfold fetch_alpha_vantage_news. destruct (key_missing _ _); [done|].
  cbv zeta. rewrite date_range_eval. case_bool_decide; [|done].
  by destruct (alpha_vantage_try_dead self get ticker (now - days * us_per_day)%Z now)
    as [->|[e ->]].
Qed.

(** [fetch_news_api]: every article of the answer becomes a row, and a
    failure of any kind inside the [try] gives the empty list. *)
Lemma fetch_news_api_eval self now get ticker days :
  fetch_news_api self now get ticker days
  = if key_missing (news_api_key self) "your_news_api_key" then Returns []
    else if bool_decide (representable now days) then
      catch (news_api_try get (news_params self ticker (now - days * us_per_day)%Z now))
            (λ _, Returns [])
    else Raises OverflowError.
Proof.
  unfold fetch_news_api. destruct (key_missing _ _); [done|].
  cbv zeta. by rewrite date_range_eval.
Qed.

Lemma news_api_try_rows get params response arts :
  get params = Returns response →
  status_code response = 200%Z →
  json response = Returns {| articles := Some arts |} →
  news_api_try get params = mapM row_of_article arts.
Proof.
  intros Hget H200 Hjson. unfold news_api_try. rewrite Hget. cbn [mbind outcome_bind].
  rewrite (bool_decide_eq_false_2 (status_code response ≠ 200%Z)) by (intros H; by apply H).
  rewrite Hjson. cbn [mbind outcome_bind articles default]. by destruct arts.
Qed.

Lemma catch_returns {A} (body : outcome (list A)) :
  ∃ rows, catch body (λ _, Returns []) = Returns rows.
Proof. destruct body; cbn [catch]; eauto. Qed.

Lemma too_long_not_representable now :
  (0 ≤ now ≤ datetime_max)%Z → ¬ representable now too_long.
Proof.
  unfold representable, too_long, datetime_max, us_per_day. lia.
Qed.

End InstitutionalFacts.

Module AdapterFacts.
Import Py Scenarios.

Lemma mapM_Returns {A B} (f : A → outcome B) (l : list A) (k : list B) :
  mapM f l = Returns k → Forall2 (λ x y, f x = Returns y) l k.
Proof.
  revert k. induction l as [|x l IH]; intros k; cbn [mapM].
  - intros [= <-]. constructor.
  - destruct (f x) as [y|] eqn:Hy; [|done]. cbn [mbind outcome_bind].
    destruct (mapM f l) as [k'|]; [|done]. cbn [mbind outcome_bind].
    intros [= <-]. constructor; auto.
Qed.

(** A row of [fetch_wsb_posts] names the ticker, letter case ignored, in
    the title or the body of its submission, hence in its text. *)
Lemma wsb_row_names_ticker ticker start_date end_date post row :
  WSB.process_post ticker start_date end_date post = Returns (Some row) →
  ∃ title,
    WSB.Submission.title post = Some title
    ∧ WSB.Row.text row = (title ++ " " ++ fmt (WSB.Submission.selftext post))%string
    ∧ (occurs_ci ticker title
       ∨ ∃ body, WSB.Submission.selftext post = Some body ∧ occurs_ci ticker body)
    ∧ occurs_ci ticker (WSB.Row.text row).
Proof.
  intros Hp. apply WSBFacts.process_post_Some in Hp
    as (post_date & title & _ & _ & Htitle & Hin & ->).
  exists title. cbn [WSB.Row.text]. rewrite Htitle. cbn [fmt default].
  split; [done|]. split; [done|]. unfold occurs_ci. rewrite !PyFacts.upper_app.
  destruct Hin as [Hin|[(body & Hbody & _ & Hin)|Hin]].
  - apply PyFacts.contains_spec in Hin. split; [by left|]. by apply PyFacts.occurs_app_l.
  - apply PyFacts.contains_spec in Hin. split; [right; by exists body|].
    rewrite Hbody. cbn [fmt default]. by do 2 apply PyFacts.occurs_app_r.
  - apply PyFacts.contains_spec, PyFacts.occurs_in_empty in Hin. rewrite Hin.
    split; [left|]; apply PyFacts.occurs_empty.
Qed.

(** C4, as stated, fails on [fetch_news_api]: an article about the company,
    matched by the query [AAPL OR Apple], is returned although neither its
    title nor its description contains the ticker. *)
Lemma news_api_row_without_ticker :
  Institutional.fetch_news_api News.keyed now0 News.news_service "AAPL" 7
  = Returns [News.apple_row]
  ∧ Institutional.q (Institutional.news_params News.keyed "AAPL"
                       (now0 - 7 * us_per_day)%Z now0) = "AAPL OR Apple"
  ∧ ¬ occurs_ci "AAPL" "Apple unveils new iPhone"
  ∧ ¬ occurs_ci "AAPL" "Cupertino event draws crowds"
  ∧ ¬ occurs_ci "AAPL" (Institutional.Row.text News.apple_row).
Proof.
  split; [by vm_compute|]. split; [by vm_compute|].
  unfold occurs_ci. rewrite <- !PyFacts.contains_spec. by vm_compute.
Qed.

(** C4, amended.  Every row returned by [fetch_wsb_posts] comes from a
    submission whose title or body contains the ticker, letter case
    ignored.  [fetch_alpha_vantage_news] returns no row.  [fetch_news_api]
    applies no such test: it returns the row of every article of the
    answer, or nothing when one of them fails to parse. *)
Theorem ticker_filter_scope (ticker : string) (days : Z) :
  (∀ self now rows row,
     WSB.fetch_wsb_posts self now ticker days = Returns rows → row ∈ rows →
     ∃ post title,
       WSB.Submission.title post = Some title
       ∧ WSB.Row.text row = (title ++ " " ++ fmt (WSB.Submission.selftext post))%string
       ∧ (occurs_ci ticker title
          ∨ ∃ body, WSB.Submission.selftext post = Some body ∧ occurs_ci ticker body)
       ∧ occurs_ci ticker (WSB.Row.text row))
  ∧ (∀ self now get rows,
       Institutional.fetch_alpha_vantage_news self now get ticker days = Returns rows →
       rows = [])
  ∧ (∀ self now get response arts,
       Institutional.key_missing (Institutional.news_api_key self) "your_news_api_key" = false →
       representable now days →
       get (Institutional.news_params self ticker (now - days * us_per_day)%Z now)
         = Returns response →
       Institutional.status_code response = 200%Z →
       Institutional.json response = Returns {| Institutional.articles := Some arts |} →
       Institutional.fetch_news_api self now get ticker days
       = catch (mapM Institutional.row_of_article arts) (λ _, Returns [])).
Proof.
  split; [|split].
  - intros self now rows row Hfetch Hrow.
    destruct (WSBFacts.fetch_wsb_posts_origin _ _ _ _ _ _ Hfetch Hrow)
      as (_ & _ & post & _ & _ & _ & Hp).
    destruct (wsb_row_names_ticker _ _ _ _ _ Hp) as (title & H). by exists post, title.
  - intros self now get rows. rewrite InstitutionalFacts.fetch_alpha_vantage_news_eval.
    destruct (Institutional.key_missing _ _); [by intros [= <-]|].
    case_bool_decide; [by intros [= <-]|done].
  - intros self now get response arts Hkey Hrep Hget H200 Hjson.
    rewrite InstitutionalFacts.fetch_news_api_eval, Hkey.
    rewrite bool_decide_eq_true_2 by done.
    by rewrite (InstitutionalFacts.news_api_try_rows _ _ _ _ Hget H200 Hjson).
Qed.

Lemma ticker_filter_scope_witness :
  occurs_ci "AAPL" (WSB.Row.text Social.older_row)
  ∧ Institutional.fetch_news_api News.keyed now0 News.news_service "AAPL" 7
    = catch (mapM Institutional.row_of_article [News.apple_article]) (λ _, Returns []).
Proof.
  split.
  - destruct (proj1 (ticker_filter_scope "AAPL" 7)
                (Social.fetcher Social.disjoint) now0
                [Social.aapl_row; Social.older_row] Social.older_row)
      as (post & title & _ & _ & _ & H).
    + vm_compute. reflexivity.
    + apply list_elem_of_lookup. by exists 1%nat.
    + exact H.
  - refine (proj2 (proj2 (ticker_filter_scope "AAPL" 7))
              News.keyed now0 News.news_service _ [News.apple_article] _ _ _ _ _).
    + reflexivity.
    + unfold representable. vm_compute. intuition discriminate.
    + reflexivity.
    + reflexivity.
    + reflexivity.
Defined.

Lemma row_of_article_timestamp a r t :
  Institutional.row_of_article a = Returns r →
  Institutional.Article.publishedAt a = Some (Instant t) →
  Institutional.Row.timestamp r = Some t.
Proof.
  unfold Institutional.row_of_article. intros Hr Hp. rewrite Hp in Hr.
  cbn in Hr. destruct (Institutional.publisher_of a); [|done].
  cbn in Hr. by injection Hr as <-.
Qed.

(** C5, as stated, fails on [fetch_news_api]: an article published on the
    first day of the requested range, before the window opens, is returned.
    Its date lies between the [from] and [to] of the query. *)
Lemma news_api_row_before_window :
  Institutional.fetch_news_api News.keyed now0 News.news_service "AAPL" 7
  = Returns [News.apple_row]
  ∧ Institutional.Row.timestamp News.apple_row = Some News.apple_published
  ∧ (News.apple_published < now0 - 7 * us_per_day)%Z
  ∧ (Institutional.from (Institutional.news_params News.keyed "AAPL"
                           (now0 - 7 * us_per_day)%Z now0)
     ≤ date_of News.apple_published
     ≤ Institutional.to (Institutional.news_params News.keyed "AAPL"
                           (now0 - 7 * us_per_day)%Z now0))%Z.
Proof.
  split; [by vm_compute|]. split; [done|]. split; [by vm_compute|].
  split; by vm_compute.
Qed.

(** C5, amended.  Every row returned by [fetch_wsb_posts] has its timestamp
    within [now - days, now].  [fetch_alpha_vantage_news] returns no row.
    [fetch_news_api] sends the window to the service as the dates [from] and
    [to] and applies no test of its own: each article of the answer is
    returned with the timestamp it carries. *)
Theorem time_window_scope (ticker : string) (days : Z) :
  (∀ self now rows row,
     WSB.fetch_wsb_posts self now ticker days = Returns rows → row ∈ rows →
     (now - days * us_per_day ≤ WSB.Row.timestamp row ≤ now)%Z)
  ∧ (∀ self now get rows,
       Institutional.fetch_alpha_vantage_news self now get ticker days = Returns rows →
       rows = [])
  ∧ (∀ self now get response arts rows,
       Institutional.key_missing (Institutional.news_api_key self) "your_news_api_key" = false →
       representable now days →
       get (Institutional.news_params self ticker (now - days * us_per_day)%Z now)
         = Returns response →
       Institutional.status_code response = 200%Z →
       Institutional.json response = Returns {| Institutional.articles := Some arts |} →
       mapM Institutional.row_of_article arts = Returns rows →
       Institutional.fetch_news_api self now get ticker days = Returns rows
       ∧ Institutional.from (Institutional.news_params self ticker
                               (now - days * us_per_day)%Z now)
         = date_of (now - days * us_per_day)%Z
       ∧ Institutional.to (Institutional.news_params self ticker
                             (now - days * us_per_day)%Z now)
         = date_of now
       ∧ Forall2 (λ a r, ∀ t, Institutional.Article.publishedAt a = Some (Instant t) →
                              Institutional.Row.timestamp r = Some t) arts rows).
Proof.
  split; [|split].
  - intros self now rows row Hfetch Hrow.
    destruct (WSBFacts.fetch_wsb_posts_origin _ _ _ _ _ _ Hfetch Hrow)
      as (_ & _ & post & _ & _ & _ & Hp).
    apply WSBFacts.process_post_Some in Hp as (post_date & _ & _ & Hwin & _ & _ & ->).
    exact Hwin.
  - intros self now get rows. rewrite InstitutionalFacts.fetch_alpha_vantage_news_eval.
    destruct (Institutional.key_missing _ _); [by intros [= <-]|].
    case_bool_decide; [by intros [= <-]|done].
  - intros self now get response arts rows Hkey Hrep Hget H200 Hjson Hrows.
    split; [|split; [done|split; [done|]]].
    + rewrite InstitutionalFacts.fetch_news_api_eval, Hkey.
      rewrite bool_decide_eq_true_2 by done.
      by rewrite (InstitutionalFacts.news_api_try_rows _ _ _ _ Hget H200 Hjson), Hrows.
    + eapply Forall2_impl; [by apply mapM_Returns|].
      intros a r Hr t. by apply row_of_article_timestamp.
Qed.

Lemma time_window_scope_witness :
  (now0 - 7 * us_per_day ≤ WSB.Row.timestamp Social.older_row ≤ now0)%Z
  ∧ Institutional.fetch_news_api News.keyed now0 News.news_service "AAPL" 7
    = Returns [News.apple_row].
Proof.
  split.
  - apply (proj1 (time_window_scope "AAPL" 7)
             (Social.fetcher Social.disjoint) now0
             [Social.aapl_row; Social.older_row] Social.older_row).
    + vm_compute. reflexivity.
    + apply list_elem_of_lookup. by exists 1%nat.
  - refine (proj1 (proj2 (proj2 (time_window_scope "AAPL" 7))
             News.keyed now0 News.news_service _ [News.apple_article] _ _ _ _ _ _ _)).
    + reflexivity.
    + unfold representable. vm_compute. intuition discriminate.
    + reflexivity.
    + reflexivity.
    + reflexivity.
    + vm_compute. reflexivity.
Defined.

(** Without credentials each adapter returns the empty list. *)
Lemma fetch_without_credentials now ticker days get_av get_na :
  WSB.fetch_wsb_posts {| WSB.reddit := None |} now ticker days = Returns []
  ∧ Institutional.fetch_alpha_vantage_news News.no_keys now get_av ticker days = Returns []
  ∧ Institutional.fetch_news_api News.no_keys now get_na ticker days = Returns [].
Proof. done. Qed.

(** When the date range can be computed no adapter raises, whatever the
    services do. *)
Lemma fetch_returns_when_representable wsb self now ticker days get_av get_na :
  representable now days →
  (∃ rows, WSB.fetch_wsb_posts wsb now ticker days = Returns rows)
  ∧ (∃ rows, Institutional.fetch_alpha_vantage_news self now get_av ticker days = Returns rows)
  ∧ (∃ rows, Institutional.fetch_news_api self now get_na ticker days = Returns rows).
Proof.
  intros Hrep. split; [apply WSBFacts.fetch_wsb_posts_returns|]. split.
  - rewrite InstitutionalFacts.fetch_alpha_vantage_news_eval.
    destruct (Institutional.key_missing _ _); [by eexists|].
    rewrite bool_decide_eq_true_2 by done. by eexists.
  - rewrite InstitutionalFacts.fetch_news_api_eval.
    destruct (Institutional.key_missing _ _); [by eexists|].
    rewrite bool_decide_eq_true_2 by done. apply InstitutionalFacts.catch_returns.
Qed.

(** Outside the lookbacks the callers pass, where the date range cannot be
    computed, the two news fetches raise: they compute the range before
    their [try]. *)
Lemma institutional_fetch_raises wsb self now get_av get_na ticker days :
  ¬ representable now days →
  (Institutional.key_missing (Institutional.alpha_vantage_key self) "" = false →
   Institutional.fetch_alpha_vantage_news self now get_av ticker days = Raises OverflowError)
  ∧ (Institutional.key_missing (Institutional.news_api_key self) "your_news_api_key" = false →
     Institutional.fetch_news_api self now get_na ticker days = Raises OverflowError)
  ∧ WSB.fetch_wsb_posts wsb now ticker days = Returns [].
Proof.
  intros Hrep. split; [|split].
  - intros Hkey. rewrite InstitutionalFacts.fetch_alpha_vantage_news_eval, Hkey.
    by rewrite bool_decide_eq_false_2.
  - intros Hkey. rewrite InstitutionalFacts.fetch_news_api_eval, Hkey.
    by rewrite bool_decide_eq_false_2.
  - by destruct (WSBFacts.fetch_wsb_posts_shape wsb now ticker days)
      as [?|(_ & _ & _ & _ & _ & ? & _)].
Qed.

Lemma now0_in_range : (0 ≤ now0 ≤ datetime_max)%Z.
Proof. by vm_compute. Qed.

(** C6, as stated, fails on [fetch_wsb_posts]: when the connection drops
    while a search is read, the rows appended so far are kept and returned;
    the result is not the empty frame. *)
Lemma wsb_keeps_rows_after_fault :
  WSB.fault (WSB.search MoreScenarios.Social.dropping "AAPL" "day" 100)
  = Some RequestException
  ∧ WSB.fetch_wsb_posts (Social.fetcher MoreScenarios.Social.dropping) now0 "AAPL" 7
    = Returns [Social.aapl_row]
  ∧ [Social.aapl_row] ≠ [].
Proof. split; [done|]. split; [by vm_compute|done]. Qed.

(** C6, amended.  For every lookback whose date range can be computed (every
    lookback the callers pass), no adapter fetch raises to its caller,
    whatever the services do.  Without credentials each returns the empty
    frame.  [fetch_alpha_vantage_news] always returns the empty frame.
    [fetch_news_api] returns the empty frame on every exception inside its
    [try]: a request that raises, a status other than 200 (as for a
    rejected key), a body that is not JSON.  [fetch_wsb_posts] returns the
    empty frame when the subreddit cannot be reached; an exception while a
    search or a listing is read only ends that search or listing, and the
    rows appended so far are kept: the fetch returns the rows kept from
    all the submissions that the searches it iterates over yield before
    they end (those of the 'day' search first), or else from all that the
    listings yield. *)
Theorem adapters_do_not_raise wsb self now ticker days get_av get_na :
  representable now days →
  let params :=
    Institutional.news_params self ticker (now - days * us_per_day)%Z now in
  ((∃ rows, WSB.fetch_wsb_posts wsb now ticker days = Returns rows)
   ∧ Institutional.fetch_alpha_vantage_news self now get_av ticker days = Returns []
   ∧ (∃ rows, Institutional.fetch_news_api self now get_na ticker days = Returns rows))
  ∧ ((WSB.reddit wsb = None → WSB.fetch_wsb_posts wsb now ticker days = Returns [])
     ∧ (Institutional.key_missing (Institutional.news_api_key self) "your_news_api_key"
        = true →
        Institutional.fetch_news_api self now get_na ticker days = Returns []))
  ∧ ((∀ client e,
        WSB.reddit wsb = Some client →
        WSB.subreddit client "wallstreetbets" = Raises e →
        WSB.fetch_wsb_posts wsb now ticker days = Returns [])
     ∧ (∀ e, Institutional.news_api_try get_na params = Raises e →
             Institutional.fetch_news_api self now get_na ticker days = Returns [])
     ∧ (∀ e, get_na params = Raises e →
             Institutional.fetch_news_api self now get_na ticker days = Returns [])
     ∧ (∀ response,
          get_na params = Returns response →
          Institutional.status_code response ≠ 200%Z
          ∨ (∃ e, Institutional.json response = Raises e) →
          Institutional.fetch_news_api self now get_na ticker days = Returns []))
  ∧ (∀ client sub,
       WSB.reddit wsb = Some client →
       WSB.subreddit client "wallstreetbets" = Returns sub →
       let start_date := (now - days * us_per_day)%Z in
       let iterated := WSB.consulted sub ticker start_date now WSB.time_filters [] in
       WSB.yields (WSB.search sub ticker "day" 100) `prefix_of` iterated
       ∧ WSB.fetch_wsb_posts wsb now ticker days
         = Returns (omap (WSB.kept ticker start_date now)
                      match omap (WSB.kept ticker start_date now) iterated with
                      | [] => WSB.listed sub
                      | _ :: _ => iterated
                      end)).
Proof.
  intros Hrep params.
  assert (∀ e, Institutional.news_api_try get_na params = Raises e →
               Institutional.fetch_news_api self now get_na ticker days = Returns [])
    as Htry.
  { intros e He. rewrite InstitutionalFacts.fetch_news_api_eval.
    destruct (Institutional.key_missing _ _); [done|].
    rewrite bool_decide_eq_true_2 by done. fold params. by rewrite He. }
  assert (Institutional.fetch_alpha_vantage_news self now get_av ticker days = Returns [])
    as Hav.
  { rewrite InstitutionalFacts.fetch_alpha_vantage_news_eval.
    destruct (Institutional.key_missing _ _); [done|]. by rewrite bool_decide_eq_true_2. }
  split; [|split; [|split; [split; [|split; [|split]]|]]].
  - split; [apply WSBFacts.fetch_wsb_posts_returns|]. split; [done|].
    rewrite InstitutionalFacts.fetch_news_api_eval.
    destruct (Institutional.key_missing _ _); [by eexists|].
    rewrite bool_decide_eq_true_2 by done. apply InstitutionalFacts.catch_returns.
  - split.
    + intros Hnone. unfold WSB.fetch_wsb_posts. by rewrite Hnone.
    + intros Hkey. by rewrite InstitutionalFacts.fetch_news_api_eval, Hkey.
  - intros client e Hclient Hsub. unfold WSB.fetch_wsb_posts. rewrite Hclient.
    destruct Hrep as [Hdays Hrange]. unfold timedelta_days, datetime_sub.
    rewrite bool_decide_eq_true_2 by done. cbn [mbind outcome_bind].
    rewrite bool_decide_eq_true_2 by done. cbn [mbind outcome_bind catch].
    by rewrite Hsub.
  - exact Htry.
  - intros e He. apply (Htry e). unfold Institutional.news_api_try. by rewrite He.
  - intros response Hget Hbad.
    rewrite InstitutionalFacts.fetch_news_api_eval.
    destruct (Institutional.key_missing _ _); [done|].
    rewrite bool_decide_eq_true_2 by done. fold params.
    unfold Institutional.news_api_try. rewrite Hget. cbn [mbind outcome_bind].
    case_bool_decide as H200; [done|].
    destruct Hbad as [?|[e ->]]; [done|]. done.
  - intros client sub Hclient Hsub start_date iterated. split.
    + subst iterated. unfold WSB.time_filters. cbn [WSB.consulted]. by apply prefix_app_r.
    + by apply (WSBFacts.fetch_wsb_posts_rows wsb now ticker days client sub).
Qed.

Lemma adapters_do_not_raise_witness :
  Institutional.fetch_alpha_vantage_news News.keyed now0 News.alpha_service "AAPL" 7
  = Returns [].
Proof.
  refine (proj1 (proj2 (proj1 (adapters_do_not_raise
            (Social.fetcher Social.overlapping) News.keyed now0 "AAPL" 7
            News.alpha_service News.news_service _)))).
  apply PyFacts.lookback_representable; [by vm_compute|lia].
Defined.

Section NewsOnly.

Variable analyze_text : string → outcome (Q * Q * Q).

(** With the Alpha Vantage frame empty, the institutional frame is the
    scored News API frame. *)
Lemma get_institutional_sentiment_news_only self now_av now_na get_av get_na ticker days :
  Institutional.key_missing (Institutional.alpha_vantage_key self) "" = true
  ∨ representable now_av days →
  Institutional.get_institutional_sentiment analyze_text self now_av now_na
    get_av get_na ticker days
  = (news_api_df ← Institutional.fetch_news_api self now_na get_na ticker days;
     match news_api_df with
     | [] => Returns []
     | _ :: _ =>
         Institutional.analyze_dataframe analyze_text ((λ r, (r, ticker)) <$> news_api_df)
     end).
Proof.
  intros Hin. unfold Institutional.get_institutional_sentiment.
  assert (Institutional.fetch_alpha_vantage_news self now_av get_av ticker days = Returns [])
    as ->.
  { rewrite InstitutionalFacts.fetch_alpha_vantage_news_eval.
    destruct Hin as [->|Hrep]; [done|].
    destruct (Institutional.key_missing _ _); [done|]. by rewrite bool_decide_eq_true_2. }
  cbn [mbind outcome_bind].
  destruct (Institutional.fetch_news_api self now_na get_na ticker days) as [[|r rs]|e];
    cbn [mbind outcome_bind app concat]; [done| |done].
  by rewrite app_nil_r.
Qed.

(** Outside the lookbacks the callers pass, where the date range cannot be
    computed, the fetch raises before its [try] is entered. *)
Lemma alpha_vantage_raises_on_overflow :
  Institutional.fetch_alpha_vantage_news News.keyed now0 News.alpha_service "AAPL" too_long
  = Raises OverflowError
  ∧ Institutional.get_institutional_sentiment (λ _, Returns (0.1, 0.2, 0.7)%Q)
      News.keyed now0 now0 News.alpha_service News.news_service "AAPL" too_long
    = Raises OverflowError.
Proof. split; by vm_compute. Qed.

(** C10.  Whenever the key is missing or the date range can be computed
    (as it can for every lookback the callers pass),
    [fetch_alpha_vantage_news] returns the empty list whatever the service
    answers: on a 200 answer the [try] stops at line 54 with
    UnboundLocalError (a NameError), which the handler turns into the empty
    list.  [get_institutional_sentiment] then returns the scored rows of
    [fetch_news_api] alone. *)
Theorem alpha_vantage_always_empty self now_av now_na get_av get_na ticker days :
  Institutional.key_missing (Institutional.alpha_vantage_key self) "" = true
  ∨ representable now_av days →
  Institutional.fetch_alpha_vantage_news self now_av get_av ticker days = Returns []
  ∧ (∀ response start_date end_date,
       get_av (Institutional.alpha_vantage_url self ticker) = Returns response →
       Institutional.status_code response = 200%Z →
       Institutional.alpha_vantage_try self get_av ticker start_date end_date
       = Raises UnboundLocalError)
  ∧ Institutional.get_institutional_sentiment analyze_text self now_av now_na
      get_av get_na ticker days
    = (news_api_df ← Institutional.fetch_news_api self now_na get_na ticker days;
       match news_api_df with
       | [] => Returns []
       | _ :: _ =>
           Institutional.analyze_dataframe analyze_text ((λ r, (r, ticker)) <$> news_api_df)
       end).
Proof.
  intros Hin. split; [|split].
  - rewrite InstitutionalFacts.fetch_alpha_vantage_news_eval.
    destruct Hin as [->|Hrep]; [done|].
    destruct (Institutional.key_missing _ _); [done|]. by rewrite bool_decide_eq_true_2.
  - intros response start_date end_date Hget H200.
    by eapply InstitutionalFacts.alpha_vantage_try_200.
  - by apply get_institutional_sentiment_news_only.
Qed.

End NewsOnly.

Lemma alpha_vantage_always_empty_witness :
  Institutional.fetch_alpha_vantage_news News.keyed now0 News.alpha_service "AAPL" 7
  = Returns []
  ∧ Institutional.alpha_vantage_try News.keyed News.alpha_service "AAPL"
      (now0 - 7 * us_per_day)%Z now0
    = Raises UnboundLocalError.
Proof.
  destruct (alpha_vantage_always_empty (λ _, Returns (0.1, 0.2, 0.7)%Q)
              News.keyed now0 now0 News.alpha_service News.news_service "AAPL" 7)
    as (Hempty & H200 & _).
  - right. unfold representable. vm_compute. intuition discriminate.
  - split; [exact Hempty|]. by eapply H200.
Defined.

End AdapterFacts.

(** * Further properties of the adapters *)

Module WSBExtras.
Import Py WSB Scenarios.

(** The search loop always starts with the rows it was given. *)
Lemma search_loop_prefix sub ticker start_date end_date filters posts :
  posts `prefix_of` search_loop sub ticker start_date end_date filters posts.
Proof.
  revert posts. induction filters as [|f filters IH]; intros posts; cbn [search_loop].
  - done.
  - rewrite WSBFacts.scan_app.
    assert (posts `prefix_of`
              posts ++ omap (kept ticker start_date end_date) (yields (search sub ticker f 100)))
      as Hpre by apply prefix_app_r, reflexivity.
    destruct (fault (search sub ticker f 100)); [by etrans; [|apply IH]|].
    case_bool_decide; [done|]. by etrans; [|apply IH].
Qed.

(** The search loop ends with no row only if it was given none and no
    searched submission is kept. *)
Lemma search_loop_nil sub ticker start_date end_date filters posts :
  search_loop sub ticker start_date end_date filters posts = [] →
  posts = []
  ∧ omap (kept ticker start_date end_date)
      (concat ((λ f, yields (search sub ticker f 100)) <$> filters)) = [].
Proof.
  revert posts. induction filters as [|f filters IH]; intros posts; cbn [search_loop].
  - intros ->. done.
  - rewrite WSBFacts.scan_app. cbn [fmap list_fmap concat]. rewrite omap_app.
    assert (search_loop sub ticker start_date end_date filters
              (posts ++ omap (kept ticker start_date end_date)
                         (yields (search sub ticker f 100))) = [] →
            posts = [] ∧
            omap (kept ticker start_date end_date) (yields (search sub ticker f 100)) ++
            omap (kept ticker start_date end_date)
              (concat ((λ f, yields (search sub ticker f 100)) <$> filters)) = [])
      as Hrec.
    { intros [Happ ->]%IH. apply app_eq_nil in Happ as [-> ->]. done. }
    destruct (fault (search sub ticker f 100)); [exact Hrec|].
    case_bool_decide as Hlen; [|exact Hrec].
    intros Hnil. rewrite Hnil in Hlen. cbn in Hlen. lia.
Qed.

(** What the body of [fetch_wsb_posts] returns once the client, the
    subreddit and the date range are there. *)
Lemma fetch_wsb_posts_body self now ticker days client sub :
  reddit self = Some client →
  subreddit client "wallstreetbets" = Returns sub →
  representable now days →
  fetch_wsb_posts self now ticker days
  = Returns
      (match search_loop sub ticker (now - days * us_per_day)%Z now time_filters [] with
       | [] => omap (kept ticker (now - days * us_per_day)%Z now) (listed sub)
       | row :: rows => row :: rows
       end).
Proof.
  intros Hclient Hsub Hrep. unfold fetch_wsb_posts. rewrite Hclient.
  rewrite InstitutionalFacts.date_range_eval, bool_decide_eq_true_2 by done.
  rewrite Hsub. cbn [catch].
  destruct (search_loop _ _ _ _ _ _) as [|row rows]; [|done].
  by rewrite WSBFacts.fetch_from_listings_rows.
Qed.

(** One round of the search loop. *)
Lemma search_loop_cons sub ticker start_date end_date f rest posts :
  search_loop sub ticker start_date end_date (f :: rest) posts
  = match fault (search sub ticker f 100) with
    | Some _ =>
        search_loop sub ticker start_date end_date rest
          (posts ++ omap (kept ticker start_date end_date) (yields (search sub ticker f 100)))
    | None =>
        if bool_decide
             (50 ≤ length (posts ++ omap (kept ticker start_date end_date)
                                       (yields (search sub ticker f 100))))%nat
        then posts ++ omap (kept ticker start_date end_date) (yields (search sub ticker f 100))
        else search_loop sub ticker start_date end_date rest
               (posts ++ omap (kept ticker start_date end_date)
                           (yields (search sub ticker f 100)))
    end.
Proof. cbn [search_loop]. by rewrite WSBFacts.scan_app. Qed.

Lemma searched_concat sub ticker :
  concat ((λ f, yields (search sub ticker f 100)) <$> time_filters) = searched sub ticker.
Proof. unfold searched, time_filters. cbn. by rewrite app_nil_r. Qed.

(** X1.  Every row returned by [fetch_wsb_posts] carries the source tag
    'WallStreetBets' and the queried ticker, and is made from a submission
    the client yielded: its url is the Reddit address of that submission's
    permalink, its score and comment count are copied, and its timestamp is
    the conversion of [created_utc]. *)
Theorem wsb_rows_provenance self now ticker days rows row :
  fetch_wsb_posts self now ticker days = Returns rows → row ∈ rows →
  Row.source row = "WallStreetBets"
  ∧ Row.ticker row = ticker
  ∧ ∃ client sub post,
      reddit self = Some client
      ∧ subreddit client "wallstreetbets" = Returns sub
      ∧ post ∈ searched sub ticker ++ listed sub
      ∧ Row.url row = ("https://www.reddit.com" ++ Submission.permalink post)%string
      ∧ Row.score row = Submission.score post
      ∧ Row.num_comments row = Submission.num_comments post
      ∧ fromtimestamp (Submission.created_utc post) = Returns (Row.timestamp row).
Proof.
  intros Hfetch Hrow.
  destruct (WSBFacts.fetch_wsb_posts_origin _ _ _ _ _ _ Hfetch Hrow)
    as (client & sub & post & Hc & Hs & Hpost & Hp).
  apply WSBFacts.process_post_Some in Hp as (post_date & title & Hts & _ & _ & _ & ->).
  cbn. split; [done|]. split; [done|]. by exists client, sub, post.
Qed.

Lemma wsb_rows_provenance_witness :
  Row.source Social.older_row = "WallStreetBets" ∧ Row.ticker Social.older_row = "AAPL".
Proof.
  destruct (wsb_rows_provenance (Social.fetcher Social.disjoint) now0 "AAPL" 7
              [Social.aapl_row; Social.older_row] Social.older_row) as (Hs & Ht & _).
  - vm_compute. reflexivity.
  - apply list_elem_of_lookup. by exists 1%nat.
  - by split.
Defined.

(** X2.  A submission the loop cannot process (its title is [None], or
    its [created_utc] cannot be converted) is skipped: the scan of a listing
    gives the same rows with or without it, whatever comes before or
    after. *)
Theorem malformed_post_skipped ticker start_date end_date before bad after posts :
  Submission.title bad = None
  ∨ (∃ e, fromtimestamp (Submission.created_utc bad) = Raises e) →
  scan ticker start_date end_date (before ++ bad :: after) posts
  = scan ticker start_date end_date (before ++ after) posts.
Proof.
  intros Hbad.
  assert (kept ticker start_date end_date bad = None) as Hk.
  { unfold kept, process_post. destruct Hbad as [Htitle|[e He]].
    - rewrite Htitle. destruct (fromtimestamp _); [|done]. cbn [mbind outcome_bind].
      by case_bool_decide.
    - by rewrite He. }
  rewrite !WSBFacts.scan_app, !omap_app. cbn [omap list_omap]. by rewrite Hk.
Qed.

Lemma malformed_post_skipped_witness :
  scan "AAPL" (now0 - 7 * us_per_day)%Z now0
    ([Social.older_post] ++ MoreScenarios.Social.untitled_post :: [Social.aapl_post]) []
  = [Social.older_row; Social.aapl_row].
Proof.
  rewrite (malformed_post_skipped "AAPL" (now0 - 7 * us_per_day)%Z now0
             [Social.older_post] MoreScenarios.Social.untitled_post [Social.aapl_post] []).
  - vm_compute. reflexivity.
  - left. reflexivity.
Defined.

(** X3.  Once a search has been iterated to its end and at least 50 rows
    are held, the loop stops: when the 'day' search alone keeps 50 rows,
    the result is exactly those rows, and neither the 'week' and 'month'
    searches nor the listings contribute. *)
Theorem search_stops_at_fifty self now ticker days client sub :
  reddit self = Some client →
  subreddit client "wallstreetbets" = Returns sub →
  representable now days →
  fault (search sub ticker "day" 100) = None →
  (50 ≤ length (omap (kept ticker (now - days * us_per_day)%Z now)
                  (yields (search sub ticker "day" 100))))%nat →
  fetch_wsb_posts self now ticker days
  = Returns (omap (kept ticker (now - days * us_per_day)%Z now)
               (yields (search sub ticker "day" 100))).
Proof.
  intros Hclient Hsub Hrep Hfault Hlen.
  rewrite (fetch_wsb_posts_body _ _ _ _ _ _ Hclient Hsub Hrep).
  unfold time_filters. rewrite search_loop_cons, Hfault. cbn [app].
  rewrite bool_decide_eq_true_2 by done.
  destruct (omap _ _) as [|row rows]; [cbn in Hlen; lia|done].
Qed.

Lemma search_stops_at_fifty_witness :
  fetch_wsb_posts (Social.fetcher MoreScenarios.Social.busy) now0 "AAPL" 7
  = Returns (replicate 50 Social.aapl_row).
Proof.
  rewrite (search_stops_at_fifty (Social.fetcher MoreScenarios.Social.busy) now0 "AAPL" 7
             {| subreddit := λ _, Returns MoreScenarios.Social.busy |}
             MoreScenarios.Social.busy).
  - vm_compute. reflexivity.
  - reflexivity.
  - reflexivity.
  - unfold representable. vm_compute. intuition discriminate.
  - reflexivity.
  - vm_compute. lia.
Defined.

(** X4.  The hot, new and top listings are a fallback: when no searched
    submission is kept, the result is exactly the kept submissions of hot,
    new and top, in that order, whether or not a listing breaks; when some
    searched submission is kept, the result is not empty and every row
    comes from a search. *)
Theorem listings_are_a_fallback self now ticker days client sub rows :
  reddit self = Some client →
  subreddit client "wallstreetbets" = Returns sub →
  fetch_wsb_posts self now ticker days = Returns rows →
  representable now days →
  (omap (kept ticker (now - days * us_per_day)%Z now) (searched sub ticker) = [] →
   rows = omap (kept ticker (now - days * us_per_day)%Z now) (listed sub))
  ∧ (omap (kept ticker (now - days * us_per_day)%Z now) (searched sub ticker) ≠ [] →
     rows ≠ []
     ∧ ∃ consumed, consumed `sublist_of` searched sub ticker
         ∧ rows = omap (kept ticker (now - days * us_per_day)%Z now) consumed).
Proof.
  intros Hclient Hsub Hfetch Hrep.
  rewrite (fetch_wsb_posts_body _ _ _ _ _ _ Hclient Hsub Hrep) in Hfetch.
  destruct (WSBFacts.search_loop_rows sub ticker (now - days * us_per_day)%Z now
              time_filters []) as (consumed & Hcons & Heq).
  rewrite searched_concat in Hcons. cbn [app] in Heq.
  remember (search_loop sub ticker (now - days * us_per_day)%Z now time_filters [])
    as loop eqn:Hloop.
  symmetry in Hloop. destruct loop as [|row rest]; injection Hfetch as <-.
  - apply search_loop_nil in Hloop as [_ Hnone]. rewrite searched_concat in Hnone.
    split; [done|]. intros Hsome. by destruct Hsome.
  - split.
    + intros Hnone. exfalso.
      assert (row ∈ omap (kept ticker (now - days * us_per_day)%Z now) consumed) as Hin
        by (rewrite <- Heq; apply elem_of_cons; by left).
      apply list_elem_of_omap in Hin as (post & Hpost & Hk).
      assert (row ∈ omap (kept ticker (now - days * us_per_day)%Z now) (searched sub ticker))
        as Hin'.
      { apply list_elem_of_omap. exists post. split; [|done]. by eapply elem_of_sublist. }
      rewrite Hnone in Hin'. by apply elem_of_nil in Hin'.
    + intros _. split; [done|]. by exists consumed.
Qed.

Lemma listings_are_a_fallback_witness :
  [Social.aapl_row; Social.older_row]
  = omap (kept "AAPL" (now0 - 7 * us_per_day)%Z now0) (listed MoreScenarios.Social.quiet).
Proof.
  destruct (listings_are_a_fallback (Social.fetcher MoreScenarios.Social.quiet) now0 "AAPL" 7
              {| subreddit := λ _, Returns MoreScenarios.Social.quiet |}
              MoreScenarios.Social.quiet [Social.aapl_row; Social.older_row])
    as [Hlist _].
  - reflexivity.
  - reflexivity.
  - vm_compute. reflexivity.
  - unfold representable. vm_compute. intuition discriminate.
  - apply Hlist. vm_compute. reflexivity.
Defined.

Lemma length_kept ticker start_date end_date (l : list Submission.t) :
  (length (omap (kept ticker start_date end_date) l) ≤ length l)%nat.
Proof.
  induction l as [|post l IH]; [done|]. cbn [omap list_omap length].
  destruct (kept ticker start_date end_date post); cbn [length]; lia.
Qed.

(** With searches that end without fault and yield at most 100
    submissions each, the loop holds at most 149 rows: fewer than 50 before
    the search that takes it past 50, and at most 100 from that one. *)
Lemma search_loop_bound sub ticker start_date end_date filters posts :
  (∀ f, f ∈ filters →
     fault (search sub ticker f 100) = None
     ∧ (length (yields (search sub ticker f 100)) ≤ 100)%nat) →
  (length posts < 50)%nat →
  (length (search_loop sub ticker start_date end_date filters posts) ≤ 149)%nat.
Proof.
  revert posts. induction filters as [|f filters IH]; intros posts Hall Hlen.
  - cbn [search_loop]. lia.
  - rewrite search_loop_cons.
    destruct (Hall f) as [-> Hf]; [apply elem_of_cons; by left|].
    pose proof (length_kept ticker start_date end_date (yields (search sub ticker f 100))).
    case_bool_decide as Hfifty.
    + rewrite length_app. lia.
    + apply IH; [|lia]. intros f' Hf'. apply Hall, elem_of_cons. by right.
Qed.

(** X5.  When the client honours [limit=100], [fetch_wsb_posts] returns at
    most 300 rows; when moreover no search breaks and some searched
    submission is kept, it returns at most 149. *)
Theorem wsb_row_count_bounded self now ticker days client sub rows :
  reddit self = Some client →
  subreddit client "wallstreetbets" = Returns sub →
  fetch_wsb_posts self now ticker days = Returns rows →
  (∀ f, f ∈ time_filters → (length (yields (search sub ticker f 100)) ≤ 100)%nat) →
  (length (yields (hot sub 100)) ≤ 100)%nat →
  (length (yields (new sub 100)) ≤ 100)%nat →
  (length (yields (top sub "week" 100)) ≤ 100)%nat →
  (length rows ≤ 300)%nat
  ∧ ((∀ f, f ∈ time_filters → fault (search sub ticker f 100) = None) →
     omap (kept ticker (now - days * us_per_day)%Z now) (searched sub ticker) ≠ [] →
     (length rows ≤ 149)%nat).
Proof.
  intros Hclient Hsub Hfetch Hsearch Hhot Hnew Htop.
  assert (length (searched sub ticker) ≤ 300)%nat as Hs.
  { unfold searched. rewrite !length_app.
    pose proof (Hsearch "day"). pose proof (Hsearch "week"). pose proof (Hsearch "month").
    unfold time_filters in *. rewrite !elem_of_cons in *. intuition lia. }
  assert (length (listed sub) ≤ 300)%nat as Hl.
  { unfold listed. rewrite !length_app. lia. }
  destruct (WSBFacts.fetch_wsb_posts_shape self now ticker days)
    as [Hnil|(client' & sub' & consumed & Hc & Hs' & Hrep & Hcons & Heq)].
  { rewrite Hnil in Hfetch. injection Hfetch as <-. cbn. split; intros; lia. }
  rewrite Hclient in Hc. injection Hc as <-. rewrite Hsub in Hs'. injection Hs' as <-.
  split.
  - rewrite Heq in Hfetch. injection Hfetch as <-.
    pose proof (length_kept ticker (now - days * us_per_day)%Z now consumed).
    destruct Hcons as [Hsl%sublist_length|Hsl%sublist_length]; lia.
  - intros Hfault Hsome.
    rewrite (fetch_wsb_posts_body _ _ _ _ _ _ Hclient Hsub Hrep) in Hfetch.
    pose proof (search_loop_bound sub ticker (now - days * us_per_day)%Z now
                  time_filters []) as Hbound.
    remember (search_loop sub ticker (now - days * us_per_day)%Z now time_filters [])
      as loop eqn:Hloop.
    symmetry in Hloop. destruct loop as [|row rest]; injection Hfetch as <-.
    + apply search_loop_nil in Hloop as [_ Hnone]. rewrite searched_concat in Hnone. done.
    + apply Hbound; [|cbn; lia]. intros f Hf. split; [by apply Hfault|by apply Hsearch].
Qed.

Lemma wsb_row_count_bounded_witness :
  (length [Social.aapl_row; Social.older_row] ≤ 300)%nat.
Proof.
  refine (proj1 (wsb_row_count_bounded (Social.fetcher Social.disjoint) now0 "AAPL" 7
                   {| subreddit := λ _, Returns Social.disjoint |} Social.disjoint
                   [Social.aapl_row; Social.older_row] _ _ _ _ _ _ _)).
  - reflexivity.
  - reflexivity.
  - vm_compute. reflexivity.
  - intros f Hf. unfold time_filters in Hf.
    repeat (apply elem_of_cons in Hf as [->|Hf]); try by apply elem_of_nil in Hf.
    all: vm_compute; lia.
  - vm_compute. lia.
  - vm_compute. lia.
  - vm_compute. lia.
Defined.

(** X6.  Whatever breaks later, the rows kept from the 'day' search are
    never lost: when there are any, the result starts with them, in the
    order the search yielded them. *)
Theorem day_rows_come_first self now ticker days client sub rows :
  reddit self = Some client →
  subreddit client "wallstreetbets" = Returns sub →
  fetch_wsb_posts self now ticker days = Returns rows →
  representable now days →
  omap (kept ticker (now - days * us_per_day)%Z now) (yields (search sub ticker "day" 100))
    ≠ [] →
  omap (kept ticker (now - days * us_per_day)%Z now) (yields (search sub ticker "day" 100))
    `prefix_of` rows.
Proof.
  intros Hclient Hsub Hfetch Hrep Hday.
  rewrite (fetch_wsb_posts_body _ _ _ _ _ _ Hclient Hsub Hrep) in Hfetch.
  assert (omap (kept ticker (now - days * us_per_day)%Z now)
            (yields (search sub ticker "day" 100))
          `prefix_of` search_loop sub ticker (now - days * us_per_day)%Z now time_filters [])
    as Hpre.
  { unfold time_filters. rewrite search_loop_cons. cbn [app].
    destruct (fault (search sub ticker "day" 100)); [apply search_loop_prefix|].
    case_bool_decide; [done|apply search_loop_prefix]. }
  remember (search_loop sub ticker (now - days * us_per_day)%Z now time_filters [])
    as loop eqn:Hloop.
  destruct loop as [|row rest]; injection Hfetch as <-; [|done].
  apply prefix_nil_inv in Hpre. done.
Qed.

Lemma day_rows_come_first_witness :
  [Social.aapl_row] `prefix_of` [Social.aapl_row; Social.older_row].
Proof.
  refine (day_rows_come_first (Social.fetcher Social.disjoint) now0 "AAPL" 7
            {| subreddit := λ _, Returns Social.disjoint |} Social.disjoint
            [Social.aapl_row; Social.older_row] _ _ _ _ _).
  - reflexivity.
  - reflexivity.
  - vm_compute. reflexivity.
  - unfold representable. vm_compute. intuition discriminate.
  - vm_compute. discriminate.
Defined.

End WSBExtras.

Module InstitutionalExtras.
Import Py Institutional Scenarios.

(** The row of an article whose timestamp parses. *)
Lemma row_of_article_Returns a r :
  row_of_article a = Returns r →
  Row.text r = (str (dict_get (Article.title a) "") ++ " "
                ++ str (dict_get (Article.description a) ""))%string
  ∧ Row.source r = "Financial News"
  ∧ publisher_of a = Returns (Row.publisher r)
  ∧ Row.url r = dict_get (Article.url a) ""
  ∧ Row.timestamp r = match Article.publishedAt a with
                      | Some (Instant t) => Some t
                      | _ => None
                      end.
Proof.
  unfold row_of_article. destruct (Article.publishedAt a) as [[t|s]|]; cbn; [| done|].
  all: destruct (publisher_of a) as [publisher|]; cbn; [|done].
  all: by intros [= <-].
Qed.

(** An article makes the comprehension raise exactly when its timestamp
    does not parse or its 'source' is null or no object. *)
Lemma row_of_article_Raises a :
  (∃ e, row_of_article a = Raises e) ↔
  (∃ s, Article.publishedAt a = Some (Unparseable s))
  ∨ Article.source a = Some SourceNull ∨ Article.source a = Some SourceOther.
Proof.
  unfold row_of_article, publisher_of.
  destruct (Article.publishedAt a) as [[t|s]|], (Article.source a) as [[|name|]|];
    cbn; split.
  all: try (by intros [? [=]]).
  all: try (intros [[? [=]]|[[=]|[=]]]).
  all: eauto.
Qed.

(** [mapM] raises as soon as one element does. *)
Lemma mapM_Raises {A B} (f : A → outcome B) (l : list A) x e :
  x ∈ l → f x = Raises e → ∃ e', mapM f l = Raises e'.
Proof.
  induction l as [|y l IH]; intros Hx Hfx; [by apply elem_of_nil in Hx|].
  cbn [mapM]. destruct (f y) as [b|e'] eqn:Hy; [|by exists e'].
  cbn [mbind outcome_bind].
  apply elem_of_cons in Hx as [->|Hx]; [congruence|].
  destruct (IH Hx Hfx) as [e' ->]. by exists e'.
Qed.

(** [mapM] stops at the first element that raises. *)
Lemma mapM_first_Raises {A B} (f : A → outcome B) (before after : list A) x e :
  (∀ y, y ∈ before → ∃ b, f y = Returns b) → f x = Raises e →
  mapM f (before ++ x :: after) = Raises e.
Proof.
  intros Hbefore Hx. induction before as [|y before IH]; cbn [app mapM].
  - by rewrite Hx.
  - destruct (Hbefore y) as [b ->]; [apply elem_of_cons; by left|].
    cbn [mbind outcome_bind].
    rewrite IH; [done|]. intros z Hz. apply Hbefore, elem_of_cons. by right.
Qed.

(** [mapM] returns when every element does. *)
Lemma mapM_all_Return {A B} (f : A → outcome B) (l : list A) :
  (∀ x, x ∈ l → ∃ y, f x = Returns y) → ∃ k, mapM f l = Returns k.
Proof.
  induction l as [|x l IH]; intros Hall; [by exists []|].
  destruct (Hall x) as [y Hy]; [apply elem_of_cons; by left|].
  destruct IH as [k Hk]; [intros z Hz; apply Hall, elem_of_cons; by right|].
  exists (y :: k). cbn [mapM]. rewrite Hy. cbn [mbind outcome_bind].
  change (mapM f l ≫= (λ k, mret (y :: k)) = Returns (y :: k)). by rewrite Hk.
Qed.

(** X7.  With a key configured and a date range that can be computed,
    [fetch_news_api] answers every failure of the exchange with an empty
    frame: a request that raises, a status other than 200, a body that is
    not JSON, a body without articles, and also a single article whose
    [publishedAt] cannot be parsed or whose 'source' is null or no object,
    which discards the other articles of the answer with it. *)
Theorem news_api_degrades_to_empty self now get ticker days :
  key_missing (news_api_key self) "your_news_api_key" = false →
  representable now days →
  let params := news_params self ticker (now - days * us_per_day)%Z now in
  (∀ e, get params = Raises e → fetch_news_api self now get ticker days = Returns [])
  ∧ (∀ response, get params = Returns response →
       (status_code response ≠ 200%Z
        ∨ (∃ e, json response = Raises e)
        ∨ json response = Returns {| articles := None |}
        ∨ json response = Returns {| articles := Some [] |}
        ∨ ∃ arts a, json response = Returns {| articles := Some arts |}
                    ∧ a ∈ arts
                    ∧ ((∃ s, Article.publishedAt a = Some (Unparseable s))
                       ∨ Article.source a = Some SourceNull
                       ∨ Article.source a = Some SourceOther)) →
       fetch_news_api self now get ticker days = Returns []).
Proof.
  intros Hkey Hrep params.
  rewrite InstitutionalFacts.fetch_news_api_eval, Hkey, bool_decide_eq_true_2 by done.
  fold params. unfold news_api_try. split.
  - by intros e ->.
  - intros response -> Hfail. cbn [mbind outcome_bind].
    destruct (decide (status_code response = 200%Z)) as [H200|H200].
    2: { by rewrite (bool_decide_eq_true_2 (status_code response ≠ 200%Z)). }
    rewrite (bool_decide_eq_false_2 (status_code response ≠ 200%Z)) by (intros H; by apply H).
    destruct Hfail as [?|[[e ->]|[->|[->|(arts & a & -> & Ha & Hbad)]]]]; try done.
    cbn [mbind outcome_bind articles default]. cbv zeta.
    apply row_of_article_Raises in Hbad as [e Hbad].
    destruct (mapM_Raises row_of_article arts a e Ha Hbad) as [e' Hraise].
    destruct arts as [|a0 arts]; [done|]. unfold id. by rewrite Hraise.
Qed.

Lemma news_api_degrades_to_empty_witness :
  fetch_news_api News.keyed now0
    (MoreScenarios.News.answering [News.apple_article; MoreScenarios.News.nulled_article])
    "AAPL" 7
  = Returns [].
Proof.
  refine (proj2 (news_api_degrades_to_empty News.keyed now0 _ "AAPL" 7 _ _) _ _ _).
  - reflexivity.
  - unfold representable. vm_compute. intuition discriminate.
  - reflexivity.
  - do 4 right.
    exists [News.apple_article; MoreScenarios.News.nulled_article],
      MoreScenarios.News.nulled_article.
    split; [reflexivity|]. split; [|right; left; reflexivity].
    apply list_elem_of_lookup. by exists 1%nat.
Defined.

(** X8.  When the News API answers 200, every [publishedAt] that is
    present parses and no article holds null or a non-object under
    'source', [fetch_news_api] returns one row per article, in the order of
    the answer.  The text is title, a space, description, where a missing
    key reads as the empty string and a null prints as 'None'; the source
    tag is 'Financial News'; the publisher is what the source holds under
    'name', 'Unknown' when 'source' or 'name' is missing; the url is what
    the article holds, the empty string when missing; a missing or null
    [publishedAt] leaves the timestamp empty. *)
Theorem news_api_rows_one_to_one self now get ticker days response arts :
  key_missing (news_api_key self) "your_news_api_key" = false →
  representable now days →
  get (news_params self ticker (now - days * us_per_day)%Z now) = Returns response →
  status_code response = 200%Z →
  json response = Returns {| articles := Some arts |} →
  (∀ a s, a ∈ arts → Article.publishedAt a ≠ Some (Unparseable s)) →
  (∀ a, a ∈ arts →
     Article.source a ≠ Some SourceNull ∧ Article.source a ≠ Some SourceOther) →
  ∃ rows,
    fetch_news_api self now get ticker days = Returns rows
    ∧ Forall2
        (λ a r,
           Row.text r = (str (dict_get (Article.title a) "") ++ " "
                         ++ str (dict_get (Article.description a) ""))%string
           ∧ Row.source r = "Financial News"
           ∧ Row.publisher r = match Article.source a with
                               | Some (SourceObject name) => dict_get name "Unknown"
                               | _ => JString "Unknown"
                               end
           ∧ Row.url r = dict_get (Article.url a) ""
           ∧ Row.timestamp r = match Article.publishedAt a with
                               | Some (Instant t) => Some t
                               | _ => None
                               end)
        arts rows.
Proof.
  intros Hkey Hrep Hget H200 Hjson Hparse Hsource.
  rewrite InstitutionalFacts.fetch_news_api_eval, Hkey, bool_decide_eq_true_2 by done.
  rewrite (InstitutionalFacts.news_api_try_rows _ _ _ _ Hget H200 Hjson).
  destruct (mapM_all_Return row_of_article arts) as [rows Hrows].
  { intros a Ha. destruct (row_of_article a) as [r|e] eqn:Hr; [by exists r|].
    destruct (proj1 (row_of_article_Raises a)) as [[s Hs]|[Hs|Hs]]; [by exists e| | |].
    - by destruct (Hparse a s Ha).
    - by destruct (Hsource a Ha) as [? _].
    - by destruct (Hsource a Ha) as [_ ?]. }
  exists rows. rewrite Hrows. split; [done|].
  eapply Forall2_impl; [by apply AdapterFacts.mapM_Returns|].
  intros a r (Htext & Hsrc & Hpub & Hurl & Htime)%row_of_article_Returns.
  do 2 (split; [done|]). split; [|done].
  unfold publisher_of in Hpub.
  destruct (Article.source a) as [[|name|]|]; try done; by injection Hpub as <-.
Qed.

Lemma news_api_rows_one_to_one_witness :
  ∃ rows,
    fetch_news_api News.keyed now0
      (MoreScenarios.News.answering [News.apple_article; MoreScenarios.News.unnamed_article])
      "AAPL" 7 = Returns rows
    ∧ length rows = 2%nat.
Proof.
  destruct (news_api_rows_one_to_one News.keyed now0
              (MoreScenarios.News.answering
                 [News.apple_article; MoreScenarios.News.unnamed_article])
              "AAPL" 7
              {| status_code := 200;
                 json := Returns {| articles := Some [News.apple_article;
                                                      MoreScenarios.News.unnamed_article] |} |}
              [News.apple_article; MoreScenarios.News.unnamed_article])
    as (rows & Hrows & Hall).
  - reflexivity.
  - unfold representable. vm_compute. intuition discriminate.
  - reflexivity.
  - reflexivity.
  - reflexivity.
  - intros a s Ha.
    repeat (apply elem_of_cons in Ha as [->|Ha]); try by apply elem_of_nil in Ha.
    all: discriminate.
  - intros a Ha.
    repeat (apply elem_of_cons in Ha as [->|Ha]); try by apply elem_of_nil in Ha.
    all: split; discriminate.
  - exists rows. split; [exact Hrows|]. by rewrite <- (Forall2_length _ _ _ Hall).
Defined.

Section Classifier.

Variable analyze_text : string → outcome (Q * Q * Q).

(** The three behaviours of the scoring loop. *)
Lemma analyze_dataframe_rows (df : list (Row.t * string)) :
  (∀ out, analyze_dataframe analyze_text df = Returns out →
     Forall2
       (λ (r : Row.t * string) o,
          Scored.row o = r.1 ∧ Scored.ticker o = r.2
          ∧ analyze_text (Row.text r.1)
            = Returns (Scored.negative o, Scored.neutral o, Scored.positive o))
       df out)
  ∧ ((∀ r, r ∈ df → ∃ scores, analyze_text (Row.text r.1) = Returns scores) →
     ∃ out, analyze_dataframe analyze_text df = Returns out)
  ∧ (∀ r e, r ∈ df → analyze_text (Row.text r.1) = Raises e →
     ∃ e', analyze_dataframe analyze_text df = Raises e').
Proof.
  unfold analyze_dataframe. split; [|split].
  - intros out Hout. eapply Forall2_impl; [by apply AdapterFacts.mapM_Returns|].
    intros r o. cbn beta. destruct (analyze_text (Row.text r.1)) as [[[n u] p]|]; [|done].
    by intros [= <-].
  - intros Hall. apply mapM_all_Return. intros r Hr.
    destruct (Hall r Hr) as [scores ->]. by eexists.
  - intros r e Hr He. eapply (mapM_Raises _ df r e Hr). by rewrite He.
Qed.

(** X9.  [analyze_dataframe] scores the rows one by one, in order: when it
    returns, the result has one scored row per input row, each with the
    scores the classifier gave for that row's text; it returns whenever the
    classifier returns on every text, and it raises, returning no partial
    result, with the exception of the first text on which the classifier
    raises. *)
Theorem analyze_dataframe_row_by_row (df : list (Row.t * string)) :
  (∀ out, analyze_dataframe analyze_text df = Returns out →
     Forall2
       (λ (r : Row.t * string) o,
          Scored.row o = r.1 ∧ Scored.ticker o = r.2
          ∧ analyze_text (Row.text r.1)
            = Returns (Scored.negative o, Scored.neutral o, Scored.positive o))
       df out)
  ∧ ((∀ r, r ∈ df → ∃ scores, analyze_text (Row.text r.1) = Returns scores) →
     ∃ out, analyze_dataframe analyze_text df = Returns out)
  ∧ (∀ before r after e,
       df = before ++ r :: after →
       (∀ r', r' ∈ before → ∃ scores, analyze_text (Row.text r'.1) = Returns scores) →
       analyze_text (Row.text r.1) = Raises e →
       analyze_dataframe analyze_text df = Raises e).
Proof.
  destruct (analyze_dataframe_rows df) as (Hrows & Hreturns & _).
  do 2 (split; [done|]). intros before r after e -> Hbefore Hr.
  unfold analyze_dataframe. apply mapM_first_Raises.
  - intros r' Hr'. destruct (Hbefore r' Hr') as [scores ->]. by eexists.
  - by rewrite Hr.
Qed.

(** X10.  [get_institutional_sentiment] returns the rows of the News API
    fetch, each with the queried ticker and its scores, in the same order
    and number; it returns an empty frame when that fetch is empty; and an
    exception of the classifier is not caught: it reaches the caller. *)
Theorem institutional_rows_are_scored_news self now_av now_na get_av get_na ticker days
    news :
  key_missing (alpha_vantage_key self) "" = true ∨ representable now_av days →
  fetch_news_api self now_na get_na ticker days = Returns news →
  (news = [] →
   get_institutional_sentiment analyze_text self now_av now_na get_av get_na ticker days
   = Returns [])
  ∧ (∀ out,
       get_institutional_sentiment analyze_text self now_av now_na get_av get_na ticker days
       = Returns out →
       Forall2 (λ r o, Scored.row o = r ∧ Scored.ticker o = ticker
                       ∧ analyze_text (Row.text r)
                         = Returns (Scored.negative o, Scored.neutral o, Scored.positive o))
         news out)
  ∧ (∀ r e, r ∈ news → analyze_text (Row.text r) = Raises e →
       ∃ e',
         get_institutional_sentiment analyze_text self now_av now_na get_av get_na ticker days
         = Raises e').
Proof.
  intros Hav Hnews.
  rewrite (AdapterFacts.get_institutional_sentiment_news_only analyze_text _ _ _ _ _ _ _ Hav).
  rewrite Hnews. cbn [mbind outcome_bind].
  destruct (analyze_dataframe_rows ((λ r, (r, ticker)) <$> news)) as (H1 & _ & H3).
  split; [by intros ->|]. split.
  - intros out Hout. destruct news as [|r news].
    + injection Hout as <-. constructor.
    + apply H1 in Hout. apply Forall2_fmap_l in Hout.
      eapply Forall2_impl; [exact Hout|]. by intros r' o (? & ? & ?).
  - intros r e Hr He. destruct news as [|r0 news]; [by apply elem_of_nil in Hr|].
    apply (H3 (r, ticker) e); [|done]. apply list_elem_of_fmap. by exists r.
Qed.

End Classifier.

Lemma analyze_dataframe_row_by_row_witness :
  analyze_dataframe MoreScenarios.News.picky_classifier
    [(MoreScenarios.News.bare_row, "AAPL"); (News.apple_row, "AAPL")]
  = Raises ValueError.
Proof.
  refine (proj2 (proj2 (analyze_dataframe_row_by_row MoreScenarios.News.picky_classifier
            [(MoreScenarios.News.bare_row, "AAPL"); (News.apple_row, "AAPL")]))
            [(MoreScenarios.News.bare_row, "AAPL")] (News.apple_row, "AAPL") []
            ValueError _ _ _).
  - reflexivity.
  - intros r' ->%list_elem_of_singleton. eexists. vm_compute. reflexivity.
  - vm_compute. reflexivity.
Defined.

Lemma institutional_rows_are_scored_news_witness :
  ∃ e, get_institutional_sentiment MoreScenarios.News.picky_classifier News.keyed now0 now0
         News.alpha_service News.news_service "AAPL" 7 = Raises e.
Proof.
  refine (proj2 (proj2 (institutional_rows_are_scored_news
            MoreScenarios.News.picky_classifier News.keyed now0 now0
            News.alpha_service News.news_service "AAPL" 7 [News.apple_row] _ _))
            News.apple_row ValueError _ _).
  - right. unfold representable. vm_compute. intuition discriminate.
  - vm_compute. reflexivity.
  - apply list_elem_of_lookup. by exists 0%nat.
  - vm_compute. reflexivity.
Defined.

(** X11.  [get_company_name] returns an unknown ticker unchanged and never
    returns a ticker of its own table, so looking a name up again changes
    nothing; the News API query therefore always names the ticker itself. *)
Theorem company_name_lookup (ticker : string) :
  (companies !! ticker = None → get_company_name ticker = ticker)
  ∧ get_company_name (get_company_name ticker) = get_company_name ticker
  ∧ ∀ self start_date end_date,
      occurs ticker (q (news_params self ticker start_date end_date)).
Proof.
  split; [|split].
  - unfold get_company_name. by intros ->.
  - unfold get_company_name.
    destruct (companies !! ticker) as [name|] eqn:Hname; cbn [default];
      [|by rewrite Hname].
    unfold companies in Hname. apply elem_of_list_to_map_2 in Hname.
    repeat (apply elem_of_cons in Hname as [[= -> ->]|Hname]);
      try by apply elem_of_nil in Hname.
    all: by vm_compute.
  - intros self start_date end_date. cbn [q news_params].
    exists "", (" OR " ++ get_company_name ticker)%string. reflexivity.
Qed.

Lemma company_name_lookup_witness : get_company_name "GME" = "GME".
Proof.
  apply (proj1 (company_name_lookup "GME")). vm_compute. reflexivity.
Defined.

End InstitutionalExtras.

(** * Further properties of the combination step and of the index *)

Module AggregatorExtras.
Import Py Aggregator Scenarios.

(** X12.  The combination step projects only when both frames have data.
    With exactly one non-empty frame it returns that frame as it is, with
    all its columns, provided the frame has a 'source' column; without one
    the read of [combined_df['source']] at line 64 raises KeyError.  Two
    non-empty frames that share columns but not 'source' raise KeyError
    too. *)
Theorem combine_one_sided {cell : Type} (wsb_df institutional_df : DataFrame cell) :
  (empty wsb_df = false → empty institutional_df = true →
   combine wsb_df institutional_df
   = if bool_decide ("source" ∈ columns wsb_df) then Returns wsb_df else Raises KeyError)
  ∧ (empty wsb_df = true → empty institutional_df = false →
     combine wsb_df institutional_df
     = if bool_decide ("source" ∈ columns institutional_df)
       then Returns institutional_df else Raises KeyError)
  ∧ (empty wsb_df = false → empty institutional_df = false →
     common_cols wsb_df institutional_df ≠ [] →
     "source" ∉ common_cols wsb_df institutional_df →
     combine wsb_df institutional_df = Raises KeyError).
Proof.
  split; [|split].
  - intros Hw Hi. unfold combine. rewrite Hw, Hi. cbn [negb andb mbind outcome_bind].
    rewrite Hw. cbn [negb andb]. by case_bool_decide.
  - intros Hw Hi. unfold combine. rewrite Hw, Hi. cbn [negb andb mbind outcome_bind].
    rewrite Hi. cbn [negb andb]. by case_bool_decide.
  - intros Hw Hi Hcols Hsrc. unfold combine. rewrite Hw, Hi. cbn [negb andb].
    rewrite AggregatorFacts.select_common_l, AggregatorFacts.select_common_r.
    cbn [mbind outcome_bind].
    set (cols := common_cols wsb_df institutional_df) in *.
    assert (filter (λ c, c ∉ cols) cols = []) as Hfilter.
    { destruct (filter (λ c, c ∉ cols) cols) as [|c l] eqn:Hf; [done|].
      assert (c ∈ filter (λ c, c ∉ cols) cols) as Hc
        by (rewrite Hf; apply elem_of_cons; by left).
      by apply list_elem_of_filter in Hc as [Hn Hc]. }
    unfold pd_concat. cbn [columns rows]. rewrite Hfilter, app_nil_r.
    apply AggregatorFacts.empty_false in Hw as [_ Hrows].
    unfold empty at 1. cbn [columns rows].
    destruct cols as [|c cols']; [done|].
    destruct (rows wsb_df) as [|r rs]; [done|].
    rewrite fmap_cons. cbn [app negb andb].
    by rewrite bool_decide_eq_false_2.
Qed.

Lemma combine_one_sided_witness :
  combine Frames.wsb_frame new_frame = Returns Frames.wsb_frame.
Proof.
  apply (proj1 (combine_one_sided Frames.wsb_frame new_frame)); reflexivity.
Defined.

End AggregatorExtras.

Module AnalyzerExtras.
Import Arithmetic Analyzer.

(** In exact arithmetic [Series.sum()] is the sum of the family. *)
Lemma sum_from_exact (l : list Q) (acc : Q) :
  (fold_left add l acc == acc + Qsum l)%Q.
Proof.
  revert acc. induction l as [|x l IH]; intros acc; cbn [fold_left].
  - simpl. lra.
  - rewrite IH, AnalyzerFacts.Qsum_cons. cbn [add exact]. lra.
Qed.

Lemma mean_perm (l k : list Q) : l ≡ₚ k → (mean l == mean k)%Q.
Proof.
  intros Hperm. unfold mean, sum. cbn [div of_nat zero exact].
  rewrite !sum_from_exact, (AnalyzerFacts.Qsum_perm _ _ Hperm), (Permutation_length Hperm).
  reflexivity.
Qed.

Lemma net_sentiment_perm (l k : list (ScoredRow Q)) :
  l ≡ₚ k → (net_sentiment l == net_sentiment k)%Q.
Proof.
  intros Hperm. unfold net_sentiment. cbn [sub exact].
  rewrite (mean_perm (positive <$> l) (positive <$> k)) by by apply fmap_Permutation.
  rewrite (mean_perm (negative <$> l) (negative <$> k)) by by apply fmap_Permutation.
  reflexivity.
Qed.

Lemma Qsum_fmap_ext {A} (f g : A → Q) (l : list A) :
  (∀ x, x ∈ l → f x == g x)%Q → (Qsum (f <$> l) == Qsum (g <$> l))%Q.
Proof.
  induction l as [|x l IH]; intros Hfg; [reflexivity|].
  rewrite !fmap_cons, !AnalyzerFacts.Qsum_cons.
  rewrite (Hfg x) by (apply elem_of_cons; by left).
  rewrite IH; [reflexivity|]. intros y Hy. apply Hfg, elem_of_cons. by right.
Qed.

(** X13.  In exact arithmetic the index does not depend on the order of
    the records. *)
Theorem index_ignores_row_order (df df' : list (ScoredRow Q)) :
  df ≡ₚ df' →
  (calculate_weighted_sentiment df == calculate_weighted_sentiment df')%Q.
Proof.
  intros Hperm.
  pose proof (AnalyzerFacts.unique_enumerates df) as Henum.
  assert (enumerates (unique (source <$> df)) df') as Henum'.
  { destruct Henum as [Hnd Hin]. split; [done|]. intros s. rewrite Hin.
    split; intros (r & Hr & <-); exists r; split; try done.
    - by rewrite <- Hperm.
    - by rewrite Hperm. }
  rewrite (AnalyzerFacts.index_refines_spec _ _ Henum).
  rewrite (AnalyzerFacts.index_refines_spec _ _ Henum').
  unfold spec_weighted_index. destruct (unique (source <$> df)) as [|g groups]; [reflexivity|].
  rewrite (Qsum_fmap_ext
    (λ s, net_sentiment (rows_of_source s df) * spec_weight s)%Q
    (λ s, net_sentiment (rows_of_source s df') * spec_weight s)%Q); [reflexivity|].
  intros s _. cbn beta.
  rewrite (net_sentiment_perm (rows_of_source s df) (rows_of_source s df')); [reflexivity|].
  unfold rows_of_source. by apply filter_Permutation.
Qed.

Lemma index_ignores_row_order_witness :
  (calculate_weighted_sentiment two_groups
   == calculate_weighted_sentiment (reverse two_groups))%Q.
Proof.
  apply index_ignores_row_order. symmetry. apply reverse_Permutation.
Defined.

Lemma weighted_sum_between (f : string → Q) (groups : list string) (lo hi : Q) :
  (∀ s, s ∈ groups → lo <= f s ∧ f s <= hi)%Q →
  (lo * Qsum (spec_weight <$> groups) <= Qsum ((λ s, f s * spec_weight s) <$> groups)
   ∧ Qsum ((λ s, f s * spec_weight s) <$> groups) <= hi * Qsum (spec_weight <$> groups))%Q.
Proof.
  induction groups as [|g groups IH]; intros Hf.
  - simpl. split; lra.
  - rewrite !fmap_cons, !AnalyzerFacts.Qsum_cons.
    destruct IH as [IH1 IH2].
    { intros s Hs. apply Hf, elem_of_cons. by right. }
    destruct (Hf g) as [Hg1 Hg2]; [apply elem_of_cons; by left|].
    pose proof (AnalyzerFacts.spec_weight_pos g) as Hw.
    assert (f g * spec_weight g <= hi * spec_weight g)%Q
      by (apply Qmult_le_compat_r; lra).
    assert (lo * spec_weight g <= f g * spec_weight g)%Q
      by (apply Qmult_le_compat_r; lra).
    split; lra.
Qed.

(** X14.  In exact arithmetic the index of a non-empty collection is a
    weighted mean with positive weights: it lies between the smallest and
    the largest per-source net sentiment.  When all sources have the same
    net sentiment, the index is that value, whatever the weights. *)
Theorem index_between_source_nets (df : list (ScoredRow Q)) (lo hi : Q) :
  df ≠ [] →
  (∀ r, r ∈ df →
     lo <= net_sentiment (rows_of_source (source r) df)
     ∧ net_sentiment (rows_of_source (source r) df) <= hi)%Q →
  (lo <= calculate_weighted_sentiment df ∧ calculate_weighted_sentiment df <= hi)%Q.
Proof.
  intros Hne Hnets. rewrite AnalyzerFacts.index_unfold by done.
  pose proof (AnalyzerFacts.Qsum_weights_pos _ (AnalyzerFacts.unique_nonempty df Hne)) as Hpos.
  destruct (weighted_sum_between (λ s, net_sentiment (rows_of_source s df))
              (unique (source <$> df)) lo hi) as [H1 H2].
  { intros s (r & -> & Hr)%AnalyzerFacts.elem_of_unique%list_elem_of_fmap. by apply Hnets. }
  split.
  - apply Qle_shift_div_l; [done|]. lra.
  - apply Qle_shift_div_r; [done|]. lra.
Qed.

Lemma index_between_source_nets_witness :
  (-(1 # 5) <= calculate_weighted_sentiment two_groups
   ∧ calculate_weighted_sentiment two_groups <= 3 # 5)%Q.
Proof.
  apply (index_between_source_nets two_groups).
  - discriminate.
  - intros r Hr. unfold two_groups in Hr.
    repeat (apply elem_of_cons in Hr as [->|Hr]); try by apply elem_of_nil in Hr.
    all: vm_compute; intuition discriminate.
Defined.

End AnalyzerExtras.

(** * Further properties of the analyzer and of the entry point *)

Module DominantFacts.
Import Py Dominant.

Lemma max_item_snoc first rest x :
  max_item first (rest ++ [x])
  = if Qlt_le_dec (max_item first rest).2 x.2 then x else max_item first rest.
Proof. unfold max_item. by rewrite fold_left_app. Qed.

(** The running maximum is the first item with the greatest score. *)
Lemma max_item_first_maximum first rest :
  ∃ i, (first :: rest) !! i = Some (max_item first rest) ∧
    ∀ j item, (first :: rest) !! j = Some item →
      (item.2 <= (max_item first rest).2)%Q ∧
      ((j < i)%nat → (item.2 < (max_item first rest).2)%Q).
Proof.
  induction rest as [|x rest IH] using rev_ind.
  - exists 0%nat. split; [done|]. intros [|j] item Hj; [|done].
    injection Hj as <-. split; [apply Qle_refl|lia].
  - destruct IH as (i & Hi & Hmax). rewrite max_item_snoc.
    pose proof (lookup_lt_Some _ _ _ Hi) as Hlt.
    destruct (Qlt_le_dec (max_item first rest).2 x.2) as [Hx|Hx].
    + exists (length (first :: rest)). split.
      * change (first :: rest ++ [x]) with ((first :: rest) ++ [x]).
        by rewrite lookup_app_r, Nat.sub_diag by lia.
      * intros j item Hj. change (first :: rest ++ [x]) with ((first :: rest) ++ [x]) in Hj.
        apply lookup_app_Some in Hj as [Hj|[Hge Hj]].
        -- destruct (Hmax j item Hj) as [Hle _].
           split; [|intros _]; eauto using Qle_lt_trans, Qlt_le_weak.
        -- apply list_lookup_singleton_Some in Hj as [_ <-].
           split; [apply Qle_refl|lia].
    + exists i. split.
      * change (first :: rest ++ [x]) with ((first :: rest) ++ [x]).
        by rewrite lookup_app_l.
      * intros j item Hj. change (first :: rest ++ [x]) with ((first :: rest) ++ [x]) in Hj.
        apply lookup_app_Some in Hj as [Hj|[Hge Hj]]; [by apply Hmax|].
        apply list_lookup_singleton_Some in Hj as [_ <-]. split; [done|lia].
Qed.

(** X15.  [get_combined_sentiment] raises ValueError on a dict without
    items.  Otherwise it returns the label of an item whose score no other
    item exceeds, and among items of equal greatest score the one inserted
    first: every earlier item has a strictly smaller score. *)
Theorem dominant_label_first_maximum (scores : list (string * Q)) :
  (scores = [] → get_combined_sentiment scores = Raises ValueError) ∧
  (scores ≠ [] →
   ∃ i label v,
     get_combined_sentiment scores = Returns label ∧
     scores !! i = Some (label, v) ∧
     ∀ j item, scores !! j = Some item →
       (item.2 <= v)%Q ∧ ((j < i)%nat → (item.2 < v)%Q)).
Proof.
  split; [by intros ->|].
  destruct scores as [|first rest]; [done|]. intros _.
  destruct (max_item_first_maximum first rest) as (i & Hi & Hmax).
  exists i, (max_item first rest).1, (max_item first rest).2.
  split; [done|]. split; [by destruct (max_item first rest)|done].
Qed.

Lemma dominant_label_first_maximum_witness :
  ∃ i label v,
    get_combined_sentiment
      [("negative", 0.4%Q); ("neutral", 0.2%Q); ("positive", 0.4%Q)] = Returns label ∧
    [("negative", 0.4%Q); ("neutral", 0.2%Q); ("positive", 0.4%Q)] !! i = Some (label, v) ∧
    ∀ j item,
      [("negative", 0.4%Q); ("neutral", 0.2%Q); ("positive", 0.4%Q)] !! j = Some item →
      (item.2 <= v)%Q ∧ ((j < i)%nat → (item.2 < v)%Q).
Proof.
  apply (proj2 (dominant_label_first_maximum
    [("negative", 0.4%Q); ("neutral", 0.2%Q); ("positive", 0.4%Q)])).
  discriminate.
Defined.

End DominantFacts.

Module SessionFacts.
Import Session.

Section Cache.
Context {entry : Type}.
Implicit Types st : State entry.

Lemma store_lookup ticker days (ss : gmap string value) :
  store ticker days ss !! "last_ticker" = Some (Str ticker) ∧
  store ticker days ss !! "last_days" = Some (Int days) ∧
  ∀ key, key ≠ "last_ticker" → key ≠ "last_days" → store ticker days ss !! key = ss !! key.
Proof.
  unfold store. split; [|split].
  - by rewrite lookup_insert_ne, lookup_insert_eq.
  - by rewrite lookup_insert_eq.
  - intros key H1 H2. by rewrite !lookup_insert_ne.
Qed.

Lemma main_parameters_unchanged ticker days st :
  session_state st !! "last_ticker" = Some (Str ticker) →
  session_state st !! "last_days" = Some (Int days) →
  main_parameters ticker days st = st.
Proof.
  intros H1 H2. unfold main_parameters.
  rewrite bool_decide_eq_false_2 by (rewrite H1, H2; intros [|]; done).
  rewrite bool_decide_eq_false_2 by (rewrite H1, H2; intros [|]; done).
  done.
Qed.

(** X16.  After lines 77-84 the session holds the current ticker and
    number of days, whatever it held before, and no other key of the
    session has changed.  Running the lines again with the same parameters
    changes nothing, so a rerun with unchanged parameters keeps the cache. *)
Theorem parameters_remembered ticker days st :
  let st' := main_parameters ticker days st in
  session_state st' !! "last_ticker" = Some (Str ticker) ∧
  session_state st' !! "last_days" = Some (Int days) ∧
  (∀ key, key ≠ "last_ticker" → key ≠ "last_days" →
     session_state st' !! key = session_state st !! key) ∧
  main_parameters ticker days st' = st'.
Proof.
  intros st'.
  assert (session_state st' !! "last_ticker" = Some (Str ticker) ∧
          session_state st' !! "last_days" = Some (Int days) ∧
          (∀ key, key ≠ "last_ticker" → key ≠ "last_days" →
             session_state st' !! key = session_state st !! key)) as (H1 & H2 & H3).
  { subst st'. unfold main_parameters.
    case_bool_decide as Hmissing; [apply store_lookup|].
    case_bool_decide as Hchanged; [apply store_lookup|].
    split; [|split]; [| |done].
    - destruct (decide (session_state st !! "last_ticker" = Some (Str ticker))); [done|].
      destruct Hchanged. by left.
    - destruct (decide (session_state st !! "last_days" = Some (Int days))); [done|].
      destruct Hchanged. by right. }
  do 3 (split; [done|]). by apply main_parameters_unchanged.
Qed.

(** X17.  The cache is cleared exactly when both remembered values are
    present and one of them differs from the current parameters; in every
    other case its entries are kept.  In particular a session that lacks
    one of the two keys keeps the cache even when the other remembered
    value differs. *)
Theorem cache_cleared_on_change ticker days st :
  let ss := session_state st in
  let st' := main_parameters ticker days st in
  (is_Some (ss !! "last_ticker") → is_Some (ss !! "last_days") →
   ss !! "last_ticker" ≠ Some (Str ticker) ∨ ss !! "last_days" ≠ Some (Int days) →
   cache_data st' = []) ∧
  (ss !! "last_ticker" = None ∨ ss !! "last_days" = None →
   cache_data st' = cache_data st) ∧
  (ss !! "last_ticker" = Some (Str ticker) → ss !! "last_days" = Some (Int days) →
   cache_data st' = cache_data st).
Proof.
  intros ss st'. subst ss st'. split; [|split].
  - intros [x Hx] [y Hy] Hchanged. unfold main_parameters.
    rewrite bool_decide_eq_false_2 by (rewrite Hx, Hy; intros [|]; done).
    by rewrite bool_decide_eq_true_2.
  - intros Hmissing. unfold main_parameters. by rewrite bool_decide_eq_true_2.
  - intros H1 H2. by rewrite main_parameters_unchanged.
Qed.

End Cache.

Lemma parameters_remembered_witness :
  session_state
    (main_parameters "NVDA" 7
       {| session_state := {[ "last_ticker" := Str "AAPL"; "theme" := Str "dark" ]};
          cache_data := [1%nat] |}) !! "theme"
  = Some (Str "dark").
Proof.
  refine (proj1 (proj2 (proj2 (parameters_remembered "NVDA" 7
    {| session_state := {[ "last_ticker" := Str "AAPL"; "theme" := Str "dark" ]};
       cache_data := [1%nat] |}))) "theme" _ _); discriminate.
Defined.

Lemma cache_cleared_on_change_witness :
  cache_data
    (main_parameters "NVDA" 7
       {| session_state := {[ "last_ticker" := Str "AAPL"; "last_days" := Int 7 ]};
          cache_data := [1%nat] |}) = []
  ∧ cache_data
      (main_parameters "NVDA" 7
         {| session_state := {[ "last_ticker" := Str "AAPL" ]};
            cache_data := [1%nat] |}) = [1%nat].
Proof.
  split.
  - refine (proj1 (cache_cleared_on_change "NVDA" 7
      {| session_state := {[ "last_ticker" := Str "AAPL"; "last_days" := Int 7 ]};
         cache_data := [1%nat] |}) _ _ _).
    + by exists (Str "AAPL").
    + by exists (Int 7).
    + left. vm_compute. discriminate.
  - refine (proj1 (proj2 (cache_cleared_on_change "NVDA" 7
      {| session_state := {[ "last_ticker" := Str "AAPL" ]};
         cache_data := [1%nat] |})) _).
    right. reflexivity.
Defined.

End SessionFacts.

Module PipelineFacts.
Import Py Aggregator Pipeline.

Section Tagging.

Context {cell : Type}.
Variable str : string → cell.
Variable num : Q → cell.
Variable analyze_text : option cell → outcome (Q * Q * Q).
Implicit Types df wsb_df institutional_df : DataFrame cell.

Lemma contributed_empty df : empty df = true → contributed df = [].
Proof. unfold contributed. by intros ->. Qed.

Lemma contributed_rows df : empty df = false → contributed df = rows df.
Proof. unfold contributed. by intros ->. Qed.

Lemma set_column_lookup df name value i r' :
  rows (set_column df name value) !! i = Some r' →
  ∃ r0, rows df !! i = Some r0 ∧ r' = <[name := value]> r0.
Proof.
  unfold set_column. cbn [rows]. rewrite list_lookup_fmap.
  destruct (rows df !! i) as [r0|]; [|done]. intros [= <-]. by exists r0.
Qed.

Lemma set_column_columns df name value c :
  c ∈ columns (set_column df name value) ↔ c ∈ columns df ∨ c = name.
Proof.
  unfold set_column. cbn [columns]. case_bool_decide as Hname.
  - split; [by left|]. by intros [?| ->].
  - by rewrite elem_of_app, list_elem_of_singleton.
Qed.

Lemma set_column_empty df name value :
  rows df ≠ [] → empty (set_column df name value) = false.
Proof.
  intros Hrows. apply AggregatorFacts.empty_false. split.
  - intros Hnil. assert (name ∈ columns (set_column df name value)) as Hin
      by (apply set_column_columns; by right).
    rewrite Hnil in Hin. by apply elem_of_nil in Hin.
  - unfold set_column. cbn [rows]. by destruct (rows df).
Qed.

Lemma analyze_frame_Returns df :
  "text" ∈ columns df →
  (∀ text, ∃ scores, analyze_text text = Returns scores) →
  ∃ results, length results = length (rows df) ∧
    analyze_frame num analyze_text df = Returns {|
      columns := columns df ++ score_columns results;
      rows := zip_with (with_scores num) (rows df) results |}.
Proof.
  intros Htext Htotal. unfold analyze_frame. rewrite bool_decide_eq_true_2 by done.
  destruct (InstitutionalExtras.mapM_all_Return
              (λ r : gmap string cell, analyze_text (r !! "text")) (rows df))
    as [results Hres]; [intros r _; apply Htotal|].
  exists results. rewrite Hres. split; [|done].
  apply AdapterFacts.mapM_Returns in Hres. symmetry. by eapply Forall2_length.
Qed.

(** Lines 33-34 and 41-42 on a frame with data. *)
Lemma scored_frame df :
  empty df = false → scorable df →
  (∀ text, ∃ scores, analyze_text text = Returns scores) →
  ∃ df1 : DataFrame cell,
    (if bool_decide ("positive" ∉ columns df)
     then analyze_frame num analyze_text df else Returns df) = Returns df1 ∧
    length (rows df1) = length (rows df) ∧
    "positive" ∈ columns df1 ∧
    ("source" ∈ columns df1 ↔ "source" ∈ columns df) ∧
    ∀ i r1, rows df1 !! i = Some r1 →
      ∃ r0, rows df !! i = Some r0 ∧ r1 !! "source" = r0 !! "source".
Proof.
  intros Hdata Hscorable Htotal. case_bool_decide as Hpos.
  - destruct Hscorable as [?|(Htext & _)]; [done|].
    destruct (analyze_frame_Returns df Htext Htotal) as (results & Hlen & ->).
    eexists. split; [done|]. cbn [rows columns].
    apply AggregatorFacts.empty_false in Hdata as [_ Hrows].
    split; [|split; [|split]].
    + rewrite length_zip_with. lia.
    + destruct results as [|s results]; [by destruct (rows df)|].
      apply elem_of_app. right. cbn. rewrite !elem_of_cons. tauto.
    + rewrite elem_of_app. split; [|by left]. intros [?|Hin]; [done|].
      destruct results; cbn in Hin; [by apply elem_of_nil in Hin|].
      rewrite !elem_of_cons in Hin. destruct Hin as [|[|[|Hin]]]; try done.
      by apply elem_of_nil in Hin.
    + intros i r1 (r0 & s & -> & Hr0 & _)%lookup_zip_with_Some.
      exists r0. split; [done|]. unfold with_scores. by rewrite !lookup_insert_ne.
  - exists df. split; [done|]. split; [done|].
    split; [by destruct (decide ("positive" ∈ columns df))|].
    split; [done|]. intros i r1 Hr1. by exists r1.
Qed.

Lemma tag_wsb_Returns wsb_df :
  empty wsb_df = true ∨ scorable wsb_df →
  (∀ text, ∃ scores, analyze_text text = Returns scores) →
  ∃ wsb_df' : DataFrame cell,
    tag_wsb str num analyze_text wsb_df = Returns wsb_df' ∧
    empty wsb_df' = empty wsb_df ∧
    length (rows wsb_df') = length (rows wsb_df) ∧
    (empty wsb_df = false →
     "source" ∈ columns wsb_df' ∧ "positive" ∈ columns wsb_df' ∧
     ∀ i r', rows wsb_df' !! i = Some r' → r' !! "source" = Some (str "WallStreetBets")).
Proof.
  intros Hscorable Htotal. unfold tag_wsb.
  destruct (empty wsb_df) eqn:Hdata; cbn [negb].
  { exists wsb_df. by rewrite Hdata. }
  destruct Hscorable as [?|Hscorable]; [done|].
  destruct (scored_frame wsb_df Hdata Hscorable Htotal)
    as (df1 & -> & Hlen & Hpos & Hsrc & Hrows).
  cbn [mbind outcome_bind]. eexists. split; [done|].
  apply AggregatorFacts.empty_false in Hdata as [_ Hne].
  split; [|split].
  - apply set_column_empty. intros Hnil. rewrite Hnil in Hlen. by destruct (rows wsb_df).
  - unfold set_column. cbn [rows]. by rewrite length_fmap.
  - intros _. split; [apply set_column_columns; by right|].
    split; [apply set_column_columns; by left|].
    intros i r' (r0 & _ & ->)%set_column_lookup. by rewrite lookup_insert_eq.
Qed.

Lemma tag_institutional_Returns institutional_df :
  empty institutional_df = true ∨ scorable institutional_df →
  (∀ text, ∃ scores, analyze_text text = Returns scores) →
  ∃ institutional_df' : DataFrame cell,
    tag_institutional str num analyze_text institutional_df = Returns institutional_df' ∧
    empty institutional_df' = empty institutional_df ∧
    length (rows institutional_df') = length (rows institutional_df) ∧
    (empty institutional_df = false →
     "source" ∈ columns institutional_df' ∧ "positive" ∈ columns institutional_df' ∧
     ∀ i r', rows institutional_df' !! i = Some r' →
       ∃ r0, rows institutional_df !! i = Some r0 ∧
         r' !! "source" = if bool_decide ("source" ∈ columns institutional_df)
                          then r0 !! "source" else Some (str "Financial News")).
Proof.
  intros Hscorable Htotal. unfold tag_institutional.
  destruct (empty institutional_df) eqn:Hdata; cbn [negb].
  { exists institutional_df. by rewrite Hdata. }
  destruct Hscorable as [?|Hscorable]; [done|].
  destruct (scored_frame institutional_df Hdata Hscorable Htotal)
    as (df1 & -> & Hlen & Hpos & Hsrc & Hrows).
  cbn [mbind outcome_bind]. eexists. split; [done|].
  pose proof Hdata as [_ Hne]%AggregatorFacts.empty_false.
  assert (rows df1 ≠ []) as Hne1.
  { intros Hnil. rewrite Hnil in Hlen. by destruct (rows institutional_df). }
  case_bool_decide as Hnosrc.
  - assert ("source" ∉ columns institutional_df) as Hno by by rewrite <- Hsrc.
    rewrite (bool_decide_eq_false_2 _ Hno).
    split; [by apply set_column_empty|].
    split; [unfold set_column; cbn [rows]; by rewrite length_fmap|].
    intros _. split; [apply set_column_columns; by right|].
    split; [apply set_column_columns; by left|].
    intros i r' (r1 & Hr1 & ->)%set_column_lookup.
    destruct (Hrows i r1 Hr1) as (r0 & Hr0 & _). exists r0.
    by rewrite lookup_insert_eq.
  - assert ("source" ∈ columns df1) as Hin
      by by destruct (decide ("source" ∈ columns df1)).
    rewrite (bool_decide_eq_true_2 _ (proj1 Hsrc Hin)).
    split; [|split; [done|]].
    + apply AggregatorFacts.empty_false. split; [|done].
      intros Hnil. rewrite Hnil in Hin. by apply elem_of_nil in Hin.
    + intros _. do 2 (split; [done|]). intros i r1 Hr1.
      destruct (Hrows i r1 Hr1) as (r0 & Hr0 & Heq). by exists r0.
Qed.

(** Lines 49-66 on two frames that have a 'source' column when they have
    data. *)
Lemma combine_tagged wsb_df institutional_df :
  (empty wsb_df = false → "source" ∈ columns wsb_df) →
  (empty institutional_df = false → "source" ∈ columns institutional_df) →
  ∃ combined_df : DataFrame cell,
    combine wsb_df institutional_df = Returns combined_df ∧
    empty combined_df = empty wsb_df && empty institutional_df ∧
    (∀ c, (empty wsb_df = false → c ∈ columns wsb_df) →
          (empty institutional_df = false → c ∈ columns institutional_df) →
          empty combined_df = false → c ∈ columns combined_df) ∧
    length (rows combined_df)
    = (length (contributed wsb_df) + length (contributed institutional_df))%nat ∧
    ∀ i r, rows combined_df !! i = Some r →
      ∃ r0, (contributed wsb_df ++ contributed institutional_df) !! i = Some r0 ∧
        r !! "source" = r0 !! "source".
Proof.
  intros Hw Hi. unfold combine, contributed.
  destruct (empty wsb_df) eqn:Hwe, (empty institutional_df) eqn:Hie; cbn [negb andb].
  - exists new_frame. cbn [mbind outcome_bind]. repeat split; try done.
  - cbn [mbind outcome_bind]. rewrite Hie. cbn [negb andb].
    rewrite bool_decide_eq_true_2 by auto. cbn [negb].
    exists institutional_df. repeat split; try done; [auto|].
    intros i r Hr. by exists r.
  - cbn [mbind outcome_bind]. rewrite Hwe. cbn [negb andb].
    rewrite bool_decide_eq_true_2 by auto. cbn [negb].
    exists wsb_df. rewrite app_nil_r. cbn [length]. rewrite Nat.add_0_r.
    repeat split; try done; [auto|].
    intros i r Hr. by exists r.
  - rewrite AggregatorFacts.select_common_l, AggregatorFacts.select_common_r.
    cbn [mbind outcome_bind].
    set (cols := common_cols wsb_df institutional_df).
    assert ("source" ∈ cols) as Hsrc
      by (apply AggregatorFacts.elem_of_common_cols; auto).
    assert (filter (λ c, c ∉ cols) cols = []) as Hfilter.
    { destruct (filter (λ c, c ∉ cols) cols) as [|c l] eqn:Hf; [done|].
      assert (c ∈ filter (λ c, c ∉ cols) cols) as Hc
        by (rewrite Hf; apply elem_of_cons; by left).
      by apply list_elem_of_filter in Hc as [Hn Hc]. }
    unfold pd_concat. cbn [columns rows]. rewrite Hfilter, app_nil_r.
    apply AggregatorFacts.empty_false in Hwe as [_ Hwrows].
    assert (empty {| columns := cols;
                     rows := ((λ r, filter (λ kv : string * cell, kv.1 ∈ cols) r)
                                <$> rows wsb_df) ++
                             ((λ r, filter (λ kv : string * cell, kv.1 ∈ cols) r)
                                <$> rows institutional_df) |} = false) as Hne.
    { apply AggregatorFacts.empty_false. cbn [columns rows]. split.
      - intros Hnil. rewrite Hnil in Hsrc. by apply elem_of_nil in Hsrc.
      - by destruct (rows wsb_df). }
    rewrite Hne. cbn [negb andb columns].
    rewrite bool_decide_eq_true_2 by done. cbn [negb].
    eexists. split; [done|]. split; [done|]. cbn [columns rows]. split; [|split].
    + intros c Hcw Hci _. apply AggregatorFacts.elem_of_common_cols. auto.
    + by rewrite length_app, !length_fmap.
    + intros i r. rewrite <- fmap_app, list_lookup_fmap.
      destruct ((rows wsb_df ++ rows institutional_df) !! i) as [r0|]; [|done].
      intros [= <-]. exists r0. split; [done|].
      rewrite AggregatorFacts.lookup_projected. by rewrite bool_decide_eq_true_2.
Qed.

(** The whole of lines 30-66 on frames that can be scored. *)
Lemma fetch_all_shape wsb_df institutional_df :
  empty wsb_df = true ∨ scorable wsb_df →
  empty institutional_df = true ∨ scorable institutional_df →
  (∀ text, ∃ scores, analyze_text text = Returns scores) →
  ∃ combined_df : DataFrame cell,
    fetch_all_sentiment_data str num analyze_text wsb_df institutional_df
    = Returns combined_df ∧
    empty combined_df = empty wsb_df && empty institutional_df ∧
    length (rows combined_df)
    = (length (contributed wsb_df) + length (contributed institutional_df))%nat ∧
    (empty combined_df = false →
     "source" ∈ columns combined_df ∧ "positive" ∈ columns combined_df) ∧
    ∀ i r, rows combined_df !! i = Some r →
      if decide (i < length (contributed wsb_df))%nat
      then r !! "source" = Some (str "WallStreetBets")
      else ∃ r0,
        contributed institutional_df !! (i - length (contributed wsb_df))%nat = Some r0 ∧
        r !! "source" = if bool_decide ("source" ∈ columns institutional_df)
                        then r0 !! "source" else Some (str "Financial News").
Proof.
  intros Hw Hi Htotal.
  destruct (tag_wsb_Returns wsb_df Hw Htotal) as (wsb_df' & Htw & Hwe & Hwlen & Hwrows).
  destruct (tag_institutional_Returns institutional_df Hi Htotal)
    as (institutional_df' & Hti & Hie & Hilen & Hirows).
  unfold fetch_all_sentiment_data. rewrite Htw. cbn [mbind outcome_bind].
  rewrite Hti. cbn [mbind outcome_bind].
  destruct (combine_tagged wsb_df' institutional_df')
    as (combined_df & -> & Hempty & Hcols & Hlen & Hrows).
  { rewrite Hwe. intros Hdata. by apply Hwrows. }
  { rewrite Hie. intros Hdata. by apply Hirows. }
  assert (length (contributed wsb_df') = length (contributed wsb_df)) as Hcw
    by (unfold contributed; rewrite Hwe; by destruct (empty wsb_df)).
  assert (length (contributed institutional_df')
          = length (contributed institutional_df)) as Hci
    by (unfold contributed; rewrite Hie; by destruct (empty institutional_df)).
  exists combined_df. split; [done|]. split; [by rewrite Hempty, Hwe, Hie|].
  split; [by rewrite Hlen, Hcw, Hci|]. split.
  - intros Hdata. split; apply Hcols; try done.
    all: try (rewrite Hwe; intros Hd; by apply Hwrows).
    all: rewrite Hie; intros Hd; by apply Hirows.
  - intros i r Hr. destruct (Hrows i r Hr) as (r0' & Hr0' & ->).
    rewrite <- Hcw. destruct (decide (i < length (contributed wsb_df'))%nat) as [Hlt|Hge].
    + rewrite lookup_app_l in Hr0' by done.
      unfold contributed in Hr0'. rewrite Hwe in Hr0'.
      destruct (empty wsb_df) eqn:Hdata; [done|].
      by apply (proj2 (proj2 (Hwrows eq_refl)) i).
    + rewrite lookup_app_r in Hr0' by lia.
      unfold contributed at 2 in Hr0'. rewrite Hie in Hr0'.
      unfold contributed at 2.
      destruct (empty institutional_df) eqn:Hdata; [done|].
      by apply (proj2 (proj2 (Hirows eq_refl))).
Qed.

(** X18.  When every frame that has data can be scored and the classifier
    returns on every text, lines 30-66 return a frame: no KeyError from
    the projection or from the read of 'source'.  The result has one row
    for each row of a frame with data, it counts as empty only when both
    frames do, and when it has data it has the columns 'source' and
    'positive'. *)
Theorem tagged_frames_combine wsb_df institutional_df :
  empty wsb_df = true ∨ scorable wsb_df →
  empty institutional_df = true ∨ scorable institutional_df →
  (∀ text, ∃ scores, analyze_text text = Returns scores) →
  ∃ combined_df : DataFrame cell,
    fetch_all_sentiment_data str num analyze_text wsb_df institutional_df
    = Returns combined_df ∧
    empty combined_df = empty wsb_df && empty institutional_df ∧
    length (rows combined_df)
    = (length (contributed wsb_df) + length (contributed institutional_df))%nat ∧
    (empty combined_df = false →
     "source" ∈ columns combined_df ∧ "positive" ∈ columns combined_df).
Proof.
  intros Hw Hi Htotal.
  destruct (fetch_all_shape wsb_df institutional_df Hw Hi Htotal)
    as (combined_df & H1 & H2 & H3 & H4 & _).
  by exists combined_df.
Qed.

(** X19.  In the returned frame the rows of the WallStreetBets frame come
    first and are all labelled 'WallStreetBets', whatever their 'source'
    cell held before.  The rows of the institutional frame follow, in
    order; they keep the 'source' cell they had, also a missing one, and
    are labelled 'Financial News' only when the frame had no 'source'
    column. *)
Theorem combined_source_labels wsb_df institutional_df (combined_df : DataFrame cell) :
  empty wsb_df = true ∨ scorable wsb_df →
  empty institutional_df = true ∨ scorable institutional_df →
  (∀ text, ∃ scores, analyze_text text = Returns scores) →
  fetch_all_sentiment_data str num analyze_text wsb_df institutional_df
  = Returns combined_df →
  ∀ i r, rows combined_df !! i = Some r →
    if decide (i < length (contributed wsb_df))%nat
    then r !! "source" = Some (str "WallStreetBets")
    else ∃ r0,
      contributed institutional_df !! (i - length (contributed wsb_df))%nat = Some r0 ∧
      r !! "source" = if bool_decide ("source" ∈ columns institutional_df)
                      then r0 !! "source" else Some (str "Financial News").
Proof.
  intros Hw Hi Htotal Hfetch.
  destruct (fetch_all_shape wsb_df institutional_df Hw Hi Htotal)
    as (combined_df' & H1 & _ & _ & _ & H5).
  rewrite Hfetch in H1. by injection H1 as <-.
Qed.

(** The stage of lines 31-37 returns when the WallStreetBets frame is empty,
    is already scored, or has a 'text' column on whose cells the classifier
    returns. *)
Lemma tag_wsb_passes wsb_df :
  empty wsb_df = true ∨ "positive" ∈ columns wsb_df
  ∨ ("text" ∈ columns wsb_df
     ∧ ∀ r, r ∈ rows wsb_df → ∃ scores, analyze_text (r !! "text") = Returns scores) →
  ∃ wsb_df' : DataFrame cell, tag_wsb str num analyze_text wsb_df = Returns wsb_df'.
Proof.
  intros Hpass. unfold tag_wsb. destruct (empty wsb_df); cbn [negb]; [by eexists|].
  destruct Hpass as [?|[Hpos|[Htext Hrows]]]; [done| |].
  - rewrite bool_decide_eq_false_2 by (intros Hn; by apply Hn). by eexists.
  - case_bool_decide; [|by eexists]. unfold analyze_frame.
    rewrite (bool_decide_eq_true_2 _ Htext).
    destruct (InstitutionalExtras.mapM_all_Return
                (λ r : gmap string cell, analyze_text (r !! "text")) (rows wsb_df) Hrows)
      as [results ->].
    by eexists.
Qed.

(** X20.  A frame with data that has neither a 'positive' nor a 'text'
    column makes lines 30-66 raise KeyError: the WallStreetBets frame
    whatever the institutional frame holds, and the institutional frame
    whenever the WallStreetBets stage before it has returned (its frame is
    empty, already scored, or scored without an exception).  When a frame
    has to be scored, the first text on which the classifier raises ends
    the whole call with that exception: nothing is returned for either
    source. *)
Theorem unscorable_frame_raises wsb_df institutional_df :
  (empty wsb_df = false → "positive" ∉ columns wsb_df → "text" ∉ columns wsb_df →
   fetch_all_sentiment_data str num analyze_text wsb_df institutional_df
   = Raises KeyError) ∧
  (empty wsb_df = true ∨ "positive" ∈ columns wsb_df
   ∨ ("text" ∈ columns wsb_df
      ∧ ∀ r, r ∈ rows wsb_df → ∃ scores, analyze_text (r !! "text") = Returns scores) →
   empty institutional_df = false →
   "positive" ∉ columns institutional_df → "text" ∉ columns institutional_df →
   fetch_all_sentiment_data str num analyze_text wsb_df institutional_df
   = Raises KeyError) ∧
  (∀ before r after e,
     empty wsb_df = false → "positive" ∉ columns wsb_df → "text" ∈ columns wsb_df →
     rows wsb_df = before ++ r :: after →
     (∀ r', r' ∈ before → ∃ scores, analyze_text (r' !! "text") = Returns scores) →
     analyze_text (r !! "text") = Raises e →
     fetch_all_sentiment_data str num analyze_text wsb_df institutional_df
     = Raises e) ∧
  (∀ before r after e,
     empty wsb_df = true ∨ "positive" ∈ columns wsb_df
     ∨ ("text" ∈ columns wsb_df
        ∧ ∀ r, r ∈ rows wsb_df → ∃ scores, analyze_text (r !! "text") = Returns scores) →
     empty institutional_df = false →
     "positive" ∉ columns institutional_df → "text" ∈ columns institutional_df →
     rows institutional_df = before ++ r :: after →
     (∀ r', r' ∈ before → ∃ scores, analyze_text (r' !! "text") = Returns scores) →
     analyze_text (r !! "text") = Raises e →
     fetch_all_sentiment_data str num analyze_text wsb_df institutional_df
     = Raises e).
Proof.
  split; [|split; [|split]].
  - intros Hdata Hpos Htext. unfold fetch_all_sentiment_data, tag_wsb.
    rewrite Hdata. cbn [negb]. rewrite (bool_decide_eq_true_2 _ Hpos).
    unfold analyze_frame. by rewrite (bool_decide_eq_false_2 _ Htext).
  - intros Hpass Hdata Hpos Htext.
    destruct (tag_wsb_passes wsb_df Hpass) as [wsb_df' Hw].
    unfold fetch_all_sentiment_data. rewrite Hw. cbn [mbind outcome_bind].
    unfold tag_institutional. rewrite Hdata. cbn [negb].
    rewrite (bool_decide_eq_true_2 _ Hpos).
    unfold analyze_frame. by rewrite (bool_decide_eq_false_2 _ Htext).
  - intros before r after e Hdata Hpos Htext Hrows Hbefore Hr.
    unfold fetch_all_sentiment_data, tag_wsb.
    rewrite Hdata. cbn [negb]. rewrite (bool_decide_eq_true_2 _ Hpos).
    unfold analyze_frame. rewrite (bool_decide_eq_true_2 _ Htext), Hrows.
    by rewrite (InstitutionalExtras.mapM_first_Raises
                  (λ r : gmap string cell, analyze_text (r !! "text"))
                  before after r e Hbefore Hr).
  - intros before r after e Hpass Hdata Hpos Htext Hrows Hbefore Hr.
    destruct (tag_wsb_passes wsb_df Hpass) as [wsb_df' Hw].
    unfold fetch_all_sentiment_data. rewrite Hw. cbn [mbind outcome_bind].
    unfold tag_institutional. rewrite Hdata. cbn [negb].
    rewrite (bool_decide_eq_true_2 _ Hpos).
    unfold analyze_frame. rewrite (bool_decide_eq_true_2 _ Htext), Hrows.
    by rewrite (InstitutionalExtras.mapM_first_Raises
                  (λ r : gmap string cell, analyze_text (r !! "text"))
                  before after r e Hbefore Hr).
Qed.

(** X21.  A frame that already has a 'positive' column is never scored
    again: when each frame is empty or has that column, the result does
    not depend on the classifier, which is not called. *)
Theorem scored_frames_not_rescored
    (analyze_text' : option cell → outcome (Q * Q * Q)) wsb_df institutional_df :
  empty wsb_df = true ∨ "positive" ∈ columns wsb_df →
  empty institutional_df = true ∨ "positive" ∈ columns institutional_df →
  fetch_all_sentiment_data str num analyze_text wsb_df institutional_df
  = fetch_all_sentiment_data str num analyze_text' wsb_df institutional_df.
Proof.
  intros Hw Hi. unfold fetch_all_sentiment_data.
  assert (tag_wsb str num analyze_text wsb_df = tag_wsb str num analyze_text' wsb_df)
    as ->.
  { unfold tag_wsb. destruct (empty wsb_df); [done|]. cbn [negb].
    destruct Hw as [?|Hpos]; [done|].
    by rewrite !bool_decide_eq_false_2 by (intros Hn; by apply Hn). }
  assert (tag_institutional str num analyze_text institutional_df
          = tag_institutional str num analyze_text' institutional_df) as ->.
  { unfold tag_institutional. destruct (empty institutional_df); [done|]. cbn [negb].
    destruct Hi as [?|Hpos]; [done|].
    by rewrite !bool_decide_eq_false_2 by (intros Hn; by apply Hn). }
  done.
Qed.

End Tagging.

Ltac by_listing := apply (bool_decide_unpack _); vm_compute; exact I.

Lemma tagged_frames_combine_witness :
  ∃ combined_df : DataFrame Scenarios.Frames.value,
    fetch_all_sentiment_data Scenarios.Frames.VStr Scenarios.Frames.VNum
      MoreScenarios.Frames.steady MoreScenarios.Frames.raw_posts MoreScenarios.Frames.raw_news
    = Returns combined_df ∧
    empty combined_df
    = empty MoreScenarios.Frames.raw_posts && empty MoreScenarios.Frames.raw_news ∧
    length (rows combined_df)
    = (length (contributed MoreScenarios.Frames.raw_posts)
       + length (contributed MoreScenarios.Frames.raw_news))%nat ∧
    (empty combined_df = false →
     "source" ∈ columns combined_df ∧ "positive" ∈ columns combined_df).
Proof.
  apply tagged_frames_combine.
  - right. right. split; [by_listing|]. split; by_listing.
  - right. right. split; [by_listing|]. split; by_listing.
  - intros text. by exists (0.1, 0.2, 0.7)%Q.
Defined.

Lemma combined_source_labels_witness :
  ∃ r,
    rows (set_column Scenarios.Frames.wsb_frame "source"
            (Scenarios.Frames.VStr "WallStreetBets")) !! 0%nat = Some r
    ∧ r !! "source" = Some (Scenarios.Frames.VStr "WallStreetBets").
Proof.
  eexists. split; [reflexivity|].
  refine (combined_source_labels Scenarios.Frames.VStr Scenarios.Frames.VNum
            MoreScenarios.Frames.steady Scenarios.Frames.wsb_frame new_frame
            (set_column Scenarios.Frames.wsb_frame "source"
               (Scenarios.Frames.VStr "WallStreetBets"))
            _ _ _ _ 0%nat _ _).
  - right. left. by_listing.
  - by left.
  - intros text. by exists (0.1, 0.2, 0.7)%Q.
  - vm_compute. reflexivity.
  - reflexivity.
Defined.

Lemma unscorable_frame_raises_witness :
  fetch_all_sentiment_data Scenarios.Frames.VStr Scenarios.Frames.VNum
    MoreScenarios.Frames.steady MoreScenarios.Frames.raw_posts MoreScenarios.Frames.textless
  = Raises KeyError.
Proof.
  apply (proj1 (proj2 (unscorable_frame_raises Scenarios.Frames.VStr Scenarios.Frames.VNum
                  MoreScenarios.Frames.steady MoreScenarios.Frames.raw_posts
                  MoreScenarios.Frames.textless))).
  - right. right. split; [by_listing|]. intros r _. by exists (0.1, 0.2, 0.7)%Q.
  - reflexivity.
  - by_listing.
  - by_listing.
Defined.

Lemma scored_frames_not_rescored_witness :
  fetch_all_sentiment_data Scenarios.Frames.VStr Scenarios.Frames.VNum
    MoreScenarios.Frames.steady Scenarios.Frames.wsb_frame Scenarios.Frames.news_frame
  = fetch_all_sentiment_data Scenarios.Frames.VStr Scenarios.Frames.VNum
      MoreScenarios.Frames.moody Scenarios.Frames.wsb_frame Scenarios.Frames.news_frame.
Proof.
  apply scored_frames_not_rescored; right; by_listing.
Defined.

End PipelineFacts.
